(** * Procedural log generation: a shallow embedding of [logs.py]

    The geometry generator [generate_proc_log], the end-cap builder
    [make_cap] and the part of the main loop that drives them are
    embedded as Rocq functions.

    Numbers.  Python [int] parameters ([rings], [verts_per_ring],
    [curve_count], [groove_count], [flange_count]) are [Z]; Python
    [float]s are idealised as real numbers [R], so rounding is not
    modelled: every equation on coordinates below is an equation of real
    arithmetic.  What Python raises on ([x / 0], [x % 0], [0.0 ** y] with
    [y < 0], a list index out of range, an axis name [Matrix.Rotation]
    does not know) is an explicit [Err].

    Blender.  [bmesh] is modelled as the store it is used as:
    [bm.verts.new] appends a vertex and returns its handle (its index in
    creation order), [bm.faces.new] appends a face unless Blender refuses
    it (fewer than three vertices, a vertex named twice, a face over the
    same vertices already there), [bm.to_mesh] copies both into the mesh
    datablock.  Three things that Blender decides are parameters of the
    development: [mathutils.noise.noise] (a pure function of the sample
    point), the name a new datablock gets when the one asked for may be
    taken, and which objects [select_all] selects.  Material graphs, UV
    unwrapping and export are left out. *)

From Stdlib Require Import Reals Lra Lia ZArith List String Ascii Bool Classical.
Import ListNotations.

Set Implicit Arguments.

(** ** Python values and the operations that can raise *)

Inductive Exn : Type :=
| ZeroDivisionError
| ValueError
| IndexError
| TypeError.

Inductive result (A : Type) : Type :=
| Ok (a : A)
| Err (e : Exn).

Arguments Ok {A} a.
Arguments Err {A} e.

Definition rbind {A B} (r : result A) (k : A -> result B) : result B :=
  match r with
  | Ok a => k a
  | Err e => Err e
  end.

Module Py.

Local Open Scope R_scope.

(** [x / y] on floats. *)
Definition div (x y : R) : result R :=
  if Req_dec_T y 0 then Err ZeroDivisionError else Ok (x / y).

(** [x % y] on floats: the result takes the sign of [y]. *)
Definition fmod (x y : R) : result R :=
  if Req_dec_T y 0 then Err ZeroDivisionError
  else Ok (x - y * IZR (Int_part (x / y))).

(** [x ** y] on floats.  A negative base with a fractional exponent
    leaves the floats (Python answers with a [complex]); the generator
    only ever passes [x = i / rings >= 0]. *)
Definition pow (x y : R) : result R :=
  if Rlt_dec 0 x then Ok (Rpower x y)
  else if Req_dec_T x 0 then
    if Rlt_dec 0 y then Ok 0
    else if Req_dec_T y 0 then Ok 1
    else Err ZeroDivisionError
  else Err TypeError.

(** [math.radians]. *)
Definition radians (d : R) : R := d * (PI / 180).

(** [range(k)]: the indices [0 .. k-1], none when [k <= 0]. *)
Definition range (k : Z) : list nat := seq 0 (Z.to_nat k).

(** [l[k]] for a non-negative index. *)
Definition index {A} (l : list A) (k : nat) : result A :=
  match nth_error l k with
  | Some a => Ok a
  | None => Err IndexError
  end.

(** [l[:n]]. *)
Definition slice_to {A} (l : list A) (n : Z) : list A :=
  if (0 <=? n)%Z then firstn (Z.to_nat n) l
  else firstn (Z.to_nat (Z.of_nat (List.length l) + n)) l.

(** [l[-n:]]: the start [-n] counts from the end when it is negative;
    [l[-0:]] is the whole list. *)
Definition slice_from_neg {A} (l : list A) (n : Z) : list A :=
  if (0 <? n)%Z then skipn (Z.to_nat (Z.of_nat (List.length l) - n)) l
  else skipn (Z.to_nat (- n)) l.

(** [str.upper] on ASCII letters. *)
Definition upper_ascii (c : ascii) : ascii :=
  let k := nat_of_ascii c in
  if ((97 <=? k) && (k <=? 122))%nat then ascii_of_nat (k - 32) else c.

Fixpoint upper (s : string) : string :=
  match s with
  | EmptyString => EmptyString
  | String c s' => String (upper_ascii c) (upper s')
  end.

End Py.

(** ** mathutils: vectors and rotation matrices *)

Definition Vector : Type := (R * R * R)%type.

Definition vadd (a b : Vector) : Vector :=
  let '(ax, ay, az) := a in
  let '(bx, by_, bz) := b in
  (ax + bx, ay + by_, az + bz)%R.

(** The linear part of a 4x4 rotation matrix, by rows; its translation
    column is zero, so [rot @ v] on a 3D vector is this product. *)
Definition Matrix : Type := (Vector * Vector * Vector)%type.

Definition dot (a b : Vector) : R :=
  let '(ax, ay, az) := a in
  let '(bx, by_, bz) := b in
  (ax * bx + ay * by_ + az * bz)%R.

Definition matmul_vec (m : Matrix) (v : Vector) : Vector :=
  let '(r0, r1, r2) := m in (dot r0 v, dot r1 v, dot r2 v).

(** [Matrix.Rotation(angle, 4, axis)] for an axis given by name. *)
Definition Matrix_Rotation (angle : R) (axis : string) : result Matrix :=
  let c := cos angle in
  let s := sin angle in
  if (axis =? "X")%string then
    Ok ((1, 0, 0), (0, c, - s), (0, s, c))%R
  else if (axis =? "Y")%string then
    Ok ((c, 0, s), (0, 1, 0), (- s, 0, c))%R
  else if (axis =? "Z")%string then
    Ok ((c, - s, 0), (s, c, 0), (0, 0, 1))%R
  else Err ValueError.

(** ** The parameter record

    The keys of the JSON dictionary that the modelled code reads. *)

Record Params : Type := {
  name : string;
  length : R;
  radius_start : R;
  radius_center : R;
  radius_end : R;
  rings : Z;
  verts_per_ring : Z;
  taper_shape : string;
  taper_rate : R;
  curve_count : Z;
  curve_strength : R;
  twist_angle : R;
  twist_direction : string;
  ellipse_ratio : R;
  oval_region_fraction : R;
  eccentricity_offset : R;
  eccentricity_angle : R;
  groove_count : Z;
  groove_width : R;
  groove_depth : R;
  noise_scale : R;
  bark_roughness_depth : R;
  bark_roughness_level : R;
  flange_count : Z;
  flange_width : R
}.

(** ** bmesh and the Blender scene *)

Record BMesh : Type := {
  bm_verts : list Vector;
  bm_faces : list (list nat)
}.

Definition bmesh_new : BMesh := {| bm_verts := []; bm_faces := [] |}.

Record Polygon : Type := {
  poly_vertices : list nat;
  use_smooth : bool
}.

Record Mesh : Type := {
  mesh_name : string;
  vertices : list Vector;
  polygons : list Polygon;
  materials : list string
}.

Record Object : Type := {
  obj_name : string;
  obj_data : nat;
  obj_location : Vector
}.

Record Scene : Type := {
  meshes : list Mesh;
  objects : list Object
}.

(** Code that mutates a [BMesh] and may raise: the store survives the
    exception, as the Python object does. *)
Definition M (A : Type) : Type := BMesh -> result A * BMesh.

Definition ret {A} (a : A) : M A := fun bm => (Ok a, bm).

Definition bind {A B} (c : M A) (k : A -> M B) : M B :=
  fun bm =>
    match c bm with
    | (Ok a, bm') => k a bm'
    | (Err e, bm') => (Err e, bm')
    end.

Definition lift {A} (r : result A) : M A := fun bm => (r, bm).

Declare Scope py_scope.
Delimit Scope py_scope with py.
Notation "x <- c ;; k" := (bind c (fun x => k))
  (at level 61, c at next level, right associativity) : py_scope.
Notation "x <~ r ;; k" := (rbind r (fun x => k))
  (at level 61, r at next level, right associativity) : py_scope.

(** [for x in l: acc = body(acc, x)]. *)
Fixpoint for_each {A S} (l : list A) (body : S -> A -> M S) (acc : S) : M S :=
  match l with
  | [] => ret acc
  | x :: l' => bind (body acc x) (for_each l' body)
  end.

Definition verts_new (co : Vector) : M nat :=
  fun bm =>
    (Ok (List.length (bm_verts bm)),
     {| bm_verts := bm_verts bm ++ [co]; bm_faces := bm_faces bm |}).

(** Whether a face names a vertex twice. *)
Fixpoint has_repeat (loop : list nat) : bool :=
  match loop with
  | [] => false
  | v :: loop' => existsb (Nat.eqb v) loop' || has_repeat loop'
  end.

(** Whether the face [f] is over the vertices of [loop]: as many, and
    each of them one of [loop]. *)
Definition same_face (loop f : list nat) : bool :=
  (List.length f =? List.length loop)%nat
  && forallb (fun v => existsb (Nat.eqb v) loop) f.

(** [bm.faces.new(loop)].  Blender checks the sequence before it builds
    the face: fewer than three vertices are a [TypeError], a vertex named
    twice is a [ValueError], and so is a face over the vertices of one
    that exists. *)
Definition faces_new (loop : list nat) : M unit :=
  fun bm =>
    if (List.length loop <? 3)%nat then (Err TypeError, bm)
    else if has_repeat loop then (Err ValueError, bm)
    else if existsb (same_face loop) (bm_faces bm) then (Err ValueError, bm)
    else
      (Ok tt,
       {| bm_verts := bm_verts bm; bm_faces := bm_faces bm ++ [loop] |}).

(** [bm.to_mesh(mesh)]: the mesh datablock receives the vertices in
    creation order and one polygon per face, flat-shaded. *)
Definition to_mesh (bm : BMesh) (m : Mesh) : Mesh :=
  {| mesh_name := mesh_name m;
     vertices := bm_verts bm;
     polygons :=
       map (fun f => {| poly_vertices := f; use_smooth := false |}) (bm_faces bm);
     materials := materials m |}.

Fixpoint update_at {A} (k : nat) (f : A -> A) (l : list A) : list A :=
  match l, k with
  | [], _ => []
  | x :: l', O => f x :: l'
  | x :: l', S k' => x :: update_at k' f l'
  end.

Definition empty_mesh (nm : string) : Mesh :=
  {| mesh_name := nm; vertices := []; polygons := []; materials := [] |}.

(** [obj.data]: datablock references never dangle, the default is not
    reached. *)
Definition obj_mesh (w : Scene) (o : Object) : Mesh :=
  nth (obj_data o) (meshes w) (empty_mesh "").

Definition update_mesh (id : nat) (f : Mesh -> Mesh) (w : Scene) : Scene :=
  {| meshes := update_at id f (meshes w); objects := objects w |}.

(** ** The geometry generator *)

Section Generator.

(** [mathutils.noise.noise], applied to the three coordinates of the
    sample point. *)
Variable noise : R -> R -> R -> R.

(** The name Blender gives a new datablock: [unique_name used nm] is the
    name of a datablock asked to be called [nm] while the names [used]
    are taken, [nm] itself or a numbered variant of it. *)
Variable unique_name : list string -> string -> string.

(** The objects [clear_scene] removes:
    [bpy.ops.object.select_all(action='SELECT')] selects the objects
    that are visible and selectable in the active view layer, and
    [bpy.ops.object.delete] deletes what is selected. *)
Variable selectable : Object -> bool.

(** [clear_scene], called in object mode: the objects that get selected
    are deleted, the others stay; mesh datablocks stay behind in
    [bpy.data]. *)
Definition clear_scene (w : Scene) : Scene :=
  {| meshes := meshes w;
     objects := filter (fun o => negb (selectable o)) (objects w) |}.

(** The names of the datablocks of [bpy.data.meshes.new(f"{name}Mesh")]
    and [bpy.data.objects.new(name, mesh)]. *)
Definition new_mesh_name (nm : string) (w : Scene) : string :=
  unique_name (map mesh_name (meshes w)) (nm ++ "Mesh").

Definition new_obj (nm : string) (location : Vector) (w : Scene) : Object :=
  {| obj_name := unique_name (map obj_name (objects w)) nm;
     obj_data := List.length (meshes w);
     obj_location := location |}.

(** [bpy.data.meshes.new], [bpy.data.objects.new], [objects.link] and the
    assignment of [obj.location], the common prologue of
    [generate_proc_log] and [make_cap]. *)
Definition new_object (nm : string) (location : Vector) (w : Scene)
  : Object * Scene :=
  let obj := new_obj nm location w in
  (obj, {| meshes := meshes w ++ [empty_mesh (new_mesh_name nm w)];
           objects := objects w ++ [obj] |}).

Local Open Scope R_scope.
Local Open Scope py_scope.

(** Tapered radius at [t]: linear, exponential, or (any other
    [taper_shape]) quadratic. *)
Definition taper (p : Params) (t : R) : result R :=
  if (taper_shape p =? "linear")%string then
    Ok (radius_start p + (radius_end p - radius_start p) * t)
  else if (taper_shape p =? "exponential")%string then
    pw <~ Py.pow t (taper_rate p) ;;
    Ok (radius_start p + (radius_end p - radius_start p) * pw)
  else
    Ok ((1 - t) ^ 2 * radius_start p
        + 2 * (1 - t) * t * radius_center p
        + t ^ 2 * radius_end p).

(** Ellipse inside the oval region, circle outside. *)
Definition ellipse (p : Params) (t radius : R) : result (R * R) :=
  if Rlt_dec t (oval_region_fraction p) then
    ry <~ Py.div radius (ellipse_ratio p) ;;
    Ok (radius * ellipse_ratio p, ry)
  else Ok (radius, radius).

(** The test [flange_count and (i % max(1, rings//flange_count)) == 0];
    [and] short-circuits, so the floor division only runs on a
    non-zero [flange_count]. *)
Definition flange_test (p : Params) (i : nat) : bool :=
  if (flange_count p =? 0)%Z then false
  else (Z.of_nat i mod Z.max 1 (rings p / flange_count p) =? 0)%Z.

Definition flange (p : Params) (i : nat) (rxy : R * R) : R * R :=
  let '(rx, ry) := rxy in
  if flange_test p i then (rx + flange_width p, ry + flange_width p)
  else (rx, ry).

Definition centerline (p : Params) (t : R) : Vector :=
  (curve_strength p * sin (2 * PI * IZR (curve_count p) * t),
   curve_strength p * cos (2 * PI * IZR (curve_count p) * t),
   length p * t).

Definition eccentric_offset (p : Params) : Vector :=
  let ea := Py.radians (eccentricity_angle p) in
  (eccentricity_offset p * cos ea, eccentricity_offset p * sin ea, 0).

Definition twist (p : Params) (t : R) : result Matrix :=
  let angle := Py.radians (twist_angle p) * t in
  Matrix_Rotation angle (Py.upper (twist_direction p)).

(** What the body of the outer loop computes for ring [i] before the
    inner loop starts. *)
Record RingFrame : Type := {
  rf_t : R;
  rf_rx : R;
  rf_ry : R;
  rf_center : Vector;
  rf_rot : Matrix
}.

Definition ring_frame (p : Params) (i : nat) : result RingFrame :=
  t <~ Py.div (INR i) (IZR (rings p)) ;;
  radius <~ taper p t ;;
  rxy <~ ellipse p t radius ;;
  let '(rx, ry) := flange p i rxy in
  let center := vadd (centerline p t) (eccentric_offset p) in
  rot <~ twist p t ;;
  Ok {| rf_t := t; rf_rx := rx; rf_ry := ry;
        rf_center := center; rf_rot := rot |}.

(** Groove term at angle [theta]. *)
Definition groove (p : Params) (theta : R) : result R :=
  ang_per <~ Py.div (2 * PI) (IZR (groove_count p)) ;;
  m <~ Py.fmod (theta - ang_per / 2) ang_per ;;
  let off := m - ang_per / 2 in
  Ok (if Rlt_dec (Rabs off) (groove_width p / 2)
      then - groove_depth p else 0).

(** Bark roughness at [(t, theta)]. *)
Definition rough (p : Params) (t theta : R) : R :=
  let n := noise (t * noise_scale p) (theta * noise_scale p) 0 in
  n * bark_roughness_depth p * bark_roughness_level p.

(** [r_x, r_y = rx + rough + groove, ry + rough + groove]. *)
Definition sample_radii (p : Params) (f : RingFrame) (theta g : R)
  : R * R :=
  let rgh := rough p (rf_t f) theta in
  (rf_rx f + rgh + g, rf_ry f + rgh + g).

(** [loc_v]: sample [j] of the ring in its local plane. *)
Definition local_point (p : Params) (f : RingFrame) (j : nat)
  : result Vector :=
  theta <~ Py.div (2 * PI * INR j) (IZR (verts_per_ring p)) ;;
  g <~ groove p theta ;;
  let '(r_x, r_y) := sample_radii p f theta g in
  Ok (r_x * cos theta, r_y * sin theta, 0).

(** [rot @ loc_v + center]. *)
Definition place (f : RingFrame) (loc_v : Vector) : Vector :=
  vadd (matmul_vec (rf_rot f) loc_v) (rf_center f).

Definition ring_vertex (p : Params) (f : RingFrame) (j : nat)
  : result Vector :=
  loc_v <~ local_point p f j ;;
  Ok (place f loc_v).

(** The inner loop: the vertices of one ring, in angular order. *)
Definition build_ring (p : Params) (f : RingFrame) : M (list nat) :=
  for_each (Py.range (verts_per_ring p))
    (fun ring j =>
       co <- lift (ring_vertex p f j) ;;
       v <- verts_new co ;;
       ret (ring ++ [v]))
    [].

(** The outer loop: [rings + 1] rings. *)
Definition build_rings (p : Params) : M (list (list nat)) :=
  for_each (Py.range (rings p + 1))
    (fun rings_verts i =>
       f <- lift (ring_frame p i) ;;
       ring <- build_ring p f ;;
       ret (rings_verts ++ [ring]))
    [].

(** [(j+1) % verts_per_ring]. *)
Definition next_index (p : Params) (j : nat) : nat :=
  Z.to_nat ((Z.of_nat j + 1) mod verts_per_ring p).

(** Connect rings into quads. *)
Definition connect_rings (p : Params) (rings_verts : list (list nat))
  : M unit :=
  for_each (Py.range (rings p))
    (fun _ i =>
       A <- lift (Py.index rings_verts i) ;;
       B <- lift (Py.index rings_verts (i + 1)) ;;
       for_each (Py.range (verts_per_ring p))
         (fun _ j =>
            a0 <- lift (Py.index A j) ;;
            a1 <- lift (Py.index A (next_index p j)) ;;
            b1 <- lift (Py.index B (next_index p j)) ;;
            b0 <- lift (Py.index B j) ;;
            faces_new [a0; a1; b1; b0])
         tt)
    tt.

Definition build_trunk (p : Params) : M unit :=
  rings_verts <- build_rings p ;;
  connect_rings p rings_verts.

Definition shade_smooth (m : Mesh) : Mesh :=
  {| mesh_name := mesh_name m;
     vertices := vertices m;
     polygons :=
       map (fun poly => {| poly_vertices := poly_vertices poly;
                           use_smooth := true |}) (polygons m);
     materials := materials m |}.

(** [generate_proc_log(name, params, location)].  The mesh datablock
    and its object are created and linked before the loops run, so they
    are in the scene also when the loops raise. *)
Definition generate_proc_log (nm : string) (p : Params)
    (location : Vector) (w : Scene) : result Object * Scene :=
  let '(obj, w1) := new_object nm location w in
  match build_trunk p bmesh_new with
  | (Err e, _) => (Err e, w1)
  | (Ok _, bm) =>
      let w2 := update_mesh (obj_data obj) (to_mesh bm) w1 in
      (Ok obj, update_mesh (obj_data obj) shade_smooth w2)
  end.

(** [make_cap(name, coords, material, flip)]. *)
Definition make_cap (nm : string) (coords : list Vector)
    (material : string) (flip : bool) (w : Scene) : result Object * Scene :=
  let '(obj, w1) := new_object nm (0, 0, 0) w in
  let cap :=
    bm_verts <- for_each coords
                  (fun acc c => v <- verts_new c ;; ret (acc ++ [v])) [] ;;
    let loop := if flip then rev bm_verts else bm_verts in
    faces_new loop in
  match cap bmesh_new with
  | (Err e, _) => (Err e, w1)
  | (Ok _, bm) =>
      let w2 := update_mesh (obj_data obj) (to_mesh bm) w1 in
      (Ok obj,
       update_mesh (obj_data obj)
         (fun m => {| mesh_name := mesh_name m;
                      vertices := vertices m;
                      polygons := polygons m;
                      materials := materials m ++ [material] |}) w2)
  end.

(** One turn of the main loop, without the material graphs, the UV
    unwrap and the export: the trunk, then the two caps over its first
    and last [verts_per_ring] vertices. *)
Definition process_log (cfg : Params) (w : Scene)
  : result (Object * Object * Object) * Scene :=
  let w0 := clear_scene w in
  match generate_proc_log (name cfg) cfg (0, 0, 0) w0 with
  | (Err e, w1) => (Err e, w1)
  | (Ok log_obj, w1) =>
      let w2 :=
        update_mesh (obj_data log_obj)
          (fun m => {| mesh_name := mesh_name m;
                       vertices := vertices m;
                       polygons := polygons m;
                       materials := ["BarkImagePBR_" ++ name cfg]%string |})
          w1 in
      let verts := vertices (obj_mesh w2 log_obj) in
      let n := verts_per_ring cfg in
      let start_coords := Py.slice_to verts n in
      let end_coords := Py.slice_from_neg verts n in
      let cap_mat := ("CapMat_" ++ name cfg)%string in
      match make_cap (name cfg ++ "_cap_start") start_coords cap_mat true w2 with
      | (Err e, w3) => (Err e, w3)
      | (Ok cap_start, w3) =>
          match make_cap (name cfg ++ "_cap_end") end_coords cap_mat false w3 with
          | (Err e, w4) => (Err e, w4)
          | (Ok cap_end, w4) => (Ok (log_obj, cap_start, cap_end), w4)
          end
      end
  end.

End Generator.

(** ** Texture sets of [logs.py] *)

(** [l[k]] for any integer index: a negative one counts from the end. *)
Definition index_z {A} (l : list A) (k : Z) : result A :=
  let n := Z.of_nat (List.length l) in
  if (k <? 0)%Z then
    if (k + n <? 0)%Z then Err IndexError else Py.index l (Z.to_nat (k + n))
  else Py.index l (Z.to_nat k).

(** The dictionary of the four map files of a texture set. *)
Record TextureFiles : Type := {
  color : string;
  normal : string;
  roughness : string;
  displacement : string
}.

Section Textures.

(** [os.path.join] and the project directory. *)
Variable path_join : string -> string -> string.
Variable SEMINARSKA_DIR : string.

Definition TEXTURES_DIR : string := path_join SEMINARSKA_DIR "textures".

Definition TEXTURE_SETS : list string :=
  map (path_join TEXTURES_DIR) ["1"; "2"; "3"; "4"; "5"; "6"]%string.

Definition texture_files (base : string) : TextureFiles :=
  {| color := path_join base "Color.jpg";
     normal := path_join base "Normal.jpg";
     roughness := path_join base "Roughness.jpg";
     displacement := path_join base "Displacement.jpg" |}.

(** [pick_specific_textures(idx)], [idx] after [int(idx)]. *)
Definition pick_specific_textures (idx : Z)
  : result (string * TextureFiles) :=
  rbind (index_z TEXTURE_SETS (idx - 1))
    (fun base => Ok (base, texture_files base)).

End Textures.

(** ** The parameter dictionary of [logs.py] *)

(** JSON values of a parameter file. *)
Inductive Value : Type :=
| VInt (z : Z)
| VFloat (r : R)
| VStr (s : string).

(** A Python dictionary with string keys, in insertion order. *)
Definition dict : Type := list (string * Value).

(** [d.get(k)]. *)
Fixpoint dict_get (d : dict) (k : string) : option Value :=
  match d with
  | [] => None
  | (k', v) :: d' => if (k' =? k)%string then Some v else dict_get d' k
  end.

(** [d[k] = v]: an existing key keeps its place. *)
Fixpoint dict_set (d : dict) (k : string) (v : Value) : dict :=
  match d with
  | [] => [(k, v)]
  | (k', v') :: d' =>
      if (k' =? k)%string then (k, v) :: d' else (k', v') :: dict_set d' k v
  end.

(** The result of subscripting: the values, or the [KeyError] of the
    key that is missing. *)
Inductive Lookup (A : Type) : Type :=
| Found (a : A)
| KeyError (k : string).

Arguments Found {A} a.
Arguments KeyError {A} k.

(** The keys [generate_proc_log] reads with [params[...]], in the order
    of its unpacking block. *)
Definition unpack_keys : list string :=
  ["length"; "radius_start"; "radius_center"; "radius_end"; "rings";
   "verts_per_ring"; "taper_shape"; "taper_rate"; "curve_count";
   "curve_strength"; "twist_angle"; "twist_direction"; "ellipse_ratio";
   "oval_region_fraction"; "eccentricity_offset"; "eccentricity_angle";
   "groove_count"; "groove_width"; "groove_depth"; "noise_scale";
   "bark_roughness_depth"; "bark_roughness_level"; "flange_count";
   "flange_width"]%string.

Fixpoint subscript_all (params : dict) (keys : list string)
  : Lookup (list Value) :=
  match keys with
  | [] => Found []
  | k :: keys' =>
      match dict_get params k with
      | None => KeyError k
      | Some v =>
          match subscript_all params keys' with
          | Found vs => Found (v :: vs)
          | KeyError k' => KeyError k'
          end
      end
  end.

(** The unpacking block of [generate_proc_log]. *)
Definition unpack_parameters (params : dict) : Lookup (list Value) :=
  subscript_all params unpack_keys.

(** * The parameter editor, [params.py] *)

Inductive PyType : Type :=
| TInt
| TFloat
| TStr.

(** An entry of [PARAMS]: key, type, default, choices. *)
Record ParamSpec : Type := {
  key : string;
  typ : PyType;
  default : Value;
  choices : option (list string)
}.

Definition NUM_COLUMNS : Z := 2.

Definition PARAMS : list ParamSpec :=
  let spec k t d c := {| key := k; typ := t; default := d; choices := c |} in
  [ spec "texture" TStr (VStr "random")
      (Some ["1"; "2"; "3"; "4"; "5"; "6"; "random"]%string);
    spec "name" TStr (VStr "Log") None;
    spec "length" TFloat (VFloat 5.0) None;
    spec "radius_start" TFloat (VFloat 0.5) None;
    spec "radius_center" TFloat (VFloat 0.45) None;
    spec "radius_end" TFloat (VFloat 0.4) None;
    spec "rings" TInt (VInt 30) None;
    spec "verts_per_ring" TInt (VInt 80) None;
    spec "taper_shape" TStr (VStr "quadratic")
      (Some ["linear"; "exponential"; "quadratic"]%string);
    spec "taper_rate" TFloat (VFloat 8.0) None;
    spec "curve_count" TInt (VInt 0) None;
    spec "curve_strength" TFloat (VFloat 0.3) None;
    spec "twist_angle" TFloat (VFloat 0.0) None;
    spec "twist_direction" TStr (VStr "Z") (Some ["X"; "Y"; "Z"]%string);
    spec "ellipse_ratio" TFloat (VFloat 1.1) None;
    spec "oval_region_fraction" TFloat (VFloat 0.8) None;
    spec "eccentricity_offset" TFloat (VFloat 0.5) None;
    spec "eccentricity_angle" TFloat (VFloat 0.0) None;
    spec "groove_count" TInt (VInt 2) None;
    spec "groove_width" TFloat (VFloat (PI / 4)) None;
    spec "groove_depth" TFloat (VFloat 0.02) None;
    spec "noise_scale" TFloat (VFloat 3.0) None;
    spec "bark_roughness_depth" TFloat (VFloat 0.1) None;
    spec "bark_roughness_level" TFloat (VFloat 1.0) None;
    spec "flange_count" TInt (VInt 3) None;
    spec "flange_width" TFloat (VFloat 0.05) None;
    spec "hue" TFloat (VFloat 0.02) None;
    spec "saturation" TFloat (VFloat 1.1) None;
    spec "value" TFloat (VFloat 1.05) None;
    spec "bump_strength" TFloat (VFloat 1.0) None;
    spec "disp_strength" TFloat (VFloat 0.05) None ]%string%R.

(** The ranges of [PARAM_METADATA], by key; the descriptions are left
    out. *)
Definition PARAM_METADATA : list (string * option (R * R)) :=
  [ ("texture", None);
    ("name", None);
    ("length", Some (0.1, 20.0));
    ("radius_start", Some (0.01, 5.0));
    ("radius_center", Some (0.01, 5.0));
    ("radius_end", Some (0.01, 5.0));
    ("rings", Some (3, 200));
    ("verts_per_ring", Some (3, 512));
    ("taper_shape", None);
    ("taper_rate", Some (0.1, 20.0));
    ("curve_count", Some (0, 10));
    ("curve_strength", Some (0.0, 5.0));
    ("twist_angle", Some (0.0, 360.0));
    ("twist_direction", None);
    ("ellipse_ratio", Some (0.1, 5.0));
    ("oval_region_fraction", Some (0.0, 1.0));
    ("eccentricity_offset", Some (0.0, 2.0));
    ("eccentricity_angle", Some (0.0, 360.0));
    ("groove_count", Some (0, 20));
    ("groove_width", Some (0.0, PI));
    ("groove_depth", Some (0.0, 1.0));
    ("noise_scale", Some (0.0, 10.0));
    ("bark_roughness_depth", Some (0.0, 1.0));
    ("bark_roughness_level", Some (0.0, 5.0));
    ("flange_count", Some (0, 10));
    ("flange_width", Some (0.0, 1.0));
    ("hue", Some (0.0, 1.0));
    ("saturation", Some (0.0, 2.0));
    ("value", Some (0.0, 2.0));
    ("bump_strength", Some (0.0, 5.0));
    ("disp_strength", Some (0.0, 1.0)) ]%string%R.

(** [rows_per_col = math.ceil(total / NUM_COLUMNS)], exact at the sizes
    of a form. *)
Definition rows_per_col (total ncols : Z) : Z :=
  ((total + ncols - 1) / ncols)%Z.

(** The grid cell of the label of parameter [idx], as [(row, column)];
    its input widget is one column to the right. *)
Definition label_cell (total ncols idx : Z) : Z * Z :=
  let col := (idx / rows_per_col total ncols)%Z in
  let row := (idx mod rows_per_col total ncols)%Z in
  (row, col * 2)%Z.

Definition widget_cell (total ncols idx : Z) : Z * Z :=
  let col := (idx / rows_per_col total ncols)%Z in
  let row := (idx mod rows_per_col total ncols)%Z in
  (row, col * 2 + 1)%Z.

(** The row of the Save and Help buttons. *)
Definition button_row (total ncols : Z) : Z :=
  (rows_per_col total ncols + 1)%Z.

(** What [save_json] ends with: the error dialog for an input that does
    not convert, the exception of [os.makedirs], which no handler
    catches and no dialog reports, the error dialog for a file that
    cannot be written, or the confirmation with the path written. *)
Inductive SaveOutcome : Type :=
| InvalidInput
| MakedirsRaised
| SaveError
| Saved (out_path : string).

(** A directory of parameter files, each path with the dictionary
    [json.load] reads from it. *)
Definition Files : Type := list (string * dict).

Fixpoint write_file (fs : Files) (path : string) (data : dict) : Files :=
  match fs with
  | [] => [(path, data)]
  | (path', d) :: fs' =>
      if (path' =? path)%string then (path, data) :: fs'
      else (path', d) :: write_file fs' path data
  end.

Fixpoint read_file (fs : Files) (path : string) : option dict :=
  match fs with
  | [] => None
  | (path', d) :: fs' =>
      if (path' =? path)%string then Some d else read_file fs' path
  end.

Section Editor.

(** [int(val)] and [float(val)] on the text of an entry; [None] is the
    [ValueError]. *)
Variable py_int : string -> option Z.
Variable py_float : string -> option R.

(** [str] of a number, for the file name. *)
Variable str_of_int : Z -> string.
Variable str_of_float : R -> string.

(** [os.path.join], [PARAM_DIR], whether
    [os.makedirs(dir, exist_ok=True)] succeeds, and whether
    [open(path, "w")] does; a write that fails after the file has been
    opened is not modelled. *)
Variable path_join : string -> string -> string.
Variable PARAM_DIR : string.
Variable makedirs_ok : string -> bool.
Variable writable : string -> bool.

(** [typ(val) if typ in (int, float) else val]. *)
Definition convert (t : PyType) (val : string) : option Value :=
  match t with
  | TInt => option_map VInt (py_int val)
  | TFloat => option_map VFloat (py_float val)
  | TStr => Some (VStr val)
  end.

(** The loop over [self.entries]: the text of each widget with the type
    of its parameter. *)
Fixpoint collect (entries : list (string * (string * PyType))) (data : dict)
  : option dict :=
  match entries with
  | [] => Some data
  | (k, (val, t)) :: rest =>
      match convert t val with
      | None => None
      | Some v => collect rest (dict_set data k v)
      end
  end.

Definition py_str (v : Value) : string :=
  match v with
  | VInt z => str_of_int z
  | VFloat r => str_of_float r
  | VStr s => s
  end.

Definition save_json (entries : list (string * (string * PyType)))
    (fs : Files) : SaveOutcome * Files :=
  match collect entries [] with
  | None => (InvalidInput, fs)
  | Some data =>
      if negb (makedirs_ok PARAM_DIR) then (MakedirsRaised, fs)
      else
        let stem :=
          match dict_get data "name" with
          | Some v => py_str v
          | None => "LogParameters"%string
          end in
        let filename := (stem ++ ".json")%string in
        let out_path := path_join PARAM_DIR filename in
        if writable out_path
        then (Saved out_path, write_file fs out_path data)
        else (SaveError, fs)
  end.

(** [self.entries] as [_build_ui] fills it: one entry per parameter of
    [PARAMS], [texts] giving what each widget holds. *)
Definition form_entries (texts : string -> string)
  : list (string * (string * PyType)) :=
  map (fun ps => (key ps, (texts (key ps), typ ps))) PARAMS.

End Editor.

(** * Vocabulary of the statements *)

(** ** The store and the meshes the loops are meant to leave *)

Definition push_verts (bm : BMesh) (vs : list Vector) : BMesh :=
  {| bm_verts := bm_verts bm ++ vs; bm_faces := bm_faces bm |}.

Definition push_faces (bm : BMesh) (fs : list (list nat)) : BMesh :=
  {| bm_verts := bm_verts bm; bm_faces := bm_faces bm ++ fs |}.

(** What the first ring needs to get through the outer body. *)
Definition axis_known (a : string) : bool :=
  ((a =? "X") || (a =? "Y") || (a =? "Z"))%string.

Definition taper_defined (p : Params) : Prop :=
  (taper_shape p =? "linear")%string = false ->
  (taper_shape p =? "exponential")%string = true ->
  (0 <= taper_rate p)%R.

Definition ellipse_defined (p : Params) : Prop :=
  (0 < oval_region_fraction p)%R -> ellipse_ratio p <> 0%R.

Definition frame_defined (p : Params) : Prop :=
  rings p <> 0%Z /\ taper_defined p /\ ellipse_defined p
  /\ axis_known (Py.upper (twist_direction p)) = true.

(** Handles of [k] consecutive rings of [n] vertices, the first created
    when the bmesh held [b] vertices. *)
Definition handle_blocks (b n k : nat) : list (list nat) :=
  map (fun r => seq (b + r * n) n) (seq 0 k).

Definition smooth_polygon (f : list nat) : Polygon :=
  {| poly_vertices := f; use_smooth := true |}.

Section TrunkSpec.

Variable noise : R -> R -> R -> R.
Variable p : Params.

(** The vertex and the frame the loops compute, where they compute
    one. *)
Definition vertex_of (f : RingFrame) (j : nat) : Vector :=
  match ring_vertex noise p f j with
  | Ok v => v
  | Err _ => (0, 0, 0)%R
  end.

Definition frame_of (i : nat) : RingFrame :=
  match ring_frame p i with
  | Ok f => f
  | Err _ =>
      {| rf_t := 0; rf_rx := 0; rf_ry := 0; rf_center := (0, 0, 0);
         rf_rot := ((0, 0, 0), (0, 0, 0), (0, 0, 0)) |}%R
  end.

(** Points of ring [i], in angular order. *)
Definition ring_points (i : nat) : list Vector :=
  map (vertex_of (frame_of i)) (Py.range (verts_per_ring p)).

Definition trunk_points : list Vector :=
  flat_map ring_points (Py.range (rings p + 1)).

(** The quad between ring [i] and ring [i+1] at angular index [j],
    over vertices created from handle [b] on. *)
Definition quad (b i j : nat) : list nat :=
  let n := Z.to_nat (verts_per_ring p) in
  [ b + i * n + j;
    b + i * n + next_index p j;
    b + (i + 1) * n + next_index p j;
    b + (i + 1) * n + j ]%nat.

Definition ring_quads (b i : nat) : list (list nat) :=
  map (quad b i) (Py.range (verts_per_ring p)).

Definition trunk_quads (b : nat) : list (list nat) :=
  flat_map (ring_quads b) (Py.range (rings p)).

Definition trunk_bmesh : BMesh :=
  {| bm_verts := trunk_points; bm_faces := trunk_quads 0 |}.

(** The records on which the ring loop runs to its end: no ring, or
    rings that can be computed. *)
Definition rings_defined : Prop :=
  (rings p < 0)%Z
  \/ ((1 <= rings p)%Z /\ frame_defined p
      /\ ((verts_per_ring p <= 0)%Z \/ groove_count p <> 0%Z)).

(** The records on which the two loops of [generate_proc_log] run to
    their end: no ring, or rings that can be computed and are either
    empty or of at least three vertices each. *)
Definition trunk_defined : Prop :=
  (rings p < 0)%Z
  \/ ((1 <= rings p)%Z /\ frame_defined p
      /\ ((verts_per_ring p <= 0)%Z
          \/ ((3 <= verts_per_ring p)%Z /\ groove_count p <> 0%Z))).

(** The records on which the trunk and the two caps of a turn of the
    main loop are built. *)
Definition turn_defined : Prop :=
  (1 <= rings p)%Z /\ frame_defined p
  /\ (3 <= verts_per_ring p)%Z /\ groove_count p <> 0%Z.

(** The trunk datablock, named [mn], once the main loop has set its
    material. *)
Definition bark_mesh (mn : string) : Mesh :=
  {| mesh_name := mn;
     vertices := trunk_points;
     polygons := map smooth_polygon (trunk_quads 0);
     materials := ["BarkImagePBR_" ++ name p]%string |}.

End TrunkSpec.

(** The mesh datablock of a finished trunk, named [mn]. *)
Definition trunk_mesh (noise : R -> R -> R -> R) (mn : string) (p : Params)
  : Mesh :=
  {| mesh_name := mn;
     vertices := trunk_points noise p;
     polygons := map smooth_polygon (trunk_quads p 0);
     materials := [] |}.

(** The scene after the prologue of [generate_proc_log] or [make_cap],
    the new mesh datablock holding [m]. *)
Definition scene_with (unique_name : list string -> string -> string)
    (nm : string) (location : Vector) (w : Scene) (m : Mesh) : Scene :=
  {| meshes := meshes w ++ [m];
     objects := objects w ++ [new_obj unique_name nm location w] |}.

(** Ring [i] of a vertex list laid out in rings of [n] vertices. *)
Definition ring_of (verts : list Vector) (n i : nat) : list Vector :=
  firstn n (skipn (i * n) verts).

(** The mesh datablock [make_cap] fills, named [mn]. *)
Definition cap_mesh (mn : string) (coords : list Vector) (material : string)
    (flip : bool) : Mesh :=
  let loop := seq 0 (List.length coords) in
  {| mesh_name := mn;
     vertices := coords;
     polygons := [{| poly_vertices := if flip then rev loop else loop;
                     use_smooth := false |}];
     materials := [material] |}.

(** The ranges of [PARAM_METADATA] in [params.py], for the keys the
    generator reads. *)
Definition documented_ranges (p : Params) : Prop :=
  (0.1 <= length p <= 20
   /\ 0.01 <= radius_start p <= 5
   /\ 0.01 <= radius_center p <= 5
   /\ 0.01 <= radius_end p <= 5
   /\ 0.1 <= taper_rate p <= 20
   /\ 0 <= curve_strength p <= 5
   /\ 0 <= twist_angle p <= 360
   /\ 0.1 <= ellipse_ratio p <= 5
   /\ 0 <= oval_region_fraction p <= 1
   /\ 0 <= eccentricity_offset p <= 2
   /\ 0 <= eccentricity_angle p <= 360
   /\ 0 <= groove_width p <= PI
   /\ 0 <= groove_depth p <= 1
   /\ 0 <= noise_scale p <= 10
   /\ 0 <= bark_roughness_depth p <= 1
   /\ 0 <= bark_roughness_level p <= 5
   /\ 0 <= flange_width p <= 1)%R
  /\ (3 <= rings p <= 200
      /\ 3 <= verts_per_ring p <= 512
      /\ 0 <= curve_count p <= 10
      /\ 0 <= groove_count p <= 20
      /\ 0 <= flange_count p <= 10)%Z.

(** The eccentric offset as the claim writes it, the cosine and sine
    taken of [eccentricity_angle] itself. *)
Definition offset_as_written (p : Params) : Vector :=
  (eccentricity_offset p * cos (eccentricity_angle p),
   eccentricity_offset p * sin (eccentricity_angle p),
   0)%R.

(** ** Well-formed meshes *)

(** Every face refers to vertices of the mesh. *)
Definition mesh_indices_valid (m : Mesh) : Prop :=
  forall poly, In poly (polygons m) ->
  forall v, In v (poly_vertices poly) ->
  (v < List.length (vertices m))%nat.

(** Two faces over the same set of vertices. *)
Definition same_vertices (f g : list nat) : Prop :=
  forall x, In x f <-> In x g.

(** ** The tables of the editor *)

(** The documented range of a key, where it has one. *)
Fixpoint range_of (meta : list (string * option (R * R))) (k : string)
  : option (R * R) :=
  match meta with
  | [] => None
  | (k', rng) :: meta' =>
      if (k' =? k)%string then rng else range_of meta' k
  end.

Definition number_of (v : Value) : option R :=
  match v with
  | VInt z => Some (IZR z)
  | VFloat r => Some r
  | VStr _ => None
  end.

(** A value lies in the documented range of its key (no condition where
    the key has none, or on a string). *)
Definition within_documented_range (k : string) (v : Value) : Prop :=
  match range_of PARAM_METADATA k, number_of v with
  | Some (lo, hi), Some x => (lo <= x <= hi)%R
  | _, _ => True
  end.

(** The default of a combobox is one of its choices, and every default
    has the type of its parameter. *)
Definition default_well_formed (ps : ParamSpec) : Prop :=
  match typ ps, default ps with
  | TInt, VInt _ => True
  | TFloat, VFloat _ => True
  | TStr, VStr s =>
      match choices ps with
      | Some cs => In s cs
      | None => True
      end
  | _, _ => False
  end.

(** The entry of a key in the form. *)
Fixpoint entry_of (entries : list (string * (string * PyType)))
    (k : string) : option (string * PyType) :=
  match entries with
  | [] => None
  | (k', e) :: rest =>
      if (k' =? k)%string then Some e else entry_of rest k
  end.

(** ** Coordinates and distances *)

Definition vx (v : Vector) : R := fst (fst v).

Definition vy (v : Vector) : R := snd (fst v).

Definition vz (v : Vector) : R := snd v.

Definition vsub (a b : Vector) : Vector :=
  (vx a - vx b, vy a - vy b, vz a - vz b)%R.

(** Squared length, and squared distance of two points. *)
Definition norm2 (v : Vector) : R := dot v v.

Definition dist2 (a b : Vector) : R := norm2 (vsub a b).

(** ** Sample records *)

(** A noise function for examples: the constant sample [c]. *)
Definition flat_noise (c : R) : R -> R -> R -> R := fun _ _ _ => c.

Definition empty_scene : Scene := {| meshes := []; objects := [] |}.

(** The defaults of the parameter editor ([PARAMS] in [params.py]). *)
Definition default_params : Params :=
  {| name := "Log";
     length := 5;
     radius_start := 0.5;
     radius_center := 0.45;
     radius_end := 0.4;
     rings := 30;
     verts_per_ring := 80;
     taper_shape := "quadratic";
     taper_rate := 8;
     curve_count := 0;
     curve_strength := 0.3;
     twist_angle := 0;
     twist_direction := "Z";
     ellipse_ratio := 1.1;
     oval_region_fraction := 0.8;
     eccentricity_offset := 0.5;
     eccentricity_angle := 0;
     groove_count := 2;
     groove_width := PI / 4;
     groove_depth := 0.02;
     noise_scale := 3;
     bark_roughness_depth := 0.1;
     bark_roughness_level := 1;
     flange_count := 3;
     flange_width := 0.05 |}%R.

(** The spec's end-to-end example [L1], the keys it leaves out taken
    from the editor's defaults: a cylinder without grooves. *)
Definition cylinder_params : Params :=
  {| name := "L1";
     length := 4;
     radius_start := 0.5;
     radius_center := 0.5;
     radius_end := 0.5;
     rings := 10;
     verts_per_ring := 8;
     taper_shape := "quadratic";
     taper_rate := 8;
     curve_count := 0;
     curve_strength := 0;
     twist_angle := 0;
     twist_direction := "Z";
     ellipse_ratio := 1;
     oval_region_fraction := 0.8;
     eccentricity_offset := 0;
     eccentricity_angle := 0;
     groove_count := 0;
     groove_width := PI / 4;
     groove_depth := 0.02;
     noise_scale := 0;
     bark_roughness_depth := 0.1;
     bark_roughness_level := 1;
     flange_count := 0;
     flange_width := 0.05 |}%R.


(** The editor's defaults with the eccentric offset turned by one
    degree. *)
Definition degree_params : Params :=
  {| name := "Log";
     length := 5;
     radius_start := 0.5;
     radius_center := 0.45;
     radius_end := 0.4;
     rings := 30;
     verts_per_ring := 80;
     taper_shape := "quadratic";
     taper_rate := 8;
     curve_count := 0;
     curve_strength := 0.3;
     twist_angle := 0;
     twist_direction := "Z";
     ellipse_ratio := 1.1;
     oval_region_fraction := 0.8;
     eccentricity_offset := 0.5;
     eccentricity_angle := 1;
     groove_count := 2;
     groove_width := PI / 4;
     groove_depth := 0.02;
     noise_scale := 3;
     bark_roughness_depth := 0.1;
     bark_roughness_level := 1;
     flange_count := 3;
     flange_width := 0.05 |}%R.

(** The editor's defaults with a 2:1 ellipse on unit radii, no flange,
    grooves of depth zero and a roughness amplitude of one half. *)
Definition oval_params : Params :=
  {| name := "Log";
     length := 5;
     radius_start := 1;
     radius_center := 1;
     radius_end := 1;
     rings := 30;
     verts_per_ring := 80;
     taper_shape := "quadratic";
     taper_rate := 8;
     curve_count := 0;
     curve_strength := 0.3;
     twist_angle := 0;
     twist_direction := "Z";
     ellipse_ratio := 2;
     oval_region_fraction := 0.8;
     eccentricity_offset := 0.5;
     eccentricity_angle := 0;
     groove_count := 2;
     groove_width := PI / 4;
     groove_depth := 0;
     noise_scale := 3;
     bark_roughness_depth := 0.5;
     bark_roughness_level := 1;
     flange_count := 0;
     flange_width := 0.05 |}%R.

(** A plain cylinder of four segments with [n] vertices per ring. *)
Definition small_params (n : Z) : Params :=
  {| name := "Log";
     length := 5;
     radius_start := 1;
     radius_center := 1;
     radius_end := 1;
     rings := 4;
     verts_per_ring := n;
     taper_shape := "linear";
     taper_rate := 1;
     curve_count := 0;
     curve_strength := 0;
     twist_angle := 0;
     twist_direction := "Z";
     ellipse_ratio := 1;
     oval_region_fraction := 0;
     eccentricity_offset := 0;
     eccentricity_angle := 0;
     groove_count := 1;
     groove_width := 0;
     groove_depth := 0;
     noise_scale := 0;
     bark_roughness_depth := 0;
     bark_roughness_level := 0;
     flange_count := 0;
     flange_width := 0 |}%R.

(** A record with another taper shape and rate, ellipse ratio and twist
    axis. *)
Definition set_frame (p : Params) (shape : string) (rate ratio : R)
    (axis : string) : Params :=
  {| name := name p;
     length := length p;
     radius_start := radius_start p;
     radius_center := radius_center p;
     radius_end := radius_end p;
     rings := rings p;
     verts_per_ring := verts_per_ring p;
     taper_shape := shape;
     taper_rate := rate;
     curve_count := curve_count p;
     curve_strength := curve_strength p;
     twist_angle := twist_angle p;
     twist_direction := axis;
     ellipse_ratio := ratio;
     oval_region_fraction := oval_region_fraction p;
     eccentricity_offset := eccentricity_offset p;
     eccentricity_angle := eccentricity_angle p;
     groove_count := groove_count p;
     groove_width := groove_width p;
     groove_depth := groove_depth p;
     noise_scale := noise_scale p;
     bark_roughness_depth := bark_roughness_depth p;
     bark_roughness_level := bark_roughness_level p;
     flange_count := flange_count p;
     flange_width := flange_width p |}.

(** Examples of what Blender decides: a name is kept when it is free
    and gets the suffix [.001] otherwise; every object gets selected. *)
Definition free_name (used : list string) (nm : string) : string :=
  if existsb (String.eqb nm) used then (nm ++ ".001")%string else nm.

Definition all_selectable : Object -> bool := fun _ => true.

(** Conversions for examples: [int] knows "30" and "80", [float] knows
    "5.0" and "100". *)
Definition sample_int (val : string) : option Z :=
  if (val =? "30")%string then Some 30%Z
  else if (val =? "80")%string then Some 80%Z
  else None.

Definition sample_float (val : string) : option R :=
  if (val =? "5.0")%string then Some 5%R
  else if (val =? "100")%string then Some 100%R
  else None.

(** A small form, and the same with a length that is no number. *)
Definition sample_entries : list (string * (string * PyType)) :=
  [("name", ("Log", TStr)); ("length", ("100", TFloat));
   ("rings", ("30", TInt))]%string.

Definition broken_entries : list (string * (string * PyType)) :=
  [("name", ("Log", TStr)); ("length", ("long", TFloat));
   ("rings", ("30", TInt))]%string.

(** A filled form: every whole number reads "30", every other number
    "5.0". *)
Definition sample_texts (k : string) : string :=
  if (k =? "name")%string then "Log"
  else if (k =? "texture")%string then "random"
  else if (k =? "taper_shape")%string then "linear"
  else if (k =? "twist_direction")%string then "Z"
  else if existsb (String.eqb k)
            ["rings"; "verts_per_ring"; "curve_count"; "groove_count";
             "flange_count"]%string
  then "30"
  else "5.0".

(** A record with other groove settings. *)
Definition set_grooves (p : Params) (count : Z) (width : R) : Params :=
  {| name := name p;
     length := length p;
     radius_start := radius_start p;
     radius_center := radius_center p;
     radius_end := radius_end p;
     rings := rings p;
     verts_per_ring := verts_per_ring p;
     taper_shape := taper_shape p;
     taper_rate := taper_rate p;
     curve_count := curve_count p;
     curve_strength := curve_strength p;
     twist_angle := twist_angle p;
     twist_direction := twist_direction p;
     ellipse_ratio := ellipse_ratio p;
     oval_region_fraction := oval_region_fraction p;
     eccentricity_offset := eccentricity_offset p;
     eccentricity_angle := eccentricity_angle p;
     groove_count := count;
     groove_width := width;
     groove_depth := groove_depth p;
     noise_scale := noise_scale p;
     bark_roughness_depth := bark_roughness_depth p;
     bark_roughness_level := bark_roughness_level p;
     flange_count := flange_count p;
     flange_width := flange_width p |}.

(** * Properties *)

(** ** The executable parts on small inputs *)

Example upper_lowercase_axis : Py.upper "z" = "Z"%string.
Proof. reflexivity. Qed.

Example slice_last_zero : Py.slice_from_neg [1; 2; 3]%nat 0 = [1; 2; 3]%nat.
Proof. reflexivity. Qed.

Example slice_last_two : Py.slice_from_neg [1; 2; 3]%nat 2 = [2; 3]%nat.
Proof. reflexivity. Qed.

(** With 30 segments and 3 flanges the step is 10: rings 0, 10, 20 and
    30 carry a flange, four of them. *)
Example flange_rings_default :
  filter (flange_test default_params) (Py.range 31) = [0; 10; 20; 30]%nat.
Proof. vm_compute. reflexivity. Qed.

(** The last quad of the first ring pair wraps around, 8 vertices per
    ring. *)
Example quad_wraps_around : quad cylinder_params 0 0 7 = [7; 0; 8; 15]%nat.
Proof. vm_compute. reflexivity. Qed.

(** ** The fallible operations *)

Lemma div_nonzero (x y : R) : y <> 0%R -> Py.div x y = Ok (x / y)%R.
Proof.
  intros Hy. unfold Py.div.
  destruct (Req_dec_T y 0) as [E | _]; [contradiction | reflexivity].
Qed.

Lemma div_by_zero (x : R) : Py.div x 0 = Err ZeroDivisionError.
Proof.
  unfold Py.div.
  destruct (Req_dec_T 0 0) as [_ | N]; [reflexivity | now elim N].
Qed.

Lemma fmod_nonzero (x y : R) :
  y <> 0%R -> Py.fmod x y = Ok (x - y * IZR (Int_part (x / y)))%R.
Proof.
  intros Hy. unfold Py.fmod.
  destruct (Req_dec_T y 0) as [E | _]; [contradiction | reflexivity].
Qed.

Lemma pow_nonneg_defined (x y : R) :
  (0 <= x)%R -> (0 < x \/ 0 <= y)%R -> exists r, Py.pow x y = Ok r.
Proof.
  intros Hx Hxy. unfold Py.pow.
  destruct (Rlt_dec 0 x) as [Hpos | Hnpos]; [eauto |].
  destruct (Req_dec_T x 0) as [Hz | Hnz]; [| lra].
  destruct (Rlt_dec 0 y) as [Hy | Hny]; [eauto |].
  destruct (Req_dec_T y 0) as [Hy0 | Hyn]; [eauto | lra].
Qed.

Lemma pow_zero_negative (y : R) :
  (y < 0)%R -> Py.pow 0 y = Err ZeroDivisionError.
Proof.
  intros Hy. unfold Py.pow.
  destruct (Rlt_dec 0 0) as [H | _]; [lra |].
  destruct (Req_dec_T 0 0) as [_ | N]; [| now elim N].
  destruct (Rlt_dec 0 y) as [H | _]; [lra |].
  destruct (Req_dec_T y 0) as [H | _]; [lra | reflexivity].
Qed.

Lemma index_seq (s n k : nat) :
  (k < n)%nat -> Py.index (seq s n) k = Ok (s + k)%nat.
Proof.
  intros Hk. unfold Py.index.
  rewrite (nth_error_nth' (seq s n) 0%nat) by (rewrite length_seq; exact Hk).
  now rewrite seq_nth.
Qed.

Lemma range_length (k : Z) : List.length (Py.range k) = Z.to_nat k.
Proof. unfold Py.range. apply length_seq. Qed.

Lemma in_range (k : Z) (i : nat) : In i (Py.range k) <-> (i < Z.to_nat k)%nat.
Proof. unfold Py.range. rewrite in_seq. lia. Qed.

Lemma range_nonpositive (k : Z) : (k <= 0)%Z -> Py.range k = [].
Proof.
  intros Hk. unfold Py.range.
  now replace (Z.to_nat k) with 0%nat by lia.
Qed.

(** ** The ring loops *)

Lemma push_verts_nil (bm : BMesh) : push_verts bm [] = bm.
Proof. destruct bm. unfold push_verts. simpl. now rewrite app_nil_r. Qed.

Lemma push_faces_nil (bm : BMesh) : push_faces bm [] = bm.
Proof. destruct bm. unfold push_faces. simpl. now rewrite app_nil_r. Qed.

Lemma push_verts_app (bm : BMesh) (us vs : list Vector) :
  push_verts (push_verts bm us) vs = push_verts bm (us ++ vs).
Proof. unfold push_verts. simpl. now rewrite app_assoc. Qed.

Lemma push_faces_app (bm : BMesh) (fs gs : list (list nat)) :
  push_faces (push_faces bm fs) gs = push_faces bm (fs ++ gs).
Proof. unfold push_faces. simpl. now rewrite app_assoc. Qed.

Section RingFacts.

Variable noise : R -> R -> R -> R.
Variable p : Params.

Local Open Scope R_scope.

(** Whether a vertex can be computed depends on the record alone: the
    two divisions of the inner body are by [verts_per_ring] and by
    [groove_count]. *)
Lemma ring_vertex_defined (f : RingFrame) (j : nat) :
  verts_per_ring p <> 0%Z -> groove_count p <> 0%Z ->
  exists v, ring_vertex noise p f j = Ok v.
Proof.
  intros Hn Hg. unfold ring_vertex, local_point, groove.
  rewrite div_nonzero by (now apply not_0_IZR). cbn [rbind].
  rewrite div_nonzero by (now apply not_0_IZR). cbn [rbind].
  rewrite fmod_nonzero.
  - cbn [rbind]. destruct (sample_radii _ _ _ _ _) as [r_x r_y].
    cbn [rbind]. eauto.
  - pose proof PI_RGT_0. apply not_0_IZR in Hg.
    unfold Rdiv. apply Rmult_integral_contrapositive_currified; [lra |].
    now apply Rinv_neq_0_compat.
Qed.

Lemma ring_vertex_groove_zero (f : RingFrame) (j : nat) :
  verts_per_ring p <> 0%Z -> groove_count p = 0%Z ->
  ring_vertex noise p f j = Err ZeroDivisionError.
Proof.
  intros Hn Hg. unfold ring_vertex, local_point, groove.
  rewrite div_nonzero by (now apply not_0_IZR). cbn [rbind].
  rewrite Hg. now rewrite div_by_zero.
Qed.

End RingFacts.

Section FrameFacts.

Variable p : Params.

Local Open Scope R_scope.

Lemma taper_total (t : R) :
  0 <= t -> taper_defined p -> exists r, taper p t = Ok r.
Proof.
  intros Ht Hd. unfold taper.
  destruct (taper_shape p =? "linear")%string eqn:El; [eauto |].
  destruct (taper_shape p =? "exponential")%string eqn:Ee; [| eauto].
  destruct (@pow_nonneg_defined t (taper_rate p) Ht) as [r Hr].
  - right. now apply Hd.
  - rewrite Hr. cbn [rbind]. eauto.
Qed.

Lemma taper_zero_defined (r : R) : taper p 0 = Ok r -> taper_defined p.
Proof.
  unfold taper, taper_defined. intros H El Ee. rewrite El, Ee in H.
  destruct (Rle_dec 0 (taper_rate p)) as [Hle | Hlt]; [exact Hle |].
  rewrite pow_zero_negative in H by lra. discriminate H.
Qed.

Lemma ellipse_total (t radius : R) :
  0 <= t -> ellipse_defined p -> exists rxy, ellipse p t radius = Ok rxy.
Proof.
  intros Ht Hd. unfold ellipse.
  destruct (Rlt_dec t (oval_region_fraction p)) as [Hlt | _]; [| eauto].
  rewrite div_nonzero by (apply Hd; lra). cbn [rbind]. eauto.
Qed.

Lemma ellipse_zero_defined (radius : R) (rxy : R * R) :
  ellipse p 0 radius = Ok rxy -> ellipse_defined p.
Proof.
  unfold ellipse, ellipse_defined. intros H Hpos E.
  destruct (Rlt_dec 0 (oval_region_fraction p)) as [_ | N]; [| contradiction].
  rewrite E, div_by_zero in H. discriminate H.
Qed.

Lemma rotation_known (angle : R) (a : string) :
  axis_known a = true -> exists m, Matrix_Rotation angle a = Ok m.
Proof.
  unfold axis_known, Matrix_Rotation. intros H.
  destruct (a =? "X")%string; [eauto |].
  destruct (a =? "Y")%string; [eauto |].
  destruct (a =? "Z")%string; [eauto | discriminate H].
Qed.

Lemma rotation_unknown (angle : R) (a : string) :
  axis_known a = false -> Matrix_Rotation angle a = Err ValueError.
Proof.
  unfold axis_known, Matrix_Rotation. intros H.
  destruct (a =? "X")%string; [discriminate H |].
  destruct (a =? "Y")%string; [discriminate H |].
  destruct (a =? "Z")%string; [discriminate H | reflexivity].
Qed.

Lemma position_nonneg (i : nat) :
  (1 <= rings p)%Z -> 0 <= INR i / IZR (rings p).
Proof.
  intros Hr. apply IZR_le in Hr. pose proof (pos_INR i).
  apply Rmult_le_pos; [assumption |].
  left. apply Rinv_0_lt_compat. lra.
Qed.

(** With at least one segment, a record that satisfies
    [frame_defined] gets every ring through the outer body. *)
Lemma ring_frame_total (i : nat) :
  (1 <= rings p)%Z -> frame_defined p -> exists f, ring_frame p i = Ok f.
Proof.
  intros Hr (Hnz & Ht & He & Ha).
  pose proof (position_nonneg i Hr) as Hpos.
  unfold ring_frame.
  rewrite div_nonzero by (now apply not_0_IZR). cbn [rbind].
  destruct (taper_total Hpos Ht) as [radius ->]. cbn [rbind].
  destruct (ellipse_total radius Hpos He) as [rxy ->]. cbn [rbind].
  destruct (flange p i rxy) as [rx ry].
  unfold twist.
  destruct (rotation_known
              (Py.radians (twist_angle p) * (INR i / IZR (rings p))) _ Ha)
    as [m ->].
  cbn [rbind]. eauto.
Qed.

(** Conversely the first ring already needs all of it. *)
Lemma ring_frame_zero_defined (f : RingFrame) :
  ring_frame p 0 = Ok f -> frame_defined p.
Proof.
  unfold ring_frame. intros H.
  destruct (Z.eq_dec (rings p) 0) as [E | Hnz].
  { rewrite E, div_by_zero in H. discriminate H. }
  rewrite div_nonzero in H by (now apply not_0_IZR). cbn [rbind] in H.
  replace (INR 0 / IZR (rings p)) with 0 in H
    by (simpl; unfold Rdiv; now rewrite Rmult_0_l).
  destruct (taper p 0) as [radius | e] eqn:Et; [| discriminate H].
  cbn [rbind] in H.
  destruct (ellipse p 0 radius) as [rxy | e] eqn:Ee; [| discriminate H].
  cbn [rbind] in H.
  destruct (flange p 0 rxy) as [rx ry].
  unfold twist in H.
  destruct (axis_known (Py.upper (twist_direction p))) eqn:Ea.
  - repeat split; eauto using taper_zero_defined, ellipse_zero_defined.
  - rewrite (rotation_unknown _ _ Ea) in H. discriminate H.
Qed.

End FrameFacts.

(** ** Lists cut into blocks of equal length *)

Lemma flat_map_length_blocks {A B} (g : A -> list B) (n : nat) (l : list A) :
  (forall x, In x l -> List.length (g x) = n) ->
  List.length (flat_map g l) = (List.length l * n)%nat.
Proof.
  induction l as [| x l IH]; intros Hg; cbn [flat_map List.length].
  - reflexivity.
  - rewrite length_app, Hg by (now left).
    rewrite IH by (intros y Hy; apply Hg; now right). lia.
Qed.

Lemma nth_error_flat_map_blocks {A B} (g : A -> list B) (n : nat)
    (l : list A) (i j : nat) (x : A) :
  (forall y, In y l -> List.length (g y) = n) ->
  nth_error l i = Some x -> (j < n)%nat ->
  nth_error (flat_map g l) (i * n + j) = nth_error (g x) j.
Proof.
  revert i. induction l as [| y l IH]; intros i Hg Hi Hj.
  - destruct i; discriminate Hi.
  - cbn [flat_map]. destruct i as [| i].
    + injection Hi as ->. cbn [Nat.mul Nat.add].
      apply nth_error_app1. rewrite Hg by (now left). exact Hj.
    + cbn [nth_error] in Hi.
      rewrite nth_error_app2 by (rewrite Hg by (now left); lia).
      rewrite Hg by (now left).
      replace (S i * n + j - n)%nat with (i * n + j)%nat by lia.
      apply IH; [intros z Hz; apply Hg; now right | exact Hi | exact Hj].
Qed.

Lemma nth_error_range (k : Z) (i : nat) :
  (i < Z.to_nat k)%nat -> nth_error (Py.range k) i = Some i.
Proof.
  intros Hi. unfold Py.range.
  rewrite (nth_error_nth' (seq 0 (Z.to_nat k)) 0%nat)
    by (now rewrite length_seq).
  now rewrite seq_nth.
Qed.

Lemma next_index_mod (p : Params) (j : nat) :
  (1 <= verts_per_ring p)%Z ->
  next_index p j = ((j + 1) mod Z.to_nat (verts_per_ring p))%nat.
Proof.
  intros Hn. unfold next_index. apply Nat2Z.inj.
  rewrite Nat2Z.inj_mod, Z2Nat.id.
  - rewrite Z2Nat.id by lia. f_equal. lia.
  - apply Z.mod_pos_bound. lia.
Qed.

Lemma flat_map_nil_blocks {A B} (g : A -> list B) (l : list A) :
  (forall x, In x l -> g x = []) -> flat_map g l = [].
Proof.
  induction l as [| x l IH]; intros Hg; cbn [flat_map]; [reflexivity |].
  rewrite Hg by (now left). cbn [app].
  apply IH. intros y Hy. apply Hg. now right.
Qed.

(** ** The quads of the face loop *)

Lemma in_quad (p : Params) (b i j x : nat) :
  In x (quad p b i j) <->
  x = (b + i * Z.to_nat (verts_per_ring p) + j)%nat
  \/ x = (b + i * Z.to_nat (verts_per_ring p) + next_index p j)%nat
  \/ x = (b + (i + 1) * Z.to_nat (verts_per_ring p) + next_index p j)%nat
  \/ x = (b + (i + 1) * Z.to_nat (verts_per_ring p) + j)%nat.
Proof. unfold quad. cbn [In]. intuition congruence. Qed.

Lemma in_trunk_quads (p : Params) (b : nat) (q : list nat) :
  In q (trunk_quads p b) ->
  exists i j,
    (i < Z.to_nat (rings p))%nat /\ (j < Z.to_nat (verts_per_ring p))%nat
    /\ q = quad p b i j.
Proof.
  unfold trunk_quads, ring_quads. intros H.
  apply in_flat_map in H. destruct H as (i & Hi & H).
  apply in_map_iff in H. destruct H as (j & <- & Hj).
  apply in_range in Hi. apply in_range in Hj. eauto.
Qed.

Lemma next_index_cases (p : Params) (j : nat) :
  (j < Z.to_nat (verts_per_ring p))%nat ->
  (next_index p j = j + 1
   /\ j + 1 < Z.to_nat (verts_per_ring p))%nat
  \/ (next_index p j = 0 /\ j + 1 = Z.to_nat (verts_per_ring p))%nat.
Proof.
  intros Hj. rewrite next_index_mod by lia.
  set (n := Z.to_nat (verts_per_ring p)) in *.
  destruct (Nat.eq_dec (j + 1) n) as [E | N].
  - right. split; [| exact E]. rewrite E. apply Nat.Div0.mod_same.
  - left. split; [apply Nat.mod_small |]; lia.
Qed.

Lemma block_unique (n a b x y : nat) :
  (x < n)%nat -> (y < n)%nat -> (a * n + x = b * n + y)%nat ->
  a = b /\ x = y.
Proof.
  intros Hx Hy H.
  destruct (lt_eq_lt_dec a b) as [[Hlt | ->] | Hgt]; [nia | lia | nia].
Qed.

Lemma quad_nodup (p : Params) (i j : nat) :
  (2 <= verts_per_ring p)%Z -> (j < Z.to_nat (verts_per_ring p))%nat ->
  NoDup (quad p 0 i j).
Proof.
  intros Hn Hj. pose proof (@next_index_cases p j Hj) as Hc.
  unfold quad. set (n := Z.to_nat (verts_per_ring p)) in *.
  set (k := next_index p j) in *.
  assert (Hn2 : (2 <= n)%nat) by (unfold n; lia).
  repeat constructor; cbn [In]; nia.
Qed.

Lemma quad_same_vertices (p : Params) (i j i' j' : nat) :
  (3 <= verts_per_ring p)%Z ->
  (j < Z.to_nat (verts_per_ring p))%nat ->
  (j' < Z.to_nat (verts_per_ring p))%nat ->
  same_vertices (quad p 0 i j) (quad p 0 i' j') ->
  i = i' /\ j = j'.
Proof.
  intros Hn Hj Hj' Hsame.
  pose proof (@next_index_cases p j Hj) as Hc.
  pose proof (@next_index_cases p j' Hj') as Hc'.
  assert (H1 := proj1 (Hsame _) (proj2 (in_quad p 0 i j _)
                                   (or_introl eq_refl))).
  assert (H2 := proj1 (Hsame _) (proj2 (in_quad p 0 i j _)
                                   (or_intror (or_introl eq_refl)))).
  assert (H3 := proj2 (Hsame _) (proj2 (in_quad p 0 i' j' _)
                                   (or_introl eq_refl))).
  assert (H4 := proj1 (Hsame _) (proj2 (in_quad p 0 i j _)
                                   (or_intror (or_intror (or_intror eq_refl))))).
  apply in_quad in H1, H2, H3, H4.
  set (n := Z.to_nat (verts_per_ring p)) in *.
  set (k := next_index p j) in *. set (k' := next_index p j') in *.
  assert (Hn3 : (3 <= n)%nat) by (unfold n; lia).
  assert (Hk : (k < n)%nat) by lia.
  assert (Hk' : (k' < n)%nat) by lia.
  cbn [Nat.add] in H1, H2, H3, H4.
  assert (Hi : i = i').
  { destruct H1 as [H1 | [H1 | [H1 | H1]]];
      destruct H3 as [H3 | [H3 | [H3 | H3]]];
      try (apply block_unique in H1; [| lia | lia]);
      try (apply block_unique in H3; [| lia | lia]); lia. }
  subst i'.
  split; [reflexivity |].
  assert (Hj1 : j = j' \/ j = k').
  { destruct H1 as [H1 | [H1 | [H1 | H1]]];
      apply block_unique in H1; lia. }
  assert (Hj2 : k = j' \/ k = k').
  { destruct H2 as [H2 | [H2 | [H2 | H2]]];
      apply block_unique in H2; lia. }
  lia.
Qed.

(** ** What the loops leave in the bmesh *)

Lemma handle_blocks_S (b n k : nat) :
  handle_blocks b n (S k) = seq b n :: handle_blocks (b + n) n k.
Proof.
  unfold handle_blocks. cbn [seq map].
  rewrite Nat.add_0_r. f_equal.
  rewrite <- seq_shift, map_map.
  apply map_ext. intros r. f_equal. lia.
Qed.

Lemma handle_blocks_index (b n k i : nat) :
  (i < k)%nat -> Py.index (handle_blocks b n k) i = Ok (seq (b + i * n) n).
Proof.
  intros Hi. unfold Py.index, handle_blocks.
  rewrite nth_error_map.
  rewrite (nth_error_nth' (seq 0 k) 0%nat) by (now rewrite length_seq).
  now rewrite seq_nth.
Qed.

Lemma flat_map_singleton {A B} (g : A -> B) (l : list A) :
  flat_map (fun x => [g x]) l = map g l.
Proof. induction l as [| x l IH]; cbn; [reflexivity | now rewrite IH]. Qed.

(** ** Faces that Blender accepts *)

Lemma has_repeat_nodup (l : list nat) : NoDup l -> has_repeat l = false.
Proof.
  induction 1 as [| x l Hx _ IH]; cbn [has_repeat]; [reflexivity |].
  rewrite IH, orb_false_r.
  apply not_true_is_false. intros H. apply existsb_exists in H.
  destruct H as (y & Hy & E). apply Nat.eqb_eq in E. subst y. contradiction.
Qed.

Lemma same_face_vertices (loop f : list nat) :
  NoDup f -> same_face loop f = true -> same_vertices loop f.
Proof.
  unfold same_face. intros Hf H.
  apply andb_true_iff in H. destruct H as [Hlen Hin].
  apply Nat.eqb_eq in Hlen.
  assert (Hincl : incl f loop).
  { intros x Hx. rewrite forallb_forall in Hin. specialize (Hin x Hx).
    apply existsb_exists in Hin. destruct Hin as (y & Hy & E).
    apply Nat.eqb_eq in E. now subst. }
  intros x. split; [| apply Hincl].
  apply (NoDup_length_incl Hf); [lia | exact Hincl].
Qed.

(** A face of at least three different vertices, over other vertices
    than every face that exists, is accepted. *)
Lemma faces_new_ok (loop : list nat) (bm : BMesh) :
  (3 <= List.length loop)%nat -> NoDup loop ->
  (forall f, In f (bm_faces bm) -> NoDup f /\ ~ same_vertices loop f) ->
  faces_new loop bm = (Ok tt, push_faces bm [loop]).
Proof.
  intros Hlen Hnd Hnew. unfold faces_new.
  destruct (List.length loop <? 3)%nat eqn:E;
    [apply Nat.ltb_lt in E; lia |].
  rewrite has_repeat_nodup by exact Hnd.
  destruct (existsb (same_face loop) (bm_faces bm)) eqn:Ex; [| reflexivity].
  apply existsb_exists in Ex. destruct Ex as (f & Hf & Hs).
  destruct (Hnew f Hf) as [Hfd Hdiff]. exfalso. apply Hdiff.
  now apply same_face_vertices.
Qed.

Lemma seq_split_from (s k x : nat) (l1 l2 : list nat) :
  seq s k = l1 ++ x :: l2 ->
  l1 = seq s (List.length l1) /\ x = (s + List.length l1)%nat
  /\ (List.length l1 < k)%nat.
Proof.
  revert s k. induction l1 as [| y l1 IH]; intros s k H.
  - destruct k as [| k]; [discriminate H |].
    cbn [seq app] in H. injection H as <- _.
    cbn [List.length seq]. repeat split; lia.
  - destruct k as [| k]; [discriminate H |].
    cbn [seq app] in H. injection H as <- H.
    destruct (IH (S s) k H) as (Hl & Hx & Hk).
    cbn [List.length seq]. rewrite <- Hl.
    repeat split; lia.
Qed.

Lemma seq_split (k x : nat) (l1 l2 : list nat) :
  seq 0 k = l1 ++ x :: l2 -> l1 = seq 0 x /\ (x < k)%nat.
Proof.
  intros H. destruct (@seq_split_from 0 k x l1 l2 H) as (Hl & Hx & Hk).
  cbn [Nat.add] in Hx. subst x. split; [exact Hl | exact Hk].
Qed.

(** A loop whose body adds the faces [g x] in turn [x], in the store the
    earlier turns have left. *)
Lemma for_each_faces_seq {A} (l : list A) (body : unit -> A -> M unit)
    (g : A -> list (list nat)) :
  forall bm,
    (forall l1 x l2, l = l1 ++ x :: l2 ->
       body tt x (push_faces bm (flat_map g l1))
       = (Ok tt, push_faces (push_faces bm (flat_map g l1)) (g x))) ->
    for_each l body tt bm = (Ok tt, push_faces bm (flat_map g l)).
Proof.
  induction l as [| x l IH]; intros bm Hb; cbn [for_each flat_map].
  - unfold ret. now rewrite push_faces_nil.
  - unfold bind.
    pose proof (Hb [] x l eq_refl) as Hx. cbn [flat_map] in Hx.
    rewrite push_faces_nil in Hx. rewrite Hx.
    rewrite IH.
    + now rewrite push_faces_app.
    + intros l1 y l2 ->.
      rewrite push_faces_app.
      exact (Hb (x :: l1) y l2 eq_refl).
Qed.

Section LoopFacts.

Variable noise : R -> R -> R -> R.
Variable p : Params.

Let n : nat := Z.to_nat (verts_per_ring p).

Lemma build_ring_step (f : RingFrame) (js : list nat) :
  (forall j, In j js -> exists v, ring_vertex noise p f j = Ok v) ->
  forall ring bm,
    for_each js
      (fun ring j =>
         bind (lift (ring_vertex noise p f j))
           (fun co => bind (verts_new co) (fun v => ret (ring ++ [v]))))
      ring bm
    = (Ok (ring ++ seq (List.length (bm_verts bm)) (List.length js)),
       push_verts bm (map (vertex_of noise p f) js)).
Proof.
  induction js as [| j js IH]; intros Hok ring bm; cbn [for_each map].
  - unfold ret. cbn. now rewrite app_nil_r, push_verts_nil.
  - destruct (Hok j (or_introl eq_refl)) as [v Hv].
    unfold bind at 1. unfold bind at 1. unfold lift at 1. rewrite Hv.
    unfold bind at 1. unfold verts_new at 1. unfold ret at 1.
    rewrite IH by (intros j' Hj'; apply Hok; now right).
    cbn [bm_verts bm_faces]. unfold vertex_of at 2. rewrite Hv.
    rewrite length_app. cbn [List.length seq].
    rewrite <- app_assoc. cbn [app].
    replace (List.length (bm_verts bm) + 1)%nat
      with (S (List.length (bm_verts bm))) by lia.
    f_equal. unfold push_verts. cbn [bm_verts bm_faces].
    now rewrite <- app_assoc.
Qed.

Lemma build_ring_ok (f : RingFrame) (bm : BMesh) :
  ((verts_per_ring p <= 0)%Z \/ groove_count p <> 0%Z) ->
  build_ring noise p f bm
  = (Ok (seq (List.length (bm_verts bm)) n),
     push_verts bm (map (vertex_of noise p f) (Py.range (verts_per_ring p)))).
Proof.
  intros Hd. unfold build_ring.
  rewrite build_ring_step.
  - now rewrite range_length.
  - intros j Hj. apply in_range in Hj.
    apply ring_vertex_defined; lia.
Qed.

Lemma build_ring_groove_zero (f : RingFrame) (bm : BMesh) :
  (1 <= verts_per_ring p)%Z -> groove_count p = 0%Z ->
  build_ring noise p f bm = (Err ZeroDivisionError, bm).
Proof.
  intros Hn Hg. unfold build_ring, Py.range.
  destruct (Z.to_nat (verts_per_ring p)) as [| m] eqn:E; [lia |].
  cbn [seq for_each]. unfold bind at 1. unfold bind at 1. unfold lift at 1.
  rewrite ring_vertex_groove_zero by (lia || assumption).
  reflexivity.
Qed.

End LoopFacts.

Section TrunkFacts.

Variable noise : R -> R -> R -> R.
Variable p : Params.

Let n : nat := Z.to_nat (verts_per_ring p).

Lemma ring_points_length (i : nat) :
  List.length (ring_points noise p i) = n.
Proof. unfold ring_points. now rewrite length_map, range_length. Qed.

Lemma build_rings_step (is_ : list nat) :
  (forall i, In i is_ -> exists f, ring_frame p i = Ok f) ->
  (is_ <> [] -> (verts_per_ring p <= 0)%Z \/ groove_count p <> 0%Z) ->
  forall acc bm,
    for_each is_
      (fun rings_verts i =>
         bind (lift (ring_frame p i))
           (fun f => bind (build_ring noise p f)
                       (fun ring => ret (rings_verts ++ [ring]))))
      acc bm
    = (Ok (acc ++ handle_blocks (List.length (bm_verts bm)) n
                    (List.length is_)),
       push_verts bm (flat_map (ring_points noise p) is_)).
Proof.
  intros Hf Hv. induction is_ as [| i is_ IH]; intros acc bm;
    cbn [for_each flat_map].
  - unfold ret. cbn. now rewrite app_nil_r, push_verts_nil.
  - destruct (Hf i (or_introl eq_refl)) as [f Hfi].
    unfold bind at 1. unfold bind at 1. unfold lift at 1. rewrite Hfi.
    unfold bind at 1. rewrite build_ring_ok by (apply Hv; discriminate).
    unfold ret at 1.
    rewrite IH
      by ((intros i' Hi'; apply Hf; now right)
          || (intros _; apply Hv; discriminate)).
    cbn [List.length]. rewrite handle_blocks_S.
    rewrite <- app_assoc. cbn [app].
    unfold ring_points at 2, frame_of. rewrite Hfi.
    rewrite push_verts_app.
    unfold push_verts at 1. cbn [bm_verts].
    rewrite length_app, length_map, range_length.
    reflexivity.
Qed.

Lemma next_index_lt (j : nat) :
  (1 <= verts_per_ring p)%Z -> (next_index p j < n)%nat.
Proof.
  intros Hn. unfold next_index, n.
  pose proof (Z.mod_pos_bound (Z.of_nat j + 1) (verts_per_ring p)).
  lia.
Qed.

(** The face loop over the handles of the ring loop, on rings that are
    empty or of three vertices and more: every quad is accepted. *)
Lemma connect_rings_ok (bm : BMesh) :
  (verts_per_ring p <= 0)%Z \/ (3 <= verts_per_ring p)%Z ->
  bm_faces bm = [] ->
  connect_rings p (handle_blocks 0 n (Z.to_nat (rings p + 1))) bm
  = (Ok tt, push_faces bm (trunk_quads p 0)).
Proof.
  intros Hn Hempty. unfold connect_rings, trunk_quads.
  apply for_each_faces_seq. intros l1 i l2 Hsplit.
  apply seq_split in Hsplit. destruct Hsplit as [-> Hi].
  unfold bind at 1. unfold lift at 1.
  rewrite handle_blocks_index by lia.
  unfold bind at 1. unfold lift at 1.
  rewrite handle_blocks_index by lia.
  change (ring_quads p 0 i)
    with (map (quad p 0 i) (Py.range (verts_per_ring p))).
  rewrite <- flat_map_singleton.
  apply for_each_faces_seq. intros l1 j l2' Hsplit.
  apply seq_split in Hsplit. destruct Hsplit as [-> Hj].
  fold n in Hj.
  assert (Hn3 : (3 <= verts_per_ring p)%Z) by (unfold n in Hj; lia).
  assert (Hn1 : (1 <= verts_per_ring p)%Z) by lia.
  pose proof (next_index_lt j Hn1) as Hnext.
  repeat (unfold bind at 1; unfold lift at 1;
          rewrite index_seq by (exact Hnext || exact Hj)).
  change (faces_new (quad p 0 i j)
            (push_faces (push_faces bm (flat_map (ring_quads p 0) (seq 0 i)))
               (flat_map (fun x => [quad p 0 i x]) (seq 0 j)))
          = (Ok tt,
             push_faces
               (push_faces
                  (push_faces bm (flat_map (ring_quads p 0) (seq 0 i)))
                  (flat_map (fun x => [quad p 0 i x]) (seq 0 j)))
               [quad p 0 i j])).
  apply faces_new_ok.
  - unfold quad. cbn [List.length]. lia.
  - apply quad_nodup; [lia | exact Hj].
  - cbn [push_faces bm_faces]. rewrite Hempty. cbn [app].
    intros f Hf. apply in_app_or in Hf.
    assert (Hold : exists i' j',
              (j' < n)%nat /\ (i' < i \/ (i' = i /\ j' < j))%nat
              /\ f = quad p 0 i' j').
    { destruct Hf as [Hf | Hf].
      - apply in_flat_map in Hf. destruct Hf as (i' & Hi' & Hf).
        apply in_seq in Hi'. unfold ring_quads in Hf.
        apply in_map_iff in Hf. destruct Hf as (j' & <- & Hj').
        apply in_range in Hj'. exists i', j'. fold n in Hj'.
        split; [exact Hj' |]. split; [lia | reflexivity].
      - apply in_flat_map in Hf. destruct Hf as (j' & Hj' & Hf).
        apply in_seq in Hj'. destruct Hf as [<- | []].
        exists i, j'. split; [lia |]. split; [lia | reflexivity]. }
    destruct Hold as (i' & j' & Hj' & Hlt & ->).
    split; [apply quad_nodup; [lia | exact Hj'] |].
    intros Hsame.
    destruct (@quad_same_vertices p i j i' j' Hn3 Hj Hj' Hsame). lia.
Qed.

(** With one vertex per ring the first quad names its vertices twice. *)
Lemma connect_rings_one (bm : BMesh) :
  (1 <= rings p)%Z -> verts_per_ring p = 1%Z ->
  connect_rings p (handle_blocks 0 n (Z.to_nat (rings p + 1))) bm
  = (Err ValueError, bm).
Proof.
  intros Hr Hn. unfold connect_rings, Py.range.
  destruct (Z.to_nat (rings p)) as [| k] eqn:Ek; [lia |].
  cbn [seq for_each].
  unfold bind at 1. unfold bind at 1. unfold lift at 1.
  rewrite handle_blocks_index by lia.
  unfold bind at 1. unfold lift at 1.
  rewrite handle_blocks_index by lia.
  unfold n, next_index. rewrite Hn. reflexivity.
Qed.

(** With two, the second quad is over the vertices of the first. *)
Lemma connect_rings_two (bm : BMesh) :
  (1 <= rings p)%Z -> verts_per_ring p = 2%Z -> bm_faces bm = [] ->
  connect_rings p (handle_blocks 0 n (Z.to_nat (rings p + 1))) bm
  = (Err ValueError, push_faces bm [[0; 1; 3; 2]%nat]).
Proof.
  intros Hr Hn Hempty. unfold connect_rings, Py.range.
  destruct (Z.to_nat (rings p)) as [| k] eqn:Ek; [lia |].
  cbn [seq for_each].
  unfold bind at 1. unfold bind at 1. unfold lift at 1.
  rewrite handle_blocks_index by lia.
  unfold bind at 1. unfold lift at 1.
  rewrite handle_blocks_index by lia.
  unfold n, next_index. rewrite Hn.
  destruct bm as [vs fs]. cbn [bm_faces] in Hempty. subst fs. reflexivity.
Qed.

(** On a record of [rings_defined] the ring loop runs to its end. *)
Lemma build_rings_ok :
  rings_defined p ->
  build_rings noise p bmesh_new
  = (Ok (handle_blocks 0 n (Z.to_nat (rings p + 1))),
     push_verts bmesh_new (trunk_points noise p)).
Proof.
  intros Hd. unfold build_rings.
  rewrite build_rings_step.
  - now rewrite range_length.
  - intros i Hi. apply in_range in Hi.
    destruct Hd as [Hneg | (Hr & Hfd & _)]; [lia |].
    now apply ring_frame_total.
  - intros Hne. destruct Hd as [Hneg | (_ & _ & Hv)]; [| exact Hv].
    exfalso. apply Hne. unfold Py.range.
    now replace (Z.to_nat (rings p + 1)) with 0%nat by lia.
Qed.

Lemma trunk_rings_defined : trunk_defined p -> rings_defined p.
Proof.
  intros [Hneg | (Hr & Hfd & Hv)]; [now left | right].
  split; [exact Hr |]. split; [exact Hfd |]. tauto.
Qed.

(** On a record of [trunk_defined] both loops run to their end and
    leave exactly [trunk_bmesh]. *)
Lemma build_trunk_ok :
  trunk_defined p ->
  build_trunk noise p bmesh_new = (Ok tt, trunk_bmesh noise p).
Proof.
  intros Hd. unfold build_trunk, bind.
  rewrite (build_rings_ok (trunk_rings_defined Hd)).
  destruct Hd as [Hneg | (Hr & Hfd & Hv)].
  - unfold connect_rings, trunk_bmesh, trunk_quads.
    rewrite (@range_nonpositive (rings p)) by lia. reflexivity.
  - rewrite connect_rings_ok; [reflexivity | tauto | reflexivity].
Qed.

(** With one or two vertices per ring the ring loop creates every
    vertex and the face loop raises: at its first quad, or at its second
    with the first one built. *)
Lemma build_trunk_few :
  (1 <= rings p)%Z -> frame_defined p -> groove_count p <> 0%Z ->
  (verts_per_ring p = 1%Z \/ verts_per_ring p = 2%Z) ->
  build_trunk noise p bmesh_new
  = (Err ValueError,
     {| bm_verts := trunk_points noise p;
        bm_faces :=
          if (verts_per_ring p =? 1)%Z then [] else [[0; 1; 3; 2]%nat] |}).
Proof.
  intros Hr Hfd Hg Hn. unfold build_trunk, bind.
  assert (Hd : rings_defined p) by (right; tauto).
  rewrite (build_rings_ok Hd).
  destruct Hn as [Hn | Hn]; rewrite Hn; cbn [Z.eqb Pos.eqb].
  - rewrite connect_rings_one by assumption. reflexivity.
  - rewrite connect_rings_two by (assumption || reflexivity). reflexivity.
Qed.

End TrunkFacts.

Lemma update_at_last {A} (f : A -> A) (l : list A) (x : A) :
  update_at (List.length l) f (l ++ [x]) = l ++ [f x].
Proof. induction l as [| y l IH]; cbn; [reflexivity | now rewrite IH]. Qed.

Section GenerateFacts.

Variable noise : R -> R -> R -> R.
Variable unique_name : list string -> string -> string.
Variable p : Params.

(** The ring loop stops at the groove division of the first vertex
    when [groove_count] is zero. *)
Lemma build_rings_groove_zero :
  (1 <= rings p)%Z -> frame_defined p ->
  (1 <= verts_per_ring p)%Z -> groove_count p = 0%Z ->
  build_rings noise p bmesh_new = (Err ZeroDivisionError, bmesh_new).
Proof.
  intros Hr Hfd Hn Hg.
  unfold build_rings, Py.range.
  replace (Z.to_nat (rings p + 1)) with (S (Z.to_nat (rings p))) by lia.
  cbn [seq for_each].
  unfold bind at 1. unfold bind at 1. unfold lift at 1.
  destruct (ring_frame_total 0 Hr Hfd) as [f ->].
  unfold bind at 1. now rewrite build_ring_groove_zero by assumption.
Qed.

(** Outside [rings_defined] the first exception is raised while ring 0
    is computed, before [bm.verts.new] has been called once. *)
Lemma build_rings_err :
  ~ rings_defined p ->
  exists e, build_rings noise p bmesh_new = (Err e, bmesh_new).
Proof.
  intros Hnd.
  assert (Hr : (0 <= rings p)%Z).
  { destruct (Z_lt_le_dec (rings p) 0) as [Hneg | Hle]; [| exact Hle].
    exfalso. apply Hnd. now left. }
  destruct (ring_frame p 0) as [f | e] eqn:E0.
  - pose proof (ring_frame_zero_defined p E0) as Hfd.
    assert (Hr1 : (1 <= rings p)%Z) by (destruct Hfd as [Hnz _]; lia).
    exists ZeroDivisionError.
    destruct (Z_le_gt_dec (verts_per_ring p) 0) as [Hle | Hgt].
    { exfalso. apply Hnd. right. tauto. }
    destruct (Z.eq_dec (groove_count p) 0) as [Hz | Hnz].
    + apply build_rings_groove_zero; (assumption || lia).
    + exfalso. apply Hnd. right. tauto.
  - exists e. unfold build_rings, Py.range.
    replace (Z.to_nat (rings p + 1)) with (S (Z.to_nat (rings p))) by lia.
    cbn [seq for_each].
    unfold bind at 1. unfold bind at 1. unfold lift at 1.
    now rewrite E0.
Qed.

(** A record of [rings_defined] that is not of [trunk_defined] has one
    or two vertices per ring. *)
Lemma rings_defined_few :
  rings_defined p -> ~ trunk_defined p ->
  (1 <= rings p)%Z /\ frame_defined p /\ groove_count p <> 0%Z
  /\ (verts_per_ring p = 1%Z \/ verts_per_ring p = 2%Z).
Proof.
  intros [Hneg | (Hr & Hfd & Hv)] Hnd.
  - exfalso. apply Hnd. now left.
  - destruct (Z_le_gt_dec (verts_per_ring p) 0) as [Hle | Hgt].
    { exfalso. apply Hnd. right. tauto. }
    destruct Hv as [Hv | Hg]; [lia |].
    destruct (Z_le_gt_dec 3 (verts_per_ring p)) as [H3 | H3].
    { exfalso. apply Hnd. right. tauto. }
    split; [exact Hr |]. split; [exact Hfd |]. split; [exact Hg | lia].
Qed.

Lemma build_trunk_err :
  ~ trunk_defined p ->
  exists e bm, build_trunk noise p bmesh_new = (Err e, bm).
Proof.
  intros Hnd.
  destruct (classic (rings_defined p)) as [Hrd | Hnrd].
  - destruct (rings_defined_few Hrd Hnd) as (Hr & Hfd & Hg & Hn).
    rewrite (build_trunk_few noise Hr Hfd Hg Hn). eauto.
  - destruct (build_rings_err Hnrd) as [e He].
    exists e, bmesh_new. unfold build_trunk, bind. now rewrite He.
Qed.

Lemma generate_proc_log_ok (nm : string) (location : Vector) (w : Scene) :
  trunk_defined p ->
  generate_proc_log noise unique_name nm p location w
  = (Ok (new_obj unique_name nm location w),
     scene_with unique_name nm location w
       (trunk_mesh noise (new_mesh_name unique_name nm w) p)).
Proof.
  intros Hd. unfold generate_proc_log, new_object, scene_with.
  rewrite (build_trunk_ok noise Hd).
  unfold update_mesh. cbn [meshes objects obj_data new_obj].
  rewrite !update_at_last.
  unfold trunk_mesh, shade_smooth, to_mesh, trunk_bmesh, empty_mesh.
  cbn [mesh_name vertices polygons materials bm_verts bm_faces].
  rewrite map_map. reflexivity.
Qed.


Lemma generate_proc_log_err (nm : string) (location : Vector) (w : Scene) :
  ~ trunk_defined p ->
  exists e,
    generate_proc_log noise unique_name nm p location w
    = (Err e,
       scene_with unique_name nm location w
         (empty_mesh (new_mesh_name unique_name nm w))).
Proof.
  intros Hnd. destruct (build_trunk_err Hnd) as (e & bm & He).
  exists e. unfold generate_proc_log, new_object, scene_with.
  now rewrite He.
Qed.

(** Whenever [generate_proc_log] returns, the object it returns holds
    [trunk_mesh]. *)
Lemma generate_proc_log_returns (nm : string) (location : Vector)
    (w w' : Scene) (obj : Object) :
  generate_proc_log noise unique_name nm p location w = (Ok obj, w') ->
  trunk_defined p
  /\ obj_mesh w' obj = trunk_mesh noise (new_mesh_name unique_name nm w) p.
Proof.
  intros H.
  assert (Hd : trunk_defined p).
  { apply NNPP. intros Hnd.
    destruct (generate_proc_log_err nm location w Hnd) as [e He].
    rewrite He in H. discriminate H. }
  split; [exact Hd |].
  rewrite (generate_proc_log_ok nm location w Hd) in H.
  injection H as <- <-.
  unfold obj_mesh, scene_with. cbn [obj_data meshes new_obj].
  now rewrite nth_middle.
Qed.

End GenerateFacts.

Section MeshFacts.

Variable noise : R -> R -> R -> R.
Variable p : Params.

Let n : nat := Z.to_nat (verts_per_ring p).

Lemma trunk_points_length :
  List.length (trunk_points noise p) = (Z.to_nat (rings p + 1) * n)%nat.
Proof.
  unfold trunk_points.
  rewrite (@flat_map_length_blocks _ _ _ n).
  - now rewrite range_length.
  - intros i _. apply ring_points_length.
Qed.

Lemma trunk_quads_length (b : nat) :
  List.length (trunk_quads p b) = (Z.to_nat (rings p) * n)%nat.
Proof.
  unfold trunk_quads.
  rewrite (@flat_map_length_blocks _ _ _ n).
  - now rewrite range_length.
  - intros i _. unfold ring_quads. now rewrite length_map, range_length.
Qed.

(** Handle [i * n + j] is sample [j] of ring [i]. *)
Lemma trunk_points_nth (i j : nat) :
  (i < Z.to_nat (rings p + 1))%nat -> (j < n)%nat ->
  nth_error (trunk_points noise p) (i * n + j)
  = Some (vertex_of noise p (frame_of p i) j).
Proof.
  intros Hi Hj. unfold trunk_points.
  rewrite (@nth_error_flat_map_blocks _ _ _ n _ i j i).
  - unfold ring_points. rewrite nth_error_map, nth_error_range by exact Hj.
    reflexivity.
  - intros k _. apply ring_points_length.
  - now apply nth_error_range.
  - exact Hj.
Qed.

Lemma trunk_quads_nth (b i j : nat) :
  (i < Z.to_nat (rings p))%nat -> (j < n)%nat ->
  nth_error (trunk_quads p b) (i * n + j) = Some (quad p b i j).
Proof.
  intros Hi Hj. unfold trunk_quads.
  rewrite (@nth_error_flat_map_blocks _ _ _ n _ i j i).
  - unfold ring_quads. rewrite nth_error_map, nth_error_range by exact Hj.
    reflexivity.
  - intros k _. unfold ring_quads. now rewrite length_map, range_length.
  - now apply nth_error_range.
  - exact Hj.
Qed.

(** On a record of [trunk_defined] every vertex of the mesh is the
    value the loop body computed for its ring and sample. *)
Lemma trunk_vertex_computed (i k : nat) :
  trunk_defined p -> (1 <= rings p)%Z ->
  (i <= Z.to_nat (rings p))%nat -> (k < n)%nat ->
  exists f v,
    ring_frame p i = Ok f /\ ring_vertex noise p f k = Ok v
    /\ nth_error (trunk_points noise p) (i * n + k) = Some v.
Proof.
  intros Hd Hr Hi Hk.
  destruct Hd as [Hneg | (_ & Hfd & Hv)]; [lia |].
  destruct (ring_frame_total i Hr Hfd) as [f Hf].
  destruct (@ring_vertex_defined noise p f k) as [v Hv']; [lia | lia |].
  exists f, v. repeat split; [exact Hf | exact Hv' |].
  rewrite trunk_points_nth by (lia || exact Hk).
  unfold frame_of. rewrite Hf. unfold vertex_of. now rewrite Hv'.
Qed.

End MeshFacts.

Lemma default_frame_defined : frame_defined default_params.
Proof.
  split; [cbn; discriminate |]. split; [| split].
  - intros _ He. cbn in He. discriminate He.
  - intros _. cbn. lra.
  - reflexivity.
Defined.

Lemma default_params_defined : trunk_defined default_params.
Proof.
  right. split; [cbn; lia |]. split; [exact default_frame_defined |].
  right. split; [cbn; lia | cbn; discriminate].
Defined.

Lemma default_turn_defined : turn_defined default_params.
Proof.
  split; [cbn; lia |]. split; [exact default_frame_defined |].
  split; [cbn; lia | cbn; discriminate].
Defined.

Lemma cylinder_frame_defined : frame_defined cylinder_params.
Proof.
  split; [cbn; discriminate |]. split; [| split].
  - intros _ He. cbn in He. discriminate He.
  - intros _. cbn. lra.
  - reflexivity.
Defined.

(** Inside the documented ranges the first ring can be computed as soon
    as the axis has one of its three names. *)
Lemma documented_ranges_frame (p : Params) :
  documented_ranges p ->
  axis_known (Py.upper (twist_direction p)) = true ->
  frame_defined p.
Proof.
  intros [HR HZ] Ha.
  split; [lia |]. split; [| split; [| exact Ha]].
  - intros _ _. lra.
  - intros _. lra.
Qed.

(** With [groove_count = 0] and at least one vertex per ring the ring
    loop stops at the first vertex of ring 0. *)
Lemma generate_groove_zero (noise : R -> R -> R -> R)
    (unique_name : list string -> string -> string) (p : Params)
    (nm : string) (location : Vector) (w : Scene) :
  (1 <= rings p)%Z -> frame_defined p ->
  (1 <= verts_per_ring p)%Z -> groove_count p = 0%Z ->
  build_rings noise p bmesh_new = (Err ZeroDivisionError, bmesh_new)
  /\ generate_proc_log noise unique_name nm p location w
     = (Err ZeroDivisionError,
        scene_with unique_name nm location w
          (empty_mesh (new_mesh_name unique_name nm w))).
Proof.
  intros Hr Hfd Hn Hg.
  pose proof (@build_rings_groove_zero noise p Hr Hfd Hn Hg) as H.
  split; [exact H |].
  unfold generate_proc_log, new_object, scene_with, build_trunk, bind.
  now rewrite H.
Qed.

(** C1 (the claim on the code).  On a record with [rings >= 1] and
    [verts_per_ring >= 3] whose first ring can be computed, as it can on
    every record inside the documented ranges, [generate_proc_log] does
    what the claim says exactly when [groove_count] is not zero.  Then
    it returns a trunk mesh of [(rings+1) * verts_per_ring] vertices,
    handle [i*n + k] being sample [k] of ring [i], and of
    [rings * verts_per_ring] faces, the face of ring pair [(i, i+1)] at
    angular index [j] being the quad
    [A[j], A[(j+1) mod n], B[(j+1) mod n], B[j]], where [A[k]] is handle
    [i*n + k] and [B[k]] is handle [(i+1)*n + k].  When [groove_count]
    is zero, a value inside its documented range, it raises
    [ZeroDivisionError] at the first vertex of ring 0, and the mesh
    datablock it leaves has no vertex and no face. *)
Theorem trunk_mesh_topology (noise : R -> R -> R -> R)
    (unique_name : list string -> string -> string) (p : Params)
    (nm : string) (location : Vector) (w : Scene) :
  (1 <= rings p)%Z -> (3 <= verts_per_ring p)%Z -> frame_defined p ->
  let run := generate_proc_log noise unique_name nm p location w in
  let n := Z.to_nat (verts_per_ring p) in
  (groove_count p <> 0%Z ->
   exists obj w',
     run = (Ok obj, w')
     /\ Z.of_nat (List.length (vertices (obj_mesh w' obj)))
        = ((rings p + 1) * verts_per_ring p)%Z
     /\ Z.of_nat (List.length (polygons (obj_mesh w' obj)))
        = (rings p * verts_per_ring p)%Z
     /\ (forall i k, (i <= Z.to_nat (rings p))%nat -> (k < n)%nat ->
           exists f v,
             ring_frame p i = Ok f /\ ring_vertex noise p f k = Ok v
             /\ nth_error (vertices (obj_mesh w' obj)) (i * n + k) = Some v)
     /\ (forall i j, (i < Z.to_nat (rings p))%nat -> (j < n)%nat ->
           let A k := (i * n + k)%nat in
           let B k := ((i + 1) * n + k)%nat in
           option_map poly_vertices
             (nth_error (polygons (obj_mesh w' obj)) (i * n + j))
           = Some [A j; A ((j + 1) mod n)%nat; B ((j + 1) mod n)%nat;
                   B j]))
  /\ (groove_count p = 0%Z ->
      exists w' m,
        run = (Err ZeroDivisionError, w')
        /\ build_rings noise p bmesh_new = (Err ZeroDivisionError, bmesh_new)
        /\ meshes w' = meshes w ++ [m]
        /\ vertices m = [] /\ polygons m = []).
Proof.
  intros Hr Hn Hfd run n. split.
  - intros Hg.
    assert (Hd : trunk_defined p) by (right; tauto).
    pose proof (generate_proc_log_ok noise unique_name nm location w Hd)
      as Hgen.
    destruct (generate_proc_log_returns _ _ _ _ _ _ Hgen) as [_ Hm].
    eexists. eexists. split; [exact Hgen |].
    rewrite Hm. cbn [vertices polygons trunk_mesh].
    split; [| split; [| split]].
    + rewrite trunk_points_length. fold n. lia.
    + rewrite length_map, trunk_quads_length. fold n. lia.
    + intros i k Hi Hk. apply trunk_vertex_computed; (assumption || lia).
    + intros i j Hi Hj.
      rewrite nth_error_map, trunk_quads_nth by assumption.
      cbn [option_map smooth_polygon poly_vertices]. unfold quad.
      rewrite next_index_mod by lia. reflexivity.
  - intros Hg.
    assert (Hn1 : (1 <= verts_per_ring p)%Z) by lia.
    destruct (generate_groove_zero noise unique_name nm location w
                Hr Hfd Hn1 Hg) as [Hrings Hgen].
    eexists. eexists. split; [exact Hgen |]. split; [exact Hrings |].
    cbn [scene_with meshes]. split; [reflexivity |].
    split; reflexivity.
Qed.

Lemma cylinder_params_documented : documented_ranges cylinder_params.
Proof.
  pose proof PI_RGT_0. split; [cbn; repeat split; lra | cbn; lia].
Defined.

Lemma trunk_mesh_topology_witness :
  (exists obj w',
     generate_proc_log (flat_noise 0) free_name "Log" default_params
       (0, 0, 0)%R empty_scene = (Ok obj, w')
     /\ Z.of_nat (List.length (vertices (obj_mesh w' obj))) = 2480%Z
     /\ Z.of_nat (List.length (polygons (obj_mesh w' obj))) = 2400%Z)
  /\ documented_ranges cylinder_params
  /\ exists w' m,
       generate_proc_log (flat_noise 0) free_name "L1" cylinder_params
         (0, 0, 0)%R empty_scene = (Err ZeroDivisionError, w')
       /\ meshes w' = [m] /\ vertices m = [] /\ polygons m = [].
Proof.
  split; [| split; [exact cylinder_params_documented |]].
  - assert (Hr : (1 <= rings default_params)%Z) by (cbn; lia).
    assert (Hn : (3 <= verts_per_ring default_params)%Z) by (cbn; lia).
    assert (Hg : groove_count default_params <> 0%Z) by (cbn; discriminate).
    destruct (trunk_mesh_topology (flat_noise 0) free_name "Log"
                (0, 0, 0)%R empty_scene Hr Hn default_frame_defined)
      as [Hreturns _].
    destruct (Hreturns Hg) as (obj & w' & Hgen & Hv & Hp & _).
    exists obj, w'. split; [exact Hgen |]. split; [exact Hv | exact Hp].
  - assert (Hr : (1 <= rings cylinder_params)%Z) by (cbn; lia).
    assert (Hn : (3 <= verts_per_ring cylinder_params)%Z) by (cbn; lia).
    assert (Hfd : frame_defined cylinder_params)
      by (apply documented_ranges_frame;
          [exact cylinder_params_documented | reflexivity]).
    destruct (trunk_mesh_topology (flat_noise 0) free_name "L1"
                (0, 0, 0)%R empty_scene Hr Hn Hfd)
      as [_ Hraises].
    destruct (Hraises eq_refl) as (w' & m & Hgen & _ & Hm & Hv & Hp).
    exists w', m. split; [exact Hgen |]. split; [exact Hm |].
    split; [exact Hv | exact Hp].
Defined.

(** ** Failure and validation *)

Lemma cylinder_params_raise (noise : R -> R -> R -> R)
    (unique_name : list string -> string -> string) :
  build_rings noise cylinder_params bmesh_new
  = (Err ZeroDivisionError, bmesh_new)
  /\ generate_proc_log noise unique_name "L1" cylinder_params (0, 0, 0)%R
       empty_scene
     = (Err ZeroDivisionError,
        {| meshes := [empty_mesh (unique_name [] "L1Mesh"%string)];
           objects := [{| obj_name := unique_name [] "L1"%string; obj_data := 0;
                          obj_location := (0, 0, 0)%R |}] |}).
Proof.
  apply (generate_groove_zero noise unique_name "L1" (0, 0, 0)%R
           empty_scene);
    [cbn; lia | exact cylinder_frame_defined | cbn; lia | reflexivity].
Qed.

(** C2 (the code at the failing input).  On the spec's own cylinder
    example, whose [groove_count] is 0, [generate_proc_log] raises
    [ZeroDivisionError]: the ring loop stops at [2*pi/groove_count] for
    the first vertex of ring 0, and the scene is left with the new
    object and an empty mesh datablock. *)
Theorem groove_count_zero_raises (noise : R -> R -> R -> R)
    (unique_name : list string -> string -> string) :
  build_rings noise cylinder_params bmesh_new
  = (Err ZeroDivisionError, bmesh_new)
  /\ generate_proc_log noise unique_name "L1" cylinder_params (0, 0, 0)%R
       empty_scene
     = (Err ZeroDivisionError,
        {| meshes := [empty_mesh (unique_name [] "L1Mesh"%string)];
           objects := [{| obj_name := unique_name [] "L1"%string; obj_data := 0;
                          obj_location := (0, 0, 0)%R |}] |}).
Proof. exact (cylinder_params_raise noise unique_name). Qed.




Lemma small_params_frame (n : Z) : frame_defined (small_params n).
Proof.
  split; [cbn; discriminate |]. split; [| split].
  - intros Hl. cbn in Hl. discriminate Hl.
  - intros Hpos. cbn in Hpos. lra.
  - reflexivity.
Defined.


(** ** Placement of a ring *)

Lemma vadd_assoc (a b c : Vector) : vadd a (vadd b c) = vadd (vadd a b) c.
Proof.
  destruct a as [[ax ay] az], b as [[bx by_] bz], c as [[cx cy] cz].
  unfold vadd. now rewrite !Rplus_assoc.
Qed.

Lemma vadd_cancel_l (a b c : Vector) : vadd a b = vadd a c -> b = c.
Proof.
  destruct a as [[ax ay] az], b as [[bx by_] bz], c as [[cx cy] cz].
  unfold vadd. intros H. injection H as Hx Hy Hz.
  apply Rplus_eq_reg_l in Hx, Hy, Hz. now subst.
Qed.

Lemma radians_scale (d t : R) :
  (Py.radians d * t = Py.radians (d * t))%R.
Proof. unfold Py.radians. ring. Qed.

(** The fields of the frame of ring [i], read off the outer body. *)
Lemma ring_frame_fields (p : Params) (i : nat) (f : RingFrame) :
  ring_frame p i = Ok f ->
  let t := (INR i / IZR (rings p))%R in
  rings p <> 0%Z
  /\ rf_t f = t
  /\ rf_center f = vadd (centerline p t) (eccentric_offset p)
  /\ twist p t = Ok (rf_rot f)
  /\ exists radius rxy,
       taper p t = Ok radius /\ ellipse p t radius = Ok rxy
       /\ (rf_rx f, rf_ry f) = flange p i rxy.
Proof.
  intros H t. unfold ring_frame in H.
  destruct (Z.eq_dec (rings p) 0) as [E | Hnz].
  { rewrite E, div_by_zero in H. discriminate H. }
  rewrite div_nonzero in H by (now apply not_0_IZR). cbn [rbind] in H.
  fold t in H.
  destruct (taper p t) as [radius | e] eqn:Et; [| discriminate H].
  cbn [rbind] in H.
  destruct (ellipse p t radius) as [rxy | e] eqn:Ee; [| discriminate H].
  cbn [rbind] in H.
  destruct (flange p i rxy) as [rx ry] eqn:Ef.
  destruct (twist p t) as [rot | e] eqn:Er; [| discriminate H].
  cbn [rbind] in H. injection H as <-. cbn [rf_t rf_rx rf_ry rf_center rf_rot].
  repeat split; try assumption.
  exists radius, rxy. now rewrite Ee.
Qed.

Section Placement.

Variable noise : R -> R -> R -> R.
Variable unique_name : list string -> string -> string.
Variable p : Params.

Local Open Scope R_scope.

(** The eccentric offset with the angle taken in degrees, as the code
    takes it. *)
Let offset_degrees : Vector :=
  (eccentricity_offset p * cos (Py.radians (eccentricity_angle p)),
   eccentricity_offset p * sin (Py.radians (eccentricity_angle p)),
   0).

Lemma trunk_vertex_placement (nm : string) (location : Vector)
    (w w' : Scene) (obj : Object) (i j : nat) :
  (1 <= rings p)%Z ->
  generate_proc_log noise unique_name nm p location w = (Ok obj, w') ->
  (i <= Z.to_nat (rings p))%nat ->
  (j < Z.to_nat (verts_per_ring p))%nat ->
  let t := INR i / IZR (rings p) in
  exists f loc_v rot,
    ring_frame p i = Ok f
    /\ local_point noise p f j = Ok loc_v
    /\ Matrix_Rotation (Py.radians (twist_angle p * t))
         (Py.upper (twist_direction p)) = Ok rot
    /\ nth_error (vertices (obj_mesh w' obj))
         (i * Z.to_nat (verts_per_ring p) + j)
       = Some (vadd (vadd (matmul_vec rot loc_v)
                       (curve_strength p * sin (2 * PI * IZR (curve_count p) * t),
                        curve_strength p * cos (2 * PI * IZR (curve_count p) * t),
                        length p * t))
                 offset_degrees).
Proof.
  intros Hr H Hi Hj t.
  destruct (generate_proc_log_returns _ _ _ _ _ _ H) as [Hd Hm].
  destruct (trunk_vertex_computed noise Hd Hr Hi Hj)
    as (f & v & Hf & Hv & Hnth).
  destruct (ring_frame_fields _ _ Hf) as (_ & Ht & Hc & Hrot & _).
  fold t in Ht, Hc, Hrot.
  unfold ring_vertex in Hv.
  destruct (local_point noise p f j) as [loc_v | e] eqn:El;
    [| discriminate Hv].
  cbn [rbind] in Hv. injection Hv as <-.
  exists f, loc_v, (rf_rot f).
  split; [exact Hf |]. split; [exact El |]. split.
  - unfold twist in Hrot. now rewrite radians_scale in Hrot.
  - rewrite Hm. cbn [vertices trunk_mesh]. rewrite Hnth.
    unfold place. rewrite Hc, vadd_assoc. reflexivity.
Qed.

End Placement.

Lemma degree_params_defined : trunk_defined degree_params.
Proof.
  right. split; [cbn; lia |]. split.
  - split; [cbn; discriminate |]. split; [| split].
    + intros _ He. cbn in He. discriminate He.
    + intros _. cbn. lra.
    + reflexivity.
  - right. split; [cbn; lia | cbn; discriminate].
Qed.

Lemma cos_one_degree : (cos 1 < cos (Py.radians 1))%R.
Proof.
  unfold Py.radians. pose proof PI_4. pose proof PI2_1.
  apply cos_decreasing_1; lra.
Qed.

(** C5 (as stated, refuted).  With [eccentricity_angle = 1] the first
    vertex of ring 0 is not the rotated local point plus the centerline
    plus [(offset*cos(1), offset*sin(1), 0)]: the code turns the angle
    into radians first. *)
Lemma eccentric_angle_is_in_degrees :
  exists obj w' f loc_v rot v,
    generate_proc_log (flat_noise 0) free_name "Log" degree_params (0, 0, 0)%R
      empty_scene = (Ok obj, w')
    /\ ring_frame degree_params 0 = Ok f
    /\ local_point (flat_noise 0) degree_params f 0 = Ok loc_v
    /\ Matrix_Rotation
         (Py.radians (twist_angle degree_params * (INR 0 / IZR 30)))
         (Py.upper (twist_direction degree_params)) = Ok rot
    /\ nth_error (vertices (obj_mesh w' obj)) 0 = Some v
    /\ v <> vadd (vadd (matmul_vec rot loc_v)
                    (centerline degree_params (INR 0 / IZR 30)))
               (offset_as_written degree_params).
Proof.
  pose proof (generate_proc_log_ok (flat_noise 0) free_name "Log" (0, 0, 0)%R
                empty_scene degree_params_defined) as Hgen.
  assert (Hr : (1 <= rings degree_params)%Z) by (cbn; lia).
  assert (Hi : (0 <= Z.to_nat (rings degree_params))%nat) by lia.
  assert (Hj : (0 < Z.to_nat (verts_per_ring degree_params))%nat)
    by (cbn; lia).
  destruct (trunk_vertex_placement (flat_noise 0) free_name degree_params "Log"
              (0, 0, 0)%R empty_scene Hr Hgen Hi Hj)
    as (f & loc_v & rot & Hf & Hl & Hrot & Hnth).
  eexists. eexists. exists f, loc_v, rot. eexists.
  split; [exact Hgen |]. split; [exact Hf |]. split; [exact Hl |].
  split; [exact Hrot |]. split; [exact Hnth |].
  intros Heq. apply vadd_cancel_l in Heq.
  unfold offset_as_written in Heq. cbn in Heq.
  injection Heq as Hx _.
  pose proof cos_one_degree as Hlt. lra.
Qed.

(** C5 (amended).  When [generate_proc_log] returns on a record with
    [rings >= 1], the vertex emitted for sample [j] of ring [i], at
    [t = i / rings], is the rotation by [twist_angle * t] degrees about
    the twist axis applied to the local point, plus the centerline point,
    plus the eccentric offset
    [(offset * cos(radians(angle)), offset * sin(radians(angle)), 0)],
    [eccentricity_angle] being an angle in degrees. *)
Theorem vertex_placement (noise : R -> R -> R -> R)
    (unique_name : list string -> string -> string) (p : Params)
    (nm : string) (location : Vector) (w w' : Scene) (obj : Object)
    (i j : nat) :
  (1 <= rings p)%Z ->
  generate_proc_log noise unique_name nm p location w = (Ok obj, w') ->
  (i <= Z.to_nat (rings p))%nat ->
  (j < Z.to_nat (verts_per_ring p))%nat ->
  let t := (INR i / IZR (rings p))%R in
  exists f loc_v rot,
    ring_frame p i = Ok f
    /\ local_point noise p f j = Ok loc_v
    /\ Matrix_Rotation (Py.radians (twist_angle p * t))
         (Py.upper (twist_direction p)) = Ok rot
    /\ nth_error (vertices (obj_mesh w' obj))
         (i * Z.to_nat (verts_per_ring p) + j)
       = Some (vadd (vadd (matmul_vec rot loc_v)
                       (curve_strength p * sin (2 * PI * IZR (curve_count p) * t),
                        curve_strength p * cos (2 * PI * IZR (curve_count p) * t),
                        length p * t)%R)
                 (eccentricity_offset p
                  * cos (Py.radians (eccentricity_angle p)),
                  eccentricity_offset p
                  * sin (Py.radians (eccentricity_angle p)),
                  0)%R).
Proof.
  intros Hr H Hi Hj.
  exact (trunk_vertex_placement noise unique_name p nm location w Hr H Hi Hj).
Qed.

Lemma vertex_placement_witness :
  exists obj w' f loc_v rot v,
    generate_proc_log (flat_noise 0) free_name "Log" default_params (0, 0, 0)%R
      empty_scene = (Ok obj, w')
    /\ ring_frame default_params 30 = Ok f
    /\ local_point (flat_noise 0) default_params f 79 = Ok loc_v
    /\ Matrix_Rotation
         (Py.radians (twist_angle default_params * (INR 30 / IZR 30)))
         "Z" = Ok rot
    /\ nth_error (vertices (obj_mesh w' obj)) 2479 = Some v.
Proof.
  pose proof (generate_proc_log_ok (flat_noise 0) free_name "Log" (0, 0, 0)%R
                empty_scene default_params_defined) as Hgen.
  assert (Hr : (1 <= rings default_params)%Z) by (cbn; lia).
  assert (Hi : (30 <= Z.to_nat (rings default_params))%nat) by (cbn; lia).
  assert (Hj : (79 < Z.to_nat (verts_per_ring default_params))%nat)
    by (cbn; lia).
  destruct (vertex_placement (flat_noise 0) free_name default_params "Log"
              (0, 0, 0)%R empty_scene Hr Hgen Hi Hj)
    as (f & loc_v & rot & Hf & Hl & Hrot & Hnth).
  eexists. eexists. exists f, loc_v, rot. eexists.
  split; [exact Hgen |]. split; [exact Hf |]. split; [exact Hl |].
  split; [exact Hrot |]. exact Hnth.
Defined.

Lemma trunk_mesh_empty (noise : R -> R -> R -> R) (nm : string)
    (p : Params) :
  (rings p < 0)%Z \/ (verts_per_ring p <= 0)%Z ->
  vertices (trunk_mesh noise nm p) = []
  /\ polygons (trunk_mesh noise nm p) = [].
Proof.
  intros Hcase. cbn [vertices polygons trunk_mesh].
  unfold trunk_points, trunk_quads, ring_points, ring_quads.
  destruct Hcase as [Hr | Hn].
  - rewrite (@range_nonpositive (rings p + 1)) by lia.
    rewrite (@range_nonpositive (rings p)) by lia. split; reflexivity.
  - rewrite (range_nonpositive Hn). cbn [map].
    rewrite !flat_map_nil_blocks by reflexivity. split; reflexivity.
Qed.

(** ** End caps *)

Lemma cap_verts_step (coords : list Vector) :
  forall acc bm,
    for_each coords
      (fun acc c => bind (verts_new c) (fun v => ret (acc ++ [v]))) acc bm
    = (Ok (acc ++ seq (List.length (bm_verts bm)) (List.length coords)),
       push_verts bm coords).
Proof.
  induction coords as [| c coords IH]; intros acc bm; cbn [for_each].
  - unfold ret. cbn. now rewrite app_nil_r, push_verts_nil.
  - unfold bind at 1. unfold bind at 1. unfold verts_new at 1.
    unfold ret at 1. rewrite IH. cbn [bm_verts bm_faces List.length seq].
    rewrite length_app, <- app_assoc. cbn [List.length app].
    replace (List.length (bm_verts bm) + 1)%nat
      with (S (List.length (bm_verts bm))) by lia.
    f_equal. unfold push_verts. cbn [bm_verts bm_faces].
    now rewrite <- app_assoc.
Qed.

(** A cap over three coordinates and more: its vertices are new, so
    the face is accepted. *)
Lemma make_cap_ok (unique_name : list string -> string -> string)
    (nm : string) (coords : list Vector) (material : string) (flip : bool)
    (w : Scene) :
  (3 <= List.length coords)%nat ->
  make_cap unique_name nm coords material flip w
  = (Ok (new_obj unique_name nm (0, 0, 0)%R w),
     scene_with unique_name nm (0, 0, 0)%R w
       (cap_mesh (new_mesh_name unique_name nm w) coords material flip)).
Proof.
  intros Hlen. unfold make_cap, new_object, scene_with. unfold bind at 1.
  rewrite cap_verts_step.
  cbn [bmesh_new bm_verts List.length app].
  rewrite faces_new_ok.
  - unfold update_mesh. cbn [meshes objects obj_data new_obj].
    rewrite !update_at_last.
    unfold cap_mesh, to_mesh, empty_mesh.
    cbn [mesh_name vertices polygons materials bm_verts bm_faces push_verts
         push_faces bmesh_new app map List.length].
    reflexivity.
  - destruct flip; rewrite ?length_rev, length_seq; exact Hlen.
  - destruct flip; [apply NoDup_rev |]; apply seq_NoDup.
  - intros f [].
Qed.

(** A cap over fewer is refused. *)
Lemma make_cap_few (unique_name : list string -> string -> string)
    (nm : string) (coords : list Vector) (material : string) (flip : bool)
    (w : Scene) :
  (List.length coords < 3)%nat ->
  make_cap unique_name nm coords material flip w
  = (Err TypeError,
     scene_with unique_name nm (0, 0, 0)%R w
       (empty_mesh (new_mesh_name unique_name nm w))).
Proof.
  intros Hlen. unfold make_cap, new_object, scene_with. unfold bind at 1.
  rewrite cap_verts_step.
  cbn [bmesh_new bm_verts List.length app]. unfold faces_new.
  assert (Hshort : (List.length
                      (if flip then rev (seq 0 (List.length coords))
                       else seq 0 (List.length coords)) <? 3)%nat = true).
  { apply Nat.ltb_lt.
    destruct flip; rewrite ?length_rev, length_seq; exact Hlen. }
  now rewrite Hshort.
Qed.

Lemma firstn_skipn_blocks {A B} (g : A -> list B) (n : nat) (l : list A)
    (i : nat) (x : A) :
  (forall y, In y l -> List.length (g y) = n) ->
  nth_error l i = Some x ->
  firstn n (skipn (i * n) (flat_map g l)) = g x.
Proof.
  revert i. induction l as [| y l IH]; intros i Hg Hi.
  - destruct i; discriminate Hi.
  - cbn [flat_map]. destruct i as [| i].
    + injection Hi as ->. cbn [Nat.mul skipn].
      rewrite firstn_app, Hg by (now left).
      rewrite Nat.sub_diag. cbn [firstn]. rewrite app_nil_r.
      apply firstn_all2. rewrite Hg by (now left). lia.
    + cbn [nth_error] in Hi.
      rewrite skipn_app.
      rewrite (skipn_all2 (g y)) by (rewrite Hg by (now left); lia).
      cbn [app]. rewrite Hg by (now left).
      replace (S i * n - n)%nat with (i * n)%nat by lia.
      apply IH; [intros z Hz; apply Hg; now right | exact Hi].
Qed.

Section CapFacts.

Variable noise : R -> R -> R -> R.
Variable unique_name : list string -> string -> string.
Variable selectable : Object -> bool.
Variable cfg : Params.

Let n : nat := Z.to_nat (verts_per_ring cfg).
Let last : nat := Z.to_nat (rings cfg).

Lemma ring_of_trunk (i : nat) :
  (i < Z.to_nat (rings cfg + 1))%nat ->
  ring_of (trunk_points noise cfg) n i = ring_points noise cfg i.
Proof.
  intros Hi. unfold ring_of, trunk_points.
  apply firstn_skipn_blocks.
  - intros k _. apply ring_points_length.
  - now apply nth_error_range.
Qed.

(** [verts[:n]] is ring 0. *)
Lemma slice_to_trunk :
  (0 <= rings cfg)%Z -> (0 <= verts_per_ring cfg)%Z ->
  Py.slice_to (trunk_points noise cfg) (verts_per_ring cfg)
  = ring_of (trunk_points noise cfg) n 0.
Proof.
  intros Hr Hn. unfold Py.slice_to, ring_of.
  destruct (0 <=? verts_per_ring cfg)%Z eqn:E; [reflexivity | lia].
Qed.

(** [verts[-n:]] is the last ring. *)
Lemma slice_from_neg_trunk :
  (0 <= rings cfg)%Z -> (0 <= verts_per_ring cfg)%Z ->
  Py.slice_from_neg (trunk_points noise cfg) (verts_per_ring cfg)
  = ring_of (trunk_points noise cfg) n last.
Proof.
  intros Hr Hn. unfold Py.slice_from_neg, ring_of.
  pose proof (trunk_points_length noise cfg) as Hlen. fold n in Hlen.
  replace (Z.to_nat (rings cfg + 1)) with (S last) in Hlen
    by (unfold last; lia).
  cbn [Nat.mul] in Hlen.
  assert (Hrem : List.length (skipn (last * n) (trunk_points noise cfg))
                 = n).
  { rewrite length_skipn, Hlen. apply Nat.add_sub. }
  rewrite firstn_all2 by (rewrite Hrem; apply Nat.le_refl).
  destruct (0 <? verts_per_ring cfg)%Z eqn:E.
  - f_equal. rewrite Hlen, Nat2Z.inj_add.
    unfold n at 1. rewrite Z2Nat.id by exact Hn.
    replace (verts_per_ring cfg + Z.of_nat (last * n)
             - verts_per_ring cfg)%Z
      with (Z.of_nat (last * n)) by ring.
    apply Nat2Z.id.
  - assert (Hz : n = 0%nat) by (unfold n; lia).
    rewrite Hz, Nat.mul_0_r. f_equal. lia.
Qed.

(** A turn of the main loop once its trunk is there. *)
Lemma process_log_trunk (w : Scene) :
  trunk_defined cfg ->
  let w0 := clear_scene selectable w in
  let log_obj := new_obj unique_name (name cfg) (0, 0, 0)%R w0 in
  let w2 :=
    scene_with unique_name (name cfg) (0, 0, 0)%R w0
      (bark_mesh noise cfg (new_mesh_name unique_name (name cfg) w0)) in
  let verts := trunk_points noise cfg in
  let cap_mat := ("CapMat_" ++ name cfg)%string in
  process_log noise unique_name selectable cfg w
  = match make_cap unique_name (name cfg ++ "_cap_start")
            (Py.slice_to verts (verts_per_ring cfg)) cap_mat true w2 with
    | (Err e, w3) => (Err e, w3)
    | (Ok cap_start, w3) =>
        match make_cap unique_name (name cfg ++ "_cap_end")
                (Py.slice_from_neg verts (verts_per_ring cfg)) cap_mat false
                w3 with
        | (Err e, w4) => (Err e, w4)
        | (Ok cap_end, w4) => (Ok (log_obj, cap_start, cap_end), w4)
        end
    end.
Proof.
  intros Hd w0 log_obj w2 verts cap_mat. unfold process_log.
  rewrite (generate_proc_log_ok noise unique_name (name cfg) (0, 0, 0)%R
             (clear_scene selectable w) Hd).
  unfold update_mesh, scene_with. cbn [meshes objects obj_data new_obj].
  rewrite update_at_last.
  unfold obj_mesh. cbn [obj_data meshes new_obj].
  rewrite nth_middle. reflexivity.
Qed.

(** One turn of the main loop on a record of [turn_defined]: three mesh
    datablocks are added, three objects join those that [clear_scene]
    has left. *)
Lemma process_log_ok (w : Scene) :
  turn_defined cfg ->
  let base := List.length (meshes w) in
  let cap_mat := ("CapMat_" ++ name cfg)%string in
  exists log_obj cap_start cap_end mn1 mn2 mn3,
    process_log noise unique_name selectable cfg w
    = (Ok (log_obj, cap_start, cap_end),
       {| meshes :=
            meshes w
            ++ [bark_mesh noise cfg mn1;
                cap_mesh mn2 (ring_points noise cfg 0) cap_mat true;
                cap_mesh mn3 (ring_points noise cfg last) cap_mat false];
          objects :=
            objects (clear_scene selectable w)
            ++ [log_obj; cap_start; cap_end] |})
    /\ obj_data log_obj = base
    /\ obj_data cap_start = (base + 1)%nat
    /\ obj_data cap_end = (base + 2)%nat.
Proof.
  intros (Hr & Hfd & Hn & Hg) base cap_mat.
  assert (Hd : trunk_defined cfg) by (right; tauto).
  assert (Hlen : forall i, (3 <= List.length (ring_points noise cfg i))%nat).
  { intros i. rewrite ring_points_length. lia. }
  do 6 eexists.
  rewrite (process_log_trunk w Hd). cbv zeta.
  rewrite slice_to_trunk, slice_from_neg_trunk by lia.
  rewrite !ring_of_trunk by (unfold last; lia).
  rewrite make_cap_ok by apply Hlen.
  rewrite make_cap_ok by apply Hlen.
  unfold scene_with. cbn [meshes objects clear_scene].
  rewrite <- !app_assoc. cbn [app].
  split; [reflexivity |].
  cbn [obj_data new_obj meshes]. rewrite !length_app. cbn [List.length].
  unfold base. cbn [clear_scene meshes]. repeat split; lia.
Qed.

Lemma process_log_returns (w w' : Scene) (objs : Object * Object * Object) :
  process_log noise unique_name selectable cfg w = (Ok objs, w') ->
  turn_defined cfg.
Proof.
  intros H.
  assert (Hd : trunk_defined cfg).
  { apply NNPP. intros Hnd.
    destruct (generate_proc_log_err noise unique_name (name cfg)
                (0, 0, 0)%R (clear_scene selectable w) Hnd) as [e He].
    unfold process_log in H. rewrite He in H. discriminate H. }
  destruct (classic (turn_defined cfg)) as [Ht | Hnt]; [exact Ht | exfalso].
  assert (Hempty : (rings cfg < 0)%Z \/ (verts_per_ring cfg <= 0)%Z).
  { destruct Hd as [Hneg | (Hr & Hfd & [Hn | [Hn Hg]])];
      [now left | now right |].
    exfalso. apply Hnt. split; [exact Hr |]. split; [exact Hfd |].
    split; [exact Hn | exact Hg]. }
  pose proof (proj1 (@trunk_mesh_empty noise EmptyString cfg Hempty)) as Hv.
  cbn [vertices trunk_mesh] in Hv.
  rewrite (process_log_trunk w Hd) in H. cbv zeta in H.
  rewrite Hv in H.
  rewrite make_cap_few in H.
  - discriminate H.
  - unfold Py.slice_to.
    destruct (0 <=? verts_per_ring cfg)%Z; rewrite firstn_nil; cbn; lia.
Qed.

(** The three meshes of a finished turn. *)
Lemma process_log_meshes (w w' : Scene)
    (log_obj cap_start cap_end : Object) :
  process_log noise unique_name selectable cfg w
  = (Ok (log_obj, cap_start, cap_end), w') ->
  turn_defined cfg
  /\ exists mn1 mn2 mn3,
       obj_mesh w' log_obj = bark_mesh noise cfg mn1
       /\ obj_mesh w' cap_start
          = cap_mesh mn2 (ring_points noise cfg 0) ("CapMat_" ++ name cfg)
              true
       /\ obj_mesh w' cap_end
          = cap_mesh mn3 (ring_points noise cfg last)
              ("CapMat_" ++ name cfg) false.
Proof.
  intros H. pose proof (@process_log_returns w w' _ H) as Ht.
  split; [exact Ht |].
  destruct (process_log_ok w Ht)
    as (o1 & o2 & o3 & mn1 & mn2 & mn3 & Hrun & H1 & H2 & H3).
  rewrite Hrun in H. injection H as <- <- <- <-.
  exists mn1, mn2, mn3.
  unfold obj_mesh. cbn [meshes]. rewrite H1, H2, H3.
  rewrite <- (Nat.add_0_r (List.length (meshes w))) at 1.
  rewrite !app_nth2_plus. cbn [nth].
  repeat split.
Qed.

End CapFacts.

Lemma ring_points_computed (noise : R -> R -> R -> R) (p : Params)
    (i k : nat) :
  trunk_defined p -> (1 <= rings p)%Z ->
  (k < Z.to_nat (verts_per_ring p))%nat ->
  exists f v,
    ring_frame p i = Ok f /\ ring_vertex noise p f k = Ok v
    /\ nth_error (ring_points noise p i) k = Some v.
Proof.
  intros Hd Hr Hk.
  destruct Hd as [Hneg | (_ & Hfd & Hv)]; [lia |].
  destruct (ring_frame_total i Hr Hfd) as [f Hf].
  destruct (@ring_vertex_defined noise p f k) as [v Hv']; [lia | lia |].
  exists f, v. repeat split; [exact Hf | exact Hv' |].
  unfold ring_points.
  rewrite nth_error_map, nth_error_range by exact Hk.
  cbn [option_map]. unfold frame_of. rewrite Hf.
  unfold vertex_of. now rewrite Hv'.
Qed.

(** C6.  In one turn of the main loop on a record with [rings >= 1] and
    [verts_per_ring >= 3], each cap mesh has a single face, an n-gon over
    all its [n = verts_per_ring] vertices; the vertices of the start cap
    are the points of ring 0 of the trunk, those of the end cap the
    points of ring [rings], both in angular order; the face of the start
    cap lists them in reverse order, [n-1, ..., 0], the face of the end
    cap in order, [0, ..., n-1]. *)
Theorem cap_faces (noise : R -> R -> R -> R)
    (unique_name : list string -> string -> string)
    (selectable : Object -> bool) (cfg : Params) (w w' : Scene)
    (log_obj cap_start cap_end : Object) :
  (1 <= rings cfg)%Z -> (3 <= verts_per_ring cfg)%Z ->
  process_log noise unique_name selectable cfg w = (Ok (log_obj, cap_start, cap_end), w') ->
  let n := Z.to_nat (verts_per_ring cfg) in
  let last := Z.to_nat (rings cfg) in
  let trunk := vertices (obj_mesh w' log_obj) in
  let start_mesh := obj_mesh w' cap_start in
  let end_mesh := obj_mesh w' cap_end in
  (vertices start_mesh = ring_of trunk n 0
   /\ List.length (vertices start_mesh) = n
   /\ map poly_vertices (polygons start_mesh) = [rev (seq 0 n)])
  /\ (vertices end_mesh = ring_of trunk n last
      /\ List.length (vertices end_mesh) = n
      /\ map poly_vertices (polygons end_mesh) = [seq 0 n])
  /\ (forall k, (k < n)%nat ->
        exists f v,
          ring_frame cfg 0 = Ok f /\ ring_vertex noise cfg f k = Ok v
          /\ nth_error (vertices start_mesh) k = Some v)
  /\ (forall k, (k < n)%nat ->
        exists f v,
          ring_frame cfg last = Ok f /\ ring_vertex noise cfg f k = Ok v
          /\ nth_error (vertices end_mesh) k = Some v).
Proof.
  intros Hr Hn H n last trunk start_mesh end_mesh.
  destruct (@process_log_meshes noise unique_name selectable cfg w w'
              log_obj cap_start cap_end H)
    as ((_ & Hfd & _ & Hg) & mn1 & mn2 & mn3 & Hl & Hs & He).
  assert (Hd : trunk_defined cfg) by (right; tauto).
  assert (Ht : trunk = trunk_points noise cfg).
  { unfold trunk. rewrite Hl. reflexivity. }
  unfold start_mesh, end_mesh. rewrite Hs, He, Ht.
  cbn [cap_mesh vertices polygons map poly_vertices].
  rewrite !ring_points_length. fold n.
  rewrite !ring_of_trunk by (unfold last; lia).
  repeat split.
  - intros k Hk. now apply ring_points_computed.
  - intros k Hk. now apply ring_points_computed.
Qed.

Lemma cap_faces_witness :
  exists log_obj cap_start cap_end w',
    process_log (flat_noise 0) free_name all_selectable default_params
      empty_scene
    = (Ok (log_obj, cap_start, cap_end), w')
    /\ map poly_vertices (polygons (obj_mesh w' cap_start))
       = [rev (seq 0 80)]
    /\ map poly_vertices (polygons (obj_mesh w' cap_end)) = [seq 0 80]
    /\ List.length (vertices (obj_mesh w' cap_start)) = 80%nat
    /\ List.length (vertices (obj_mesh w' cap_end)) = 80%nat.
Proof.
  destruct (process_log_ok (flat_noise 0) free_name all_selectable
              empty_scene default_turn_defined)
    as (log_obj & cap_start & cap_end & mn1 & mn2 & mn3 & Hrun & _).
  assert (Hr : (1 <= rings default_params)%Z) by (cbn; lia).
  assert (Hn : (3 <= verts_per_ring default_params)%Z) by (cbn; lia).
  destruct (@cap_faces (flat_noise 0) free_name all_selectable
              default_params empty_scene _ log_obj cap_start cap_end
              Hr Hn Hrun)
    as ((_ & Hls & Hfs) & (_ & Hle & Hfe) & _).
  exists log_obj, cap_start, cap_end. eexists. split; [exact Hrun |].
  split; [exact Hfs |]. split; [exact Hfe |]. split; [exact Hls | exact Hle].
Defined.

(** ** Taper, flange, roughness, centerline *)

(** C7.  With [taper_shape = "quadratic"] and the three radii equal to
    [r > 0], the tapered radius is exactly [r] at every [t] in [0, 1]:
    [(1-t)^2*r + 2*(1-t)*t*r + t^2*r = r]; so it is [r] at every ring
    [i <= rings] of the log. *)
Theorem quadratic_taper_constant (p : Params) (r t : R) :
  taper_shape p = "quadratic"%string ->
  radius_start p = r -> radius_center p = r -> radius_end p = r ->
  (0 < r)%R -> (0 <= t <= 1)%R ->
  ((1 - t) ^ 2 * r + 2 * (1 - t) * t * r + t ^ 2 * r = r)%R
  /\ taper p t = Ok r
  /\ (forall i, (i <= Z.to_nat (rings p))%nat ->
        taper p (INR i / IZR (rings p)) = Ok r).
Proof.
  intros Hs H0 H1 H2 _ _.
  assert (Hq : forall u, taper p u = Ok r).
  { intros u. unfold taper. rewrite Hs, H0, H1, H2. cbn.
    f_equal. ring. }
  split; [ring |]. split; [apply Hq |]. intros i _. apply Hq.
Qed.

Lemma quadratic_taper_constant_witness :
  taper cylinder_params (1 / 2) = Ok (1 / 2)%R.
Proof.
  assert (Hr : (0 < 1 / 2)%R) by lra.
  assert (Ht : (0 <= 1 / 2 <= 1)%R) by lra.
  assert (E : radius_start cylinder_params = (1 / 2)%R) by (cbn; lra).
  exact (proj1 (proj2 (@quadratic_taper_constant cylinder_params (1 / 2)
                         (1 / 2) eq_refl E E E Hr Ht))).
Defined.

(** C8.  In the frame of ring [i], the radii are those of the ellipse
    step; when [flange_count > 0] both are increased by exactly
    [flange_width] if [i mod max(1, rings // flange_count) = 0] and left
    as they are otherwise; when [flange_count = 0] they are left as they
    are. *)
Theorem flange_step (p : Params) (i : nat) (f : RingFrame) :
  ring_frame p i = Ok f ->
  exists radius rx ry,
    taper p (INR i / IZR (rings p)) = Ok radius
    /\ ellipse p (INR i / IZR (rings p)) radius = Ok (rx, ry)
    /\ ((0 < flange_count p)%Z ->
        let step := Z.max 1 (rings p / flange_count p) in
        ((Z.of_nat i mod step = 0)%Z ->
         rf_rx f = (rx + flange_width p)%R
         /\ rf_ry f = (ry + flange_width p)%R)
        /\ ((Z.of_nat i mod step <> 0)%Z -> rf_rx f = rx /\ rf_ry f = ry))
    /\ (flange_count p = 0%Z -> rf_rx f = rx /\ rf_ry f = ry).
Proof.
  intros Hf.
  destruct (ring_frame_fields _ _ Hf)
    as (_ & _ & _ & _ & radius & [rx ry] & Ht & He & Hfl).
  exists radius, rx, ry. split; [exact Ht |]. split; [exact He |].
  unfold flange, flange_test in Hfl. split.
  - intros Hpos step.
    destruct (flange_count p =? 0)%Z eqn:E0; [lia |].
    fold step in Hfl. split; intros Hm.
    + apply Z.eqb_eq in Hm. rewrite Hm in Hfl. now injection Hfl.
    + apply Z.eqb_neq in Hm. rewrite Hm in Hfl. now injection Hfl.
  - intros Hz. rewrite Hz in Hfl. cbn in Hfl. now injection Hfl.
Qed.

Lemma flange_step_witness :
  exists f radius rx ry,
    ring_frame default_params 10 = Ok f
    /\ ellipse default_params (INR 10 / IZR 30) radius = Ok (rx, ry)
    /\ rf_rx f = (rx + flange_width default_params)%R
    /\ rf_ry f = (ry + flange_width default_params)%R.
Proof.
  assert (Hr : (1 <= rings default_params)%Z) by (cbn; lia).
  destruct (ring_frame_total 10 Hr default_frame_defined) as [f Hf].
  destruct (flange_step _ _ Hf) as (radius & rx & ry & _ & He & Hpos & _).
  assert (H3 : (0 < flange_count default_params)%Z) by (cbn; lia).
  destruct (Hpos H3) as [Hbump _].
  exists f, radius, rx, ry. split; [exact Hf |]. split; [exact He |].
  apply Hbump. reflexivity.
Defined.

Lemma oval_frame_defined : frame_defined oval_params.
Proof.
  split; [cbn; discriminate |]. split; [| split].
  - intros _ He. cbn in He. discriminate He.
  - intros _. cbn. lra.
  - reflexivity.
Qed.

Lemma oval_frame_radii (f : RingFrame) :
  ring_frame oval_params 0 = Ok f -> rf_rx f = 2%R /\ rf_ry f = (1 / 2)%R.
Proof.
  intros Hf.
  destruct (ring_frame_fields _ _ Hf)
    as (_ & _ & _ & _ & radius & rxy & Ht & He & Hfl).
  replace (INR 0 / IZR (rings oval_params))%R with 0%R in Ht, He
    by (cbn; lra).
  unfold taper in Ht. cbn in Ht. injection Ht as Hrad.
  assert (Hone : radius = 1%R) by lra.
  unfold ellipse in He.
  destruct (Rlt_dec 0 (oval_region_fraction oval_params)) as [_ | N];
    [| exfalso; apply N; cbn; lra].
  rewrite div_nonzero in He by (cbn; lra). cbn in He.
  injection He as <-.
  cbn in Hfl. injection Hfl as -> ->. subst radius. lra.
Qed.

Lemma oval_groove_zero (theta g : R) : groove oval_params theta = Ok g -> g = 0%R.
Proof.
  unfold groove. pose proof PI_RGT_0 as HPI.
  rewrite div_nonzero by (cbn; lra). cbn [rbind].
  rewrite fmod_nonzero by (cbn; lra). cbn [rbind].
  intros H. injection H as <-.
  destruct (Rlt_dec _ _); cbn; lra.
Qed.

(** C9 (as stated, refuted).  At ring 0 of [oval_params] the frame's
    axis ratio [rx / ry] is 4; under a noise sample of 1 both radii of
    the sample at [theta = 0] receive the roughness 1/2 (and a groove
    term of 0), and the ratio becomes 5/2. *)
Lemma roughness_changes_axis_ratio :
  exists f g,
    ring_frame oval_params 0 = Ok f
    /\ groove oval_params 0 = Ok g
    /\ (rf_rx f / rf_ry f = 4)%R
    /\ (fst (sample_radii (flat_noise 1) oval_params f 0 g)
        / snd (sample_radii (flat_noise 1) oval_params f 0 g) = 5 / 2)%R
    /\ (fst (sample_radii (flat_noise 1) oval_params f 0 g)
        / snd (sample_radii (flat_noise 1) oval_params f 0 g)
        <> rf_rx f / rf_ry f)%R.
Proof.
  assert (Hr : (1 <= rings oval_params)%Z) by (cbn; lia).
  destruct (ring_frame_total 0 Hr oval_frame_defined) as [f Hf].
  destruct (oval_frame_radii Hf) as [Hx Hy].
  assert (Hg : exists g, groove oval_params 0 = Ok g).
  { unfold groove. pose proof PI_RGT_0 as HPI.
    rewrite div_nonzero by (cbn; lra). cbn [rbind].
    rewrite fmod_nonzero by (cbn; lra). cbn [rbind]. eauto. }
  destruct Hg as [g Hg]. pose proof (oval_groove_zero _ Hg) as Hz.
  exists f, g. split; [exact Hf |]. split; [exact Hg |].
  unfold sample_radii, rough, flat_noise. cbn [fst snd].
  rewrite Hx, Hy, Hz. cbn.
  split; [lra |]. split; [lra | lra].
Qed.

(** C9 (amended).  For sample [j] of a ring at position [t], with
    [theta = 2*pi*j / verts_per_ring], both radii receive the same
    roughness [noise(t*noise_scale, theta*noise_scale, 0)
    * bark_roughness_depth * bark_roughness_level] (and the same groove
    term), so the difference [rx - ry] of the sample is the one of the
    ring; where the ring is circular ([rx = ry]) so is the sample. *)
Theorem roughness_added_to_both_radii (noise : R -> R -> R -> R)
    (p : Params) (f : RingFrame) (j : nat) (loc_v : Vector) :
  local_point noise p f j = Ok loc_v ->
  exists theta g,
    theta = (2 * PI * INR j / IZR (verts_per_ring p))%R
    /\ groove p theta = Ok g
    /\ let rgh := (noise (rf_t f * noise_scale p) (theta * noise_scale p) 0
                   * bark_roughness_depth p * bark_roughness_level p)%R in
       let r_x := (rf_rx f + rgh + g)%R in
       let r_y := (rf_ry f + rgh + g)%R in
       loc_v = (r_x * cos theta, r_y * sin theta, 0)%R
       /\ (r_x - rf_rx f = r_y - rf_ry f)%R
       /\ (r_x - r_y = rf_rx f - rf_ry f)%R
       /\ (rf_rx f = rf_ry f -> r_x = r_y).
Proof.
  intros H. unfold local_point in H.
  destruct (Z.eq_dec (verts_per_ring p) 0) as [E | Hnz].
  { rewrite E, div_by_zero in H. discriminate H. }
  rewrite div_nonzero in H by (now apply not_0_IZR). cbn [rbind] in H.
  destruct (groove p (2 * PI * INR j / IZR (verts_per_ring p)))
    as [g | e] eqn:Hg; [| discriminate H].
  cbn [rbind] in H. unfold sample_radii, rough in H. injection H as <-.
  exists (2 * PI * INR j / IZR (verts_per_ring p))%R, g.
  split; [reflexivity |]. split; [exact Hg |].
  cbv zeta. split; [reflexivity |].
  split; [ring |]. split; [ring |]. intros ->. reflexivity.
Qed.

Lemma roughness_added_to_both_radii_witness :
  exists f loc_v theta g,
    ring_frame default_params 0 = Ok f
    /\ local_point (flat_noise 1) default_params f 0 = Ok loc_v
    /\ groove default_params theta = Ok g.
Proof.
  assert (Hr : (1 <= rings default_params)%Z) by (cbn; lia).
  destruct (ring_frame_total 0 Hr default_frame_defined) as [f Hf].
  assert (Hn : verts_per_ring default_params <> 0%Z) by (cbn; discriminate).
  assert (Hg : groove_count default_params <> 0%Z) by (cbn; discriminate).
  destruct (@ring_vertex_defined (flat_noise 1) default_params f 0 Hn Hg)
    as [v Hv].
  unfold ring_vertex in Hv.
  destruct (local_point (flat_noise 1) default_params f 0)
    as [loc_v | e] eqn:Hl; [| discriminate Hv].
  destruct (roughness_added_to_both_radii _ _ _ _ Hl)
    as (theta & g & _ & Hgr & _).
  exists f, loc_v, theta, g. split; [exact Hf |]. split; [exact Hl |].
  exact Hgr.
Defined.

(** C10.  The centerline at [t = 0] is [(0, curve_strength, 0)],
    whatever [curve_count] is; so the centre of ring 0 is the eccentric
    offset moved by [curve_strength] along +Y, and differs from the
    eccentric offset alone as soon as [curve_strength] is not zero. *)
Theorem centerline_at_base (p : Params) :
  centerline p 0 = (0, curve_strength p, 0)%R
  /\ (forall f, ring_frame p 0 = Ok f ->
        rf_t f = 0%R
        /\ rf_center f
           = (eccentricity_offset p * cos (Py.radians (eccentricity_angle p)),
              curve_strength p
              + eccentricity_offset p * sin (Py.radians (eccentricity_angle p)),
              0)%R
        /\ (curve_strength p <> 0%R -> rf_center f <> eccentric_offset p)).
Proof.
  assert (Hc : centerline p 0 = (0, curve_strength p, 0)%R).
  { unfold centerline. rewrite !Rmult_0_r, sin_0, cos_0.
    now rewrite Rmult_0_r, Rmult_1_r. }
  split; [exact Hc |]. intros f Hf.
  destruct (ring_frame_fields _ _ Hf) as (_ & Ht & Hcen & _).
  replace (INR 0 / IZR (rings p))%R with 0%R in Ht, Hcen
    by (cbn; unfold Rdiv; now rewrite Rmult_0_l).
  rewrite Hc in Hcen. unfold eccentric_offset, vadd in Hcen.
  rewrite !Rplus_0_l in Hcen.
  split; [exact Ht |]. split; [exact Hcen |].
  intros Hcs Heq. rewrite Hcen in Heq. unfold eccentric_offset in Heq.
  injection Heq as Hy. lra.
Qed.

Lemma centerline_at_base_witness :
  exists f,
    ring_frame default_params 0 = Ok f
    /\ rf_center f <> eccentric_offset default_params.
Proof.
  assert (Hr : (1 <= rings default_params)%Z) by (cbn; lia).
  destruct (ring_frame_total 0 Hr default_frame_defined) as [f Hf].
  exists f. split; [exact Hf |].
  destruct (centerline_at_base default_params) as [_ Hbase].
  destruct (Hbase f Hf) as (_ & _ & Hne).
  apply Hne. cbn. lra.
Defined.

(** * Further properties of the generator *)

(** ** The radius profile *)

Lemma pow_one (y : R) : Py.pow 1 y = Ok 1%R.
Proof.
  unfold Py.pow. destruct (Rlt_dec 0 1) as [_ | N]; [| exfalso; lra].
  f_equal. unfold Rpower. now rewrite ln_1, Rmult_0_r, exp_0.
Qed.

Lemma pow_zero_positive (y : R) : (0 < y)%R -> Py.pow 0 y = Ok 0%R.
Proof.
  intros Hy. unfold Py.pow.
  destruct (Rlt_dec 0 0) as [H | _]; [lra |].
  destruct (Req_dec_T 0 0) as [_ | N]; [| now elim N].
  destruct (Rlt_dec 0 y) as [_ | N]; [reflexivity | contradiction].
Qed.

Lemma pow_zero_zero : Py.pow 0 0 = Ok 1%R.
Proof.
  unfold Py.pow.
  destruct (Rlt_dec 0 0) as [H | _]; [lra |].
  destruct (Req_dec_T 0 0) as [_ | N]; [| now elim N].
  destruct (Rlt_dec 0 0) as [H | _]; [lra | reflexivity].
Qed.

(** [t ** rate] stays in [0, 1] for [t] in [0, 1] and [rate >= 0]. *)
Lemma pow_unit_interval (t rate r : R) :
  (0 <= t <= 1)%R -> (0 <= rate)%R -> Py.pow t rate = Ok r ->
  (0 <= r <= 1)%R.
Proof.
  intros Ht Hrate. unfold Py.pow.
  destruct (Rlt_dec 0 t) as [Hpos | Hnpos].
  - intros H. injection H as <-. unfold Rpower.
    pose proof (exp_pos (rate * ln t)) as Hexp.
    split; [lra |].
    assert (Hln : (ln t <= 0)%R).
    { rewrite <- ln_1. destruct Ht as [_ [Hlt | ->]].
      - left. now apply ln_increasing.
      - right. reflexivity. }
    assert (Harg : (rate * ln t <= 0)%R) by nra.
    rewrite <- exp_0. destruct Harg as [Hlt | ->].
    + left. now apply exp_increasing.
    + right. reflexivity.
  - destruct (Req_dec_T t 0) as [_ | Hnz]; [| lra].
    destruct (Rlt_dec 0 rate) as [_ | _].
    + intros H. injection H as <-. lra.
    + destruct (Req_dec_T rate 0) as [_ | _]; [| discriminate].
      intros H. injection H as <-. lra.
Qed.

Lemma last_position (p : Params) :
  (1 <= rings p)%Z -> (INR (Z.to_nat (rings p)) / IZR (rings p) = 1)%R.
Proof.
  intros Hr. rewrite INR_IZR_INZ, Z2Nat.id by lia.
  apply IZR_le in Hr. field. lra.
Qed.

Lemma first_position (p : Params) : (INR 0 / IZR (rings p) = 0)%R.
Proof. cbn. unfold Rdiv. apply Rmult_0_l. Qed.

(** X1.  The taper ends where the record says: the base radius of the
    last ring, at [t = rings/rings], is [radius_end] for every taper
    shape, and that of ring 0 is [radius_start] for the linear and the
    quadratic shape and for the exponential one with a positive rate.
    With [taper_rate = 0] the exponential taper starts at [radius_end]
    too, because [0.0 ** 0] is 1. *)
Theorem taper_endpoints (p : Params) :
  (1 <= rings p)%Z ->
  taper p (INR (Z.to_nat (rings p)) / IZR (rings p)) = Ok (radius_end p)
  /\ ((taper_shape p =? "exponential")%string = false
      \/ (taper_shape p =? "linear")%string = true
      \/ (0 < taper_rate p)%R ->
      taper p (INR 0 / IZR (rings p)) = Ok (radius_start p))
  /\ ((taper_shape p =? "linear")%string = false ->
      (taper_shape p =? "exponential")%string = true ->
      taper_rate p = 0%R ->
      taper p (INR 0 / IZR (rings p)) = Ok (radius_end p)).
Proof.
  intros Hr. rewrite last_position by exact Hr. rewrite first_position.
  unfold taper. split; [| split].
  - destruct (taper_shape p =? "linear")%string; [f_equal; ring |].
    destruct (taper_shape p =? "exponential")%string; [| f_equal; ring].
    rewrite pow_one. cbn [rbind]. f_equal. ring.
  - intros Hcase.
    destruct (taper_shape p =? "linear")%string eqn:El; [f_equal; ring |].
    destruct (taper_shape p =? "exponential")%string eqn:Ee;
      [| f_equal; ring].
    destruct Hcase as [H | [H | H]]; try discriminate H.
    rewrite pow_zero_positive by exact H. cbn [rbind]. f_equal. ring.
  - intros -> -> ->. rewrite pow_zero_zero. cbn [rbind]. f_equal. ring.
Qed.

Lemma taper_endpoints_witness :
  taper default_params (INR 30 / IZR 30) = Ok (radius_end default_params)
  /\ taper default_params (INR 0 / IZR 30) = Ok (radius_start default_params).
Proof.
  assert (Hr : (1 <= rings default_params)%Z) by (cbn; lia).
  destruct (taper_endpoints default_params Hr) as (Hend & Hstart & _).
  split; [exact Hend |]. apply Hstart. left. reflexivity.
Defined.

(** X2.  For [t] in [0, 1] the tapered radius is a weighted mean of the
    radii of the record: if [radius_start], [radius_center] and
    [radius_end] lie in [lo, hi], so does the radius (for the exponential
    shape provided [taper_rate >= 0]).  In particular it is positive when
    the three radii are. *)
Theorem taper_between_radii (p : Params) (t r lo hi : R) :
  (0 <= t <= 1)%R ->
  (taper_shape p = "exponential"%string -> (0 <= taper_rate p)%R) ->
  (lo <= radius_start p <= hi)%R ->
  (lo <= radius_center p <= hi)%R ->
  (lo <= radius_end p <= hi)%R ->
  taper p t = Ok r ->
  (lo <= r <= hi)%R.
Proof.
  intros Ht Hrate Hs Hc He. unfold taper.
  destruct (taper_shape p =? "linear")%string.
  - intros H. injection H as <-. nra.
  - destruct (taper_shape p =? "exponential")%string eqn:Ee.
    + apply String.eqb_eq in Ee. specialize (Hrate Ee).
      destruct (Py.pow t (taper_rate p)) as [pw | e] eqn:Hp;
        [| discriminate].
      pose proof (pow_unit_interval Ht Hrate Hp) as Hpw.
      cbn [rbind]. intros H. injection H as <-. nra.
    + intros H. injection H as <-.
      assert (Ha : (0 <= (1 - t) ^ 2)%R) by nra.
      assert (Hb : (0 <= 2 * (1 - t) * t)%R) by nra.
      assert (Hd : (0 <= t ^ 2)%R) by nra.
      assert (Hsum : ((1 - t) ^ 2 + 2 * (1 - t) * t + t ^ 2 = 1)%R) by ring.
      split; nra.
Qed.

Lemma taper_between_radii_witness :
  exists r,
    taper (set_frame default_params "quadratic" (-1) 1.1 "Z") (1 / 2) = Ok r
    /\ (0.4 <= r <= 0.5)%R.
Proof.
  assert (Hex : exists r,
            taper (set_frame default_params "quadratic" (-1) 1.1 "Z")
              (1 / 2) = Ok r).
  { unfold taper. cbn. eauto. }
  destruct Hex as [r Hr]. exists r. split; [exact Hr |].
  apply (@taper_between_radii
           (set_frame default_params "quadratic" (-1) 1.1 "Z") (1 / 2) r);
    try (cbn; lra).
  - intros He. discriminate He.
  - exact Hr.
Defined.

(** X3.  Inside the oval region ([t < oval_region_fraction]) the radii
    are [radius * ellipse_ratio] and [radius / ellipse_ratio]: their
    product is [radius^2], so the ellipse has the area of the circle, and
    the axis ratio [rx / ry] is the square of [ellipse_ratio].  From
    [t = oval_region_fraction] on the section is the circle. *)
Theorem ellipse_axes (p : Params) (t radius rx ry : R) :
  ellipse p t radius = Ok (rx, ry) ->
  ((t < oval_region_fraction p)%R ->
   ellipse_ratio p <> 0%R
   /\ rx = (radius * ellipse_ratio p)%R
   /\ ry = (radius / ellipse_ratio p)%R
   /\ (rx * ry = radius * radius)%R
   /\ (radius <> 0%R ->
       (rx / ry = ellipse_ratio p * ellipse_ratio p)%R))
  /\ ((oval_region_fraction p <= t)%R -> rx = radius /\ ry = radius).
Proof.
  unfold ellipse. intros H.
  destruct (Rlt_dec t (oval_region_fraction p)) as [Hlt | Hge].
  - split; [| lra]. intros _.
    destruct (Req_dec_T (ellipse_ratio p) 0) as [E | Hnz].
    { rewrite E, div_by_zero in H. discriminate H. }
    rewrite div_nonzero in H by exact Hnz. cbn [rbind] in H.
    injection H as <- <-.
    split; [exact Hnz |]. split; [reflexivity |]. split; [reflexivity |].
    split; [field; exact Hnz | intros Hr; field; split; assumption].
  - split; [intros Hlt; contradiction |]. intros _.
    injection H as <- <-. split; reflexivity.
Qed.

Lemma ellipse_axes_witness :
  exists rx ry,
    ellipse default_params 0 1 = Ok (rx, ry) /\ (rx * ry = 1 * 1)%R.
Proof.
  assert (Hex : exists rx ry, ellipse default_params 0 1 = Ok (rx, ry)).
  { unfold ellipse.
    destruct (Rlt_dec 0 (oval_region_fraction default_params)) as [_ | N];
      [| exfalso; apply N; cbn; lra].
    rewrite div_nonzero by (cbn; lra). cbn [rbind]. eauto. }
  destruct Hex as (rx & ry & H). exists rx, ry. split; [exact H |].
  destruct (ellipse_axes _ _ _ H) as [Hin _].
  assert (Hlt : (0 < oval_region_fraction default_params)%R) by (cbn; lra).
  exact (proj1 (proj2 (proj2 (proj2 (Hin Hlt))))).
Defined.

(** ** Twist and ring centres *)

Lemma rotation_zero (axis : string) (m : Matrix) (v : Vector) :
  Matrix_Rotation 0 axis = Ok m -> matmul_vec m v = v.
Proof.
  unfold Matrix_Rotation. rewrite cos_0, sin_0.
  destruct v as [[x y] z].
  destruct (axis =? "X")%string;
    [| destruct (axis =? "Y")%string;
       [| destruct (axis =? "Z")%string; [| discriminate]]];
    intros H; injection H as <-; unfold matmul_vec, dot;
    repeat f_equal; ring.
Qed.

Lemma rotation_isometry (angle : R) (axis : string) (m : Matrix)
    (v : Vector) :
  Matrix_Rotation angle axis = Ok m -> norm2 (matmul_vec m v) = norm2 v.
Proof.
  unfold Matrix_Rotation.
  pose proof (sin2_cos2 angle) as Hsc. unfold Rsqr in Hsc.
  destruct v as [[x y] z].
  destruct (axis =? "X")%string;
    [| destruct (axis =? "Y")%string;
       [| destruct (axis =? "Z")%string; [| discriminate]]];
    intros H; injection H as <-; unfold norm2, matmul_vec, dot;
    apply Rminus_diag_uniq.
  - replace (_ - _)%R
      with ((sin angle * sin angle + cos angle * cos angle - 1)
            * (y * y + z * z))%R by ring.
    rewrite Hsc. ring.
  - replace (_ - _)%R
      with ((sin angle * sin angle + cos angle * cos angle - 1)
            * (x * x + z * z))%R by ring.
    rewrite Hsc. ring.
  - replace (_ - _)%R
      with ((sin angle * sin angle + cos angle * cos angle - 1)
            * (x * x + y * y))%R by ring.
    rewrite Hsc. ring.
Qed.

Lemma twist_zero (p : Params) (t : R) (m : Matrix) (v : Vector) :
  twist_angle p = 0%R -> twist p t = Ok m -> matmul_vec m v = v.
Proof.
  intros H0. unfold twist, Py.radians. rewrite H0.
  replace (0 * (PI / 180) * t)%R with 0%R by ring.
  apply rotation_zero.
Qed.

(** The local point of a sample, read off the inner body. *)
Lemma local_point_fields (noise : R -> R -> R -> R) (p : Params)
    (f : RingFrame) (j : nat) (loc_v : Vector) :
  local_point noise p f j = Ok loc_v ->
  exists theta g,
    theta = (2 * PI * INR j / IZR (verts_per_ring p))%R
    /\ groove p theta = Ok g
    /\ loc_v
       = ((rf_rx f + rough noise p (rf_t f) theta + g) * cos theta,
          (rf_ry f + rough noise p (rf_t f) theta + g) * sin theta,
          0)%R.
Proof.
  intros H. unfold local_point in H.
  destruct (Z.eq_dec (verts_per_ring p) 0) as [E | Hnz].
  { rewrite E, div_by_zero in H. discriminate H. }
  rewrite div_nonzero in H by (now apply not_0_IZR). cbn [rbind] in H.
  destruct (groove p (2 * PI * INR j / IZR (verts_per_ring p)))
    as [g | e] eqn:Hg; [| discriminate H].
  cbn [rbind] in H. unfold sample_radii in H. injection H as <-.
  eauto.
Qed.

(** X4.  With [twist_angle = 0] the rotation of every ring is the
    identity, whatever the axis: each vertex is its local point moved to
    the ring centre. *)
Theorem twist_zero_identity (noise : R -> R -> R -> R) (p : Params)
    (i j : nat) (f : RingFrame) (v : Vector) :
  twist_angle p = 0%R ->
  ring_frame p i = Ok f ->
  ring_vertex noise p f j = Ok v ->
  (forall u, matmul_vec (rf_rot f) u = u)
  /\ exists loc_v,
       local_point noise p f j = Ok loc_v /\ v = vadd loc_v (rf_center f).
Proof.
  intros H0 Hf Hv.
  destruct (ring_frame_fields _ _ Hf) as (_ & _ & _ & Hrot & _).
  assert (Hid : forall u, matmul_vec (rf_rot f) u = u).
  { intros u. exact (twist_zero p _ u H0 Hrot). }
  split; [exact Hid |].
  unfold ring_vertex in Hv.
  destruct (local_point noise p f j) as [loc_v | e]; [| discriminate Hv].
  cbn [rbind] in Hv. injection Hv as <-.
  exists loc_v. split; [reflexivity |].
  unfold place. now rewrite Hid.
Qed.

Lemma default_vertex_defined (noise : R -> R -> R -> R) (i j : nat) :
  exists f v,
    ring_frame default_params i = Ok f
    /\ ring_vertex noise default_params f j = Ok v.
Proof.
  assert (Hr : (1 <= rings default_params)%Z) by (cbn; lia).
  destruct (ring_frame_total i Hr default_frame_defined) as [f Hf].
  assert (Hn : verts_per_ring default_params <> 0%Z) by (cbn; discriminate).
  assert (Hg : groove_count default_params <> 0%Z) by (cbn; discriminate).
  destruct (@ring_vertex_defined noise default_params f j Hn Hg) as [v Hv].
  exists f, v. split; assumption.
Defined.

Lemma twist_zero_identity_witness :
  exists f v loc_v,
    ring_frame default_params 3 = Ok f
    /\ local_point (flat_noise 0) default_params f 5 = Ok loc_v
    /\ v = vadd loc_v (rf_center f).
Proof.
  destruct (default_vertex_defined (flat_noise 0) 3 5) as (f & v & Hf & Hv).
  destruct (twist_zero_identity (flat_noise 0) default_params 3 5 eq_refl
              Hf Hv) as (_ & loc_v & Hl & Heq).
  exists f, v, loc_v. split; [exact Hf |]. split; [exact Hl | exact Heq].
Defined.

(** X5.  When the twist is about Z (or [twist_angle] is 0) every ring is
    flat and perpendicular to the Z axis: all its vertices have the
    height [length * i / rings]. *)
Theorem ring_height (noise : R -> R -> R -> R) (p : Params) (i j : nat)
    (f : RingFrame) (v : Vector) :
  Py.upper (twist_direction p) = "Z"%string \/ twist_angle p = 0%R ->
  ring_frame p i = Ok f ->
  ring_vertex noise p f j = Ok v ->
  vz v = (length p * (INR i / IZR (rings p)))%R.
Proof.
  intros Hcase Hf Hv.
  destruct (ring_frame_fields _ _ Hf) as (_ & _ & Hc & Hrot & _).
  unfold ring_vertex in Hv.
  destruct (local_point noise p f j) as [loc_v | e] eqn:Hl;
    [| discriminate Hv].
  cbn [rbind] in Hv. injection Hv as <-.
  destruct (local_point_fields _ _ _ _ Hl) as (theta & g & _ & _ & ->).
  unfold place. rewrite Hc.
  assert (Hz : vz (matmul_vec (rf_rot f)
                     ((rf_rx f + rough noise p (rf_t f) theta + g)
                      * cos theta,
                      (rf_ry f + rough noise p (rf_t f) theta + g)
                      * sin theta, 0)%R) = 0%R).
  { destruct Hcase as [HZ | H0].
    - unfold twist in Hrot. rewrite HZ in Hrot. cbn in Hrot.
      injection Hrot as <-. unfold matmul_vec, dot, vz. cbn. ring.
    - rewrite (twist_zero p _ _ H0 Hrot). reflexivity. }
  revert Hz. generalize (matmul_vec (rf_rot f)
                     ((rf_rx f + rough noise p (rf_t f) theta + g)
                      * cos theta,
                      (rf_ry f + rough noise p (rf_t f) theta + g)
                      * sin theta, 0)%R).
  intros [[a b] c]. unfold vz, vadd, centerline, eccentric_offset. cbn.
  intros ->. ring.
Qed.

Lemma ring_height_witness :
  exists f v,
    ring_frame default_params 15 = Ok f
    /\ ring_vertex (flat_noise 1) default_params f 7 = Ok v
    /\ vz v = (5 * (INR 15 / IZR 30))%R.
Proof.
  destruct (default_vertex_defined (flat_noise 1) 15 7) as (f & v & Hf & Hv).
  exists f, v. split; [exact Hf |]. split; [exact Hv |].
  exact (ring_height (flat_noise 1) default_params 15 7 (or_introl eq_refl)
           Hf Hv).
Defined.

Lemma dist2_vadd (a c : Vector) : dist2 (vadd a c) c = norm2 a.
Proof.
  destruct a as [[ax ay] az], c as [[cx cy] cz].
  unfold dist2, norm2, vsub, vadd, dot, vx, vy, vz. cbn. ring.
Qed.

(** X6.  The twist moves no vertex nearer to or farther from the centre
    of its ring: the squared distance of a vertex to the ring centre is
    the squared length of its local point,
    [(r_x * cos theta)^2 + (r_y * sin theta)^2]; where the ring is
    circular ([rx = ry]) that is the square of the sample's radius. *)
Theorem vertex_distance_to_centre (noise : R -> R -> R -> R) (p : Params)
    (i j : nat) (f : RingFrame) (v : Vector) :
  ring_frame p i = Ok f ->
  ring_vertex noise p f j = Ok v ->
  exists theta g,
    theta = (2 * PI * INR j / IZR (verts_per_ring p))%R
    /\ groove p theta = Ok g
    /\ let r_x := (rf_rx f + rough noise p (rf_t f) theta + g)%R in
       let r_y := (rf_ry f + rough noise p (rf_t f) theta + g)%R in
       dist2 v (rf_center f)
       = ((r_x * cos theta) ^ 2 + (r_y * sin theta) ^ 2)%R
       /\ (rf_rx f = rf_ry f -> dist2 v (rf_center f) = (r_x ^ 2)%R).
Proof.
  intros Hf Hv.
  destruct (ring_frame_fields _ _ Hf) as (_ & _ & _ & Hrot & _).
  unfold ring_vertex in Hv.
  destruct (local_point noise p f j) as [loc_v | e] eqn:Hl;
    [| discriminate Hv].
  cbn [rbind] in Hv. injection Hv as <-.
  destruct (local_point_fields _ _ _ _ Hl) as (theta & g & Ht & Hg & Hloc).
  exists theta, g. split; [exact Ht |]. split; [exact Hg |].
  cbv zeta. unfold place. rewrite dist2_vadd.
  unfold twist in Hrot. rewrite (rotation_isometry _ _ loc_v Hrot).
  rewrite Hloc. unfold norm2, dot.
  split; [ring |]. intros ->.
  pose proof (sin2_cos2 theta) as Hsc. unfold Rsqr in Hsc.
  apply Rminus_diag_uniq.
  replace (_ - _)%R
    with ((rf_ry f + rough noise p (rf_t f) theta + g) ^ 2
          * (sin theta * sin theta + cos theta * cos theta - 1))%R by ring.
  rewrite Hsc. ring.
Qed.

Lemma vertex_distance_to_centre_witness :
  exists f v theta g,
    ring_frame default_params 29 = Ok f
    /\ ring_vertex (flat_noise 1) default_params f 11 = Ok v
    /\ groove default_params theta = Ok g
    /\ (rf_rx f = rf_ry f ->
        dist2 v (rf_center f)
        = ((rf_rx f + rough (flat_noise 1) default_params (rf_t f) theta + g)
           ^ 2)%R).
Proof.
  destruct (default_vertex_defined (flat_noise 1) 29 11)
    as (f & v & Hf & Hv).
  destruct (vertex_distance_to_centre (flat_noise 1) default_params 29 11
              Hf Hv) as (theta & g & _ & Hg & _ & Hcirc).
  exists f, v, theta, g.
  split; [exact Hf |]. split; [exact Hv |]. split; [exact Hg | exact Hcirc].
Defined.

Lemma cos_full_turns (k : Z) : cos (2 * PI * IZR k * 1) = 1%R.
Proof.
  replace (2 * PI * IZR k * 1)%R with (2 * (IZR k * PI))%R by ring.
  rewrite cos_2a_sin.
  rewrite (sin_eq_0_1 (IZR k * PI)) by (exists k; reflexivity).
  ring.
Qed.

Lemma sin_full_turns (k : Z) : sin (2 * PI * IZR k * 1) = 0%R.
Proof.
  apply sin_eq_0_1. exists (2 * k)%Z. rewrite mult_IZR. ring.
Qed.

(** X7.  The centerline is a helix around the Z axis: at every [t] it
    is at distance [|curve_strength|] from the axis and at height
    [length * t]; [curve_count] being an integer, it ends above its
    start, at [(0, curve_strength, length)].  The eccentric offset added
    to it is horizontal and of length [|eccentricity_offset|]. *)
Theorem centre_geometry (p : Params) (t : R) :
  (vx (centerline p t) ^ 2 + vy (centerline p t) ^ 2
   = curve_strength p ^ 2)%R
  /\ vz (centerline p t) = (length p * t)%R
  /\ centerline p 1 = (0, curve_strength p, length p)%R
  /\ norm2 (eccentric_offset p) = (eccentricity_offset p ^ 2)%R
  /\ vz (eccentric_offset p) = 0%R.
Proof.
  unfold centerline, eccentric_offset, norm2, dot, vx, vy, vz.
  cbn [fst snd].
  split; [| split; [reflexivity | split; [| split; [| reflexivity]]]].
  - pose proof (sin2_cos2 (2 * PI * IZR (curve_count p) * t)) as Hsc.
    unfold Rsqr in Hsc. apply Rminus_diag_uniq.
    replace (_ - _)%R
      with (curve_strength p ^ 2
            * (sin (2 * PI * IZR (curve_count p) * t)
               * sin (2 * PI * IZR (curve_count p) * t)
               + cos (2 * PI * IZR (curve_count p) * t)
                 * cos (2 * PI * IZR (curve_count p) * t) - 1))%R by ring.
    rewrite Hsc. ring.
  - rewrite sin_full_turns, cos_full_turns. repeat f_equal; ring.
  - pose proof (sin2_cos2 (Py.radians (eccentricity_angle p))) as Hsc.
    unfold Rsqr in Hsc. apply Rminus_diag_uniq.
    replace (_ - _)%R
      with (eccentricity_offset p ^ 2
            * (sin (Py.radians (eccentricity_angle p))
               * sin (Py.radians (eccentricity_angle p))
               + cos (Py.radians (eccentricity_angle p))
                 * cos (Py.radians (eccentricity_angle p)) - 1))%R by ring.
    rewrite Hsc. ring.
Qed.

(** ** Flanges and grooves *)

(** X8.  Which rings carry a flange.  Ring 0 always does when
    [flange_count] is not zero.  When [flange_count] exceeds [rings] the
    step is 1 and every ring does.  When [0 < flange_count <= rings] the
    rings [k * (rings // flange_count)], [k = 0 .. flange_count], all
    exist and all do: at least [flange_count + 1] rings are flanged. *)
Theorem flanged_rings (p : Params) :
  (flange_count p <> 0%Z -> flange_test p 0 = true)
  /\ ((0 < flange_count p)%Z -> (rings p < flange_count p)%Z ->
      forall i, flange_test p i = true)
  /\ ((0 < flange_count p <= rings p)%Z ->
      (1 <= rings p / flange_count p)%Z
      /\ forall k, (0 <= k <= flange_count p)%Z ->
           (k * (rings p / flange_count p) <= rings p)%Z
           /\ flange_test p (Z.to_nat (k * (rings p / flange_count p)))
              = true).
Proof.
  unfold flange_test. split; [| split].
  - intros Hnz. apply Z.eqb_neq in Hnz. rewrite Hnz.
    apply Z.eqb_eq. apply Z.mod_0_l.
    pose proof (Z.le_max_l 1 (rings p / flange_count p)). lia.
  - intros Hpos Hlt i.
    destruct (flange_count p =? 0)%Z eqn:E0; [lia |].
    assert (Hq : (rings p / flange_count p < 1)%Z)
      by (apply Z.div_lt_upper_bound; lia).
    rewrite Z.max_l by lia. apply Z.eqb_eq. apply Z.mod_1_r.
  - intros [Hpos Hle].
    assert (Hstep : (1 <= rings p / flange_count p)%Z)
      by (apply Z.div_le_lower_bound; lia).
    split; [exact Hstep |]. intros k Hk.
    pose proof (Z.mul_div_le (rings p) (flange_count p) Hpos) as Hmul.
    assert (Hin : (k * (rings p / flange_count p) <= rings p)%Z) by nia.
    split; [exact Hin |].
    destruct (flange_count p =? 0)%Z eqn:E0; [lia |].
    rewrite Z.max_r by lia.
    rewrite Z2Nat.id by nia.
    apply Z.eqb_eq. apply Z.mod_mul. lia.
Qed.

Lemma flanged_rings_witness :
  flange_test default_params 0 = true
  /\ flange_test default_params (Z.to_nat (3 * (30 / 3))) = true.
Proof.
  destruct (flanged_rings default_params) as (H0 & _ & Hk).
  split.
  - apply H0. cbn. discriminate.
  - assert (Hfc : (0 < flange_count default_params
                   <= rings default_params)%Z) by (cbn; lia).
    destruct (Hk Hfc) as [_ Hall].
    assert (H3 : (0 <= 3 <= flange_count default_params)%Z) by (cbn; lia).
    exact (proj2 (Hall 3%Z H3)).
Defined.

Lemma fmod_range (x m r : R) :
  (0 < m)%R -> Py.fmod x m = Ok r -> (0 <= r < m)%R.
Proof.
  intros Hm. rewrite fmod_nonzero by lra. intros H. injection H as <-.
  destruct (base_Int_part (x / m)) as [Hlo Hhi].
  assert (Hx : (x = m * (x / m))%R) by (field; lra).
  set (q := (x / m)%R) in *. set (k := IZR (Int_part q)) in *.
  rewrite Hx. split; nra.
Qed.





(** X10.  The two extremes of [groove_width].  With a width of zero (or
    less) no sample is ever notched.  With a width above the angular
    period [2*pi / groove_count] the notches merge: every sample is
    notched, the whole section shrinks by [groove_depth]. *)
Theorem groove_width_extremes (p : Params) (theta : R) :
  ((groove_width p <= 0)%R ->
   forall g, groove p theta = Ok g -> g = 0%R)
  /\ ((0 < groove_count p)%Z ->
      (2 * PI / IZR (groove_count p) < groove_width p)%R ->
      groove p theta = Ok (- groove_depth p)%R).
Proof.
  unfold groove. split.
  - intros Hw g H.
    destruct (Py.div (2 * PI) (IZR (groove_count p))) as [m | e];
      [| discriminate H].
    cbn [rbind] in H.
    destruct (Py.fmod (theta - m / 2) m) as [r | e]; [| discriminate H].
    cbn [rbind] in H. injection H as <-.
    pose proof (Rabs_pos (r - m / 2)).
    destruct (Rlt_dec _ _) as [Hlt | _]; [lra | reflexivity].
  - intros Hg Hw.
    assert (Hgc : (0 < IZR (groove_count p))%R) by (now apply IZR_lt).
    rewrite div_nonzero by lra. cbn [rbind].
    set (m := (2 * PI / IZR (groove_count p))%R) in *.
    assert (Hm : (0 < m)%R).
    { unfold m. pose proof PI_RGT_0.
      apply Rmult_lt_0_compat; [lra | now apply Rinv_0_lt_compat]. }
    destruct (Py.fmod (theta - m / 2) m) as [r | e] eqn:Hr.
    + pose proof (fmod_range _ Hm Hr) as Hrange. cbn [rbind].
      assert (Habs : (Rabs (r - m / 2) <= m / 2)%R)
        by (apply Rabs_le; lra).
      destruct (Rlt_dec _ _) as [_ | N]; [reflexivity | exfalso; lra].
    + rewrite fmod_nonzero in Hr by lra. discriminate Hr.
Qed.

Lemma groove_width_extremes_witness :
  (forall g,
     groove (set_grooves default_params 2 0) 1 = Ok g -> g = 0%R)
  /\ groove (set_grooves default_params 20 (PI / 4)) 1
     = Ok (- groove_depth default_params)%R.
Proof.
  split.
  - assert (Hw : (groove_width (set_grooves default_params 2 0) <= 0)%R)
      by (cbn; lra).
    exact (proj1 (groove_width_extremes (set_grooves default_params 2 0) 1)
             Hw).
  - apply (proj2 (groove_width_extremes
                    (set_grooves default_params 20 (PI / 4)) 1)).
    + cbn. lia.
    + cbn. pose proof PI_RGT_0. lra.
Defined.

(** ** Well-formed meshes *)

Lemma nth_trunk_quads (p : Params) (b a : nat) (q : list nat) :
  nth_error (trunk_quads p b) a = Some q ->
  exists i j,
    a = (i * Z.to_nat (verts_per_ring p) + j)%nat
    /\ (i < Z.to_nat (rings p))%nat /\ (j < Z.to_nat (verts_per_ring p))%nat
    /\ q = quad p b i j.
Proof.
  intros H.
  assert (Ha : (a < Z.to_nat (rings p) * Z.to_nat (verts_per_ring p))%nat).
  { rewrite <- (trunk_quads_length p b). apply nth_error_Some.
    rewrite H. discriminate. }
  set (n := Z.to_nat (verts_per_ring p)) in *.
  assert (Hn : (0 < n)%nat) by nia.
  exists (a / n)%nat, (a mod n)%nat.
  pose proof (Nat.div_mod_eq a n) as Hdm.
  pose proof (Nat.mod_upper_bound a n) as Hmod.
  assert (Hi : (a / n < Z.to_nat (rings p))%nat)
    by (apply Nat.Div0.div_lt_upper_bound; lia).
  split; [lia |]. split; [exact Hi |]. split; [lia |].
  assert (Hq : nth_error (trunk_quads p b) (a / n * n + a mod n)
               = Some (quad p b (a / n) (a mod n))).
  { apply trunk_quads_nth; [exact Hi | unfold n in *; lia]. }
  replace (a / n * n + a mod n)%nat with a in Hq by lia.
  rewrite H in Hq. now injection Hq.
Qed.

Lemma trunk_indices_valid (noise : R -> R -> R -> R) (nm : string)
    (p : Params) :
  mesh_indices_valid (trunk_mesh noise nm p).
Proof.
  intros poly Hpoly v Hv. cbn [polygons vertices trunk_mesh] in *.
  apply in_map_iff in Hpoly. destruct Hpoly as (q & <- & Hq).
  cbn [poly_vertices smooth_polygon] in Hv.
  destruct (in_trunk_quads _ _ _ Hq) as (i & j & Hi & Hj & ->).
  rewrite trunk_points_length.
  assert (Hn : (1 <= verts_per_ring p)%Z) by lia.
  pose proof (next_index_lt p j Hn) as Hnext.
  apply in_quad in Hv.
  replace (Z.to_nat (rings p + 1)) with (S (Z.to_nat (rings p))) by lia.
  set (n := Z.to_nat (verts_per_ring p)) in *.
  destruct Hv as [-> | [-> | [-> | ->]]]; nia.
Qed.

Lemma cap_indices_valid (nm : string) (coords : list Vector)
    (material : string) (flip : bool) :
  mesh_indices_valid (cap_mesh nm coords material flip).
Proof.
  intros poly Hpoly v Hv. cbn [polygons vertices cap_mesh] in *.
  destruct Hpoly as [<- | []]. cbn [poly_vertices] in Hv.
  destruct flip; [apply in_rev in Hv |]; apply in_seq in Hv; lia.
Qed.

(** X11.  The meshes of a finished turn of the main loop are well
    formed, whatever the record: every face of the trunk and of the two
    caps refers to vertices that exist in its mesh. *)
Theorem faces_index_existing_vertices (noise : R -> R -> R -> R)
    (unique_name : list string -> string -> string)
    (selectable : Object -> bool)
    (cfg : Params) (w w' : Scene) (log_obj cap_start cap_end : Object) :
  process_log noise unique_name selectable cfg w = (Ok (log_obj, cap_start, cap_end), w') ->
  mesh_indices_valid (obj_mesh w' log_obj)
  /\ mesh_indices_valid (obj_mesh w' cap_start)
  /\ mesh_indices_valid (obj_mesh w' cap_end).
Proof.
  intros H.
  destruct (@process_log_meshes noise unique_name selectable cfg w w'
              log_obj cap_start cap_end H)
    as (_ & mn1 & mn2 & mn3 & -> & -> & ->).
  split; [| split; apply cap_indices_valid].
  exact (trunk_indices_valid noise mn1 cfg).
Qed.

Lemma faces_index_existing_vertices_witness :
  exists log_obj cap_start cap_end w',
    process_log (flat_noise 0) free_name all_selectable default_params
      empty_scene
    = (Ok (log_obj, cap_start, cap_end), w')
    /\ mesh_indices_valid (obj_mesh w' log_obj).
Proof.
  destruct (process_log_ok (flat_noise 0) free_name all_selectable
              empty_scene default_turn_defined)
    as (log_obj & cap_start & cap_end & mn1 & mn2 & mn3 & Hrun & _).
  exists log_obj, cap_start, cap_end. eexists. split; [exact Hrun |].
  exact (proj1 (@faces_index_existing_vertices (flat_noise 0) free_name
                  all_selectable default_params empty_scene _ log_obj
                  cap_start cap_end Hrun)).
Defined.

(** X12.  With [rings >= 1] and [verts_per_ring >= 3] no face of the
    trunk is degenerate: each quad has four different vertices, and no
    two faces are over the same set of vertices. *)
Theorem trunk_faces_distinct (noise : R -> R -> R -> R)
    (unique_name : list string -> string -> string) (p : Params)
    (nm : string) (location : Vector) (w w' : Scene) (obj : Object) :
  (3 <= verts_per_ring p)%Z ->
  generate_proc_log noise unique_name nm p location w = (Ok obj, w') ->
  let faces := map poly_vertices (polygons (obj_mesh w' obj)) in
  (forall f, In f faces -> NoDup f /\ List.length f = 4%nat)
  /\ (forall a b fa fb,
        nth_error faces a = Some fa -> nth_error faces b = Some fb ->
        same_vertices fa fb -> a = b).
Proof.
  intros Hn H faces.
  destruct (generate_proc_log_returns _ _ _ _ _ _ H) as [_ Hm].
  assert (Hfaces : faces = trunk_quads p 0).
  { unfold faces. rewrite Hm. cbn [polygons trunk_mesh].
    rewrite map_map. cbn [poly_vertices smooth_polygon]. apply map_id. }
  rewrite Hfaces. split.
  - intros f Hf.
    destruct (in_trunk_quads _ _ _ Hf) as (i & j & _ & Hj & ->).
    split; [apply quad_nodup; [lia | exact Hj] | reflexivity].
  - intros a b fa fb Ha Hb Hsame.
    destruct (nth_trunk_quads _ _ _ Ha) as (i & j & -> & _ & Hj & ->).
    destruct (nth_trunk_quads _ _ _ Hb) as (i' & j' & -> & _ & Hj' & ->).
    destruct (@quad_same_vertices p i j i' j' Hn Hj Hj' Hsame) as [-> ->].
    reflexivity.
Qed.

Lemma trunk_faces_distinct_witness :
  exists obj w',
    generate_proc_log (flat_noise 0) free_name "Log" default_params (0, 0, 0)%R
      empty_scene = (Ok obj, w')
    /\ forall f,
         In f (map poly_vertices (polygons (obj_mesh w' obj))) -> NoDup f.
Proof.
  pose proof (generate_proc_log_ok (flat_noise 0) free_name "Log" (0, 0, 0)%R
                empty_scene default_params_defined) as Hgen.
  assert (Hn : (3 <= verts_per_ring default_params)%Z) by (cbn; lia).
  do 2 eexists. split; [exact Hgen |].
  intros f Hf.
  exact (proj1 (proj1 (trunk_faces_distinct _ _ _ _ _ _ Hn Hgen) f Hf)).
Defined.

(** X13.  With one or two vertices per ring the face loop asks Blender
    for a face it refuses.  With [verts_per_ring = 2] the second quad of
    the first ring pair, [1, 0, 2, 3], is over the four vertices of the
    first, [0, 1, 3, 2]; with [verts_per_ring = 1] the first quad,
    [0, 0, 1, 1], names each of its two vertices twice.  Either way
    [bm.faces.new] raises [ValueError] when every vertex of the trunk
    and, with two, one face are in the bmesh; nothing of it reaches the
    mesh datablock. *)
Theorem few_vertices_degenerate (noise : R -> R -> R -> R)
    (unique_name : list string -> string -> string) (p : Params)
    (nm : string) (location : Vector) (w : Scene) :
  (1 <= rings p)%Z -> frame_defined p -> groove_count p <> 0%Z ->
  (verts_per_ring p = 2%Z ->
   quad p 0 0 0 = [0; 1; 3; 2]%nat
   /\ quad p 0 0 1 = [1; 0; 2; 3]%nat
   /\ same_vertices (quad p 0 0 0) (quad p 0 0 1)
   /\ build_trunk noise p bmesh_new
      = (Err ValueError,
         {| bm_verts := trunk_points noise p;
            bm_faces := [quad p 0 0 0] |}))
  /\ (verts_per_ring p = 1%Z ->
      quad p 0 0 0 = [0; 0; 1; 1]%nat
      /\ ~ NoDup (quad p 0 0 0)
      /\ build_trunk noise p bmesh_new
         = (Err ValueError,
            {| bm_verts := trunk_points noise p; bm_faces := [] |}))
  /\ ((1 <= verts_per_ring p <= 2)%Z ->
      generate_proc_log noise unique_name nm p location w
      = (Err ValueError,
         scene_with unique_name nm location w
           (empty_mesh (new_mesh_name unique_name nm w)))).
Proof.
  intros Hr Hfd Hg. split; [| split].
  - intros Hn.
    assert (Hq0 : quad p 0 0 0 = [0; 1; 3; 2]%nat)
      by (unfold quad, next_index; rewrite Hn; reflexivity).
    assert (Hq1 : quad p 0 0 1 = [1; 0; 2; 3]%nat)
      by (unfold quad, next_index; rewrite Hn; reflexivity).
    rewrite Hq0, Hq1.
    split; [reflexivity |]. split; [reflexivity |]. split.
    + intros x. cbn [In]. intuition lia.
    + rewrite (build_trunk_few noise Hr Hfd Hg (or_intror Hn)).
      now rewrite Hn.
  - intros Hn.
    assert (Hq0 : quad p 0 0 0 = [0; 0; 1; 1]%nat)
      by (unfold quad, next_index; rewrite Hn; reflexivity).
    rewrite Hq0. split; [reflexivity |]. split.
    + intros Hnd. inversion Hnd as [| ? ? Hnotin _]. apply Hnotin. now left.
    + rewrite (build_trunk_few noise Hr Hfd Hg (or_introl Hn)).
      now rewrite Hn.
  - intros Hn.
    assert (Hfew : verts_per_ring p = 1%Z \/ verts_per_ring p = 2%Z) by lia.
    unfold generate_proc_log, new_object, scene_with.
    now rewrite (build_trunk_few noise Hr Hfd Hg Hfew).
Qed.

Lemma few_vertices_degenerate_witness :
  build_trunk (flat_noise 0) (small_params 2) bmesh_new
  = (Err ValueError,
     {| bm_verts := trunk_points (flat_noise 0) (small_params 2);
        bm_faces := [[0; 1; 3; 2]%nat] |})
  /\ exists w',
       generate_proc_log (flat_noise 0) free_name "Log" (small_params 1)
         (0, 0, 0)%R empty_scene = (Err ValueError, w').
Proof.
  assert (Hg : forall n, groove_count (small_params n) <> 0%Z)
    by (intros n; cbn; discriminate).
  assert (Hr : forall n, (1 <= rings (small_params n))%Z)
    by (intros n; cbn; lia).
  split.
  - destruct (@few_vertices_degenerate (flat_noise 0) free_name
                (small_params 2) "Log" (0, 0, 0)%R empty_scene (Hr 2%Z)
                (small_params_frame 2) (Hg 2%Z)) as [Htwo _].
    destruct (Htwo eq_refl) as (Hq & _ & _ & Hbt).
    rewrite Hbt, Hq. reflexivity.
  - destruct (@few_vertices_degenerate (flat_noise 0) free_name
                (small_params 1) "Log" (0, 0, 0)%R empty_scene (Hr 1%Z)
                (small_params_frame 1) (Hg 1%Z)) as (_ & _ & Hgen).
    eexists. apply Hgen. cbn. lia.
Defined.

(** ** Sizes, failures and the scene *)

Lemma generate_ring_zero_error (noise : R -> R -> R -> R)
    (unique_name : list string -> string -> string) (p : Params)
    (nm : string) (location : Vector) (w : Scene) (e : Exn) :
  (0 <= rings p)%Z -> ring_frame p 0 = Err e ->
  generate_proc_log noise unique_name nm p location w
  = (Err e,
     scene_with unique_name nm location w
       (empty_mesh (new_mesh_name unique_name nm w))).
Proof.
  intros Hr He.
  unfold generate_proc_log, new_object, scene_with, build_trunk,
    build_rings, Py.range.
  replace (Z.to_nat (rings p + 1)) with (S (Z.to_nat (rings p))) by lia.
  cbn [seq for_each].
  unfold bind at 1. unfold bind at 1. unfold bind at 1. unfold lift at 1.
  now rewrite He.
Qed.

(** X14.  The sizes at and below their bounds.  With [rings < 0] the
    loops do not run and an empty mesh is returned, no exception.  With
    [rings = 0] the first ring divides by zero.  With
    [verts_per_ring <= 0] and [rings >= 1] the rings are empty and an
    empty mesh is returned, also when [groove_count] is 0. *)
Theorem degenerate_sizes (noise : R -> R -> R -> R)
    (unique_name : list string -> string -> string) (p : Params)
    (nm : string) (location : Vector) (w : Scene) :
  ((rings p < 0)%Z ->
   exists obj w',
     generate_proc_log noise unique_name nm p location w = (Ok obj, w')
     /\ vertices (obj_mesh w' obj) = [] /\ polygons (obj_mesh w' obj) = [])
  /\ (rings p = 0%Z ->
      exists w',
        generate_proc_log noise unique_name nm p location w
        = (Err ZeroDivisionError, w'))
  /\ ((1 <= rings p)%Z -> (verts_per_ring p <= 0)%Z -> frame_defined p ->
      exists obj w',
        generate_proc_log noise unique_name nm p location w = (Ok obj, w')
        /\ vertices (obj_mesh w' obj) = []
        /\ polygons (obj_mesh w' obj) = []).
Proof.
  split; [| split].
  - intros Hr.
    assert (Hd : trunk_defined p) by (now left).
    pose proof (generate_proc_log_ok noise unique_name nm location w Hd) as Hgen.
    do 2 eexists. split; [exact Hgen |].
    rewrite (proj2 (generate_proc_log_returns _ _ _ _ _ _ Hgen)).
    apply trunk_mesh_empty. now left.
  - intros Hr. eexists.
    apply generate_ring_zero_error; [lia |].
    unfold ring_frame. now rewrite Hr, div_by_zero.
  - intros Hr Hn Hfd.
    assert (Hd : trunk_defined p) by (right; tauto).
    pose proof (generate_proc_log_ok noise unique_name nm location w Hd) as Hgen.
    do 2 eexists. split; [exact Hgen |].
    rewrite (proj2 (generate_proc_log_returns _ _ _ _ _ _ Hgen)).
    apply trunk_mesh_empty. now right.
Qed.

Lemma degenerate_sizes_witness :
  exists obj w',
    generate_proc_log (flat_noise 0) free_name "Log"
      (set_grooves (small_params 0) 0 0) (0, 0, 0)%R empty_scene
    = (Ok obj, w')
    /\ vertices (obj_mesh w' obj) = [].
Proof.
  destruct (degenerate_sizes (flat_noise 0) free_name
              (set_grooves (small_params 0) 0 0) "Log" (0, 0, 0)%R
              empty_scene) as (_ & _ & Hempty).
  destruct Hempty as (obj & w' & Hgen & Hv & _).
  - cbn. lia.
  - cbn. lia.
  - split; [cbn; discriminate |]. split; [| split].
    + intros Hl. cbn in Hl. discriminate Hl.
    + intros Hpos. cbn in Hpos. lra.
    + reflexivity.
  - exists obj, w'. split; [exact Hgen | exact Hv].
Defined.

Lemma taper_zero_error (p : Params) :
  (taper_shape p =? "linear")%string = false ->
  (taper_shape p =? "exponential")%string = true ->
  (taper_rate p < 0)%R ->
  taper p 0 = Err ZeroDivisionError.
Proof.
  intros Hl He Hrate. unfold taper. rewrite Hl, He.
  now rewrite pow_zero_negative by exact Hrate.
Qed.

Lemma ellipse_zero_error (p : Params) (radius : R) :
  (0 < oval_region_fraction p)%R -> ellipse_ratio p = 0%R ->
  ellipse p 0 radius = Err ZeroDivisionError.
Proof.
  intros Hpos Hz. unfold ellipse.
  destruct (Rlt_dec 0 (oval_region_fraction p)) as [_ | N];
    [| contradiction].
  now rewrite Hz, div_by_zero.
Qed.

(** X15.  What stops ring 0, in the order the body reaches it, on a
    record with [rings >= 1]: an exponential taper with a negative rate
    ([0.0 ** rate]) and, past it, an [ellipse_ratio] of 0 with a
    non-empty oval region both raise [ZeroDivisionError]; past those, a
    twist axis that is not X, Y or Z raises [ValueError]. *)
Theorem failure_causes (noise : R -> R -> R -> R)
    (unique_name : list string -> string -> string) (p : Params)
    (nm : string) (location : Vector) (w : Scene) :
  (1 <= rings p)%Z ->
  ((taper_shape p =? "linear")%string = false ->
   (taper_shape p =? "exponential")%string = true ->
   (taper_rate p < 0)%R ->
   exists w',
     generate_proc_log noise unique_name nm p location w = (Err ZeroDivisionError, w'))
  /\ (taper_defined p ->
      (0 < oval_region_fraction p)%R -> ellipse_ratio p = 0%R ->
      exists w',
        generate_proc_log noise unique_name nm p location w
        = (Err ZeroDivisionError, w'))
  /\ (taper_defined p -> ellipse_defined p ->
      axis_known (Py.upper (twist_direction p)) = false ->
      exists w',
        generate_proc_log noise unique_name nm p location w = (Err ValueError, w')).
Proof.
  intros Hr.
  assert (Hnz : IZR (rings p) <> 0%R) by (apply not_0_IZR; lia).
  assert (Hstart : forall k : R -> result RingFrame,
            rbind (Py.div (INR 0) (IZR (rings p))) k = k 0%R).
  { intros k. rewrite div_nonzero by exact Hnz. cbn [rbind].
    now rewrite first_position. }
  assert (H0 : (0 <= 0)%R) by lra.
  split; [| split].
  - intros Hl He Hrate. eexists.
    apply generate_ring_zero_error; [lia |].
    unfold ring_frame. rewrite Hstart.
    now rewrite taper_zero_error by assumption.
  - intros Ht Hpos Hz. eexists.
    apply generate_ring_zero_error; [lia |].
    unfold ring_frame. rewrite Hstart.
    destruct (@taper_total p 0 H0 Ht) as [radius ->]. cbn [rbind].
    now rewrite ellipse_zero_error by assumption.
  - intros Ht He Ha. eexists.
    apply generate_ring_zero_error; [lia |].
    unfold ring_frame. rewrite Hstart.
    destruct (@taper_total p 0 H0 Ht) as [radius ->]. cbn [rbind].
    destruct (@ellipse_total p 0 radius H0 He) as [rxy ->]. cbn [rbind].
    destruct (flange p 0 rxy) as [rx ry].
    unfold twist. now rewrite rotation_unknown by exact Ha.
Qed.

Lemma failure_causes_witness :
  (exists w',
     generate_proc_log (flat_noise 0) free_name "Log"
       (set_frame default_params "exponential" (-1) 1.1 "Z") (0, 0, 0)%R
       empty_scene = (Err ZeroDivisionError, w'))
  /\ (exists w',
        generate_proc_log (flat_noise 0) free_name "Log"
          (set_frame default_params "quadratic" 8 0 "Z") (0, 0, 0)%R
          empty_scene = (Err ZeroDivisionError, w'))
  /\ (exists w',
        generate_proc_log (flat_noise 0) free_name "Log"
          (set_frame default_params "quadratic" 8 1.1 "W") (0, 0, 0)%R
          empty_scene = (Err ValueError, w')).
Proof.
  split; [| split].
  - assert (Hr : (1 <= rings (set_frame default_params "exponential" (-1)
                               1.1 "Z"))%Z) by (cbn; lia).
    apply (proj1 (failure_causes (flat_noise 0) free_name _ "Log" (0, 0, 0)%R
                    empty_scene Hr)); try reflexivity.
    cbn. lra.
  - assert (Hr : (1 <= rings (set_frame default_params "quadratic" 8 0
                               "Z"))%Z) by (cbn; lia).
    apply (proj1 (proj2 (failure_causes (flat_noise 0) free_name _ "Log" (0, 0, 0)%R
                           empty_scene Hr))).
    + intros _ He. cbn in He. discriminate He.
    + cbn. lra.
    + reflexivity.
  - assert (Hr : (1 <= rings (set_frame default_params "quadratic" 8 1.1
                               "W"))%Z) by (cbn; lia).
    apply (proj2 (proj2 (failure_causes (flat_noise 0) free_name _ "Log" (0, 0, 0)%R
                           empty_scene Hr))).
    + intros _ He. cbn in He. discriminate He.
    + intros _. cbn. lra.
    + reflexivity.
Defined.

Lemma upper_ascii_xyz (c : ascii) :
  (Py.upper_ascii c = "X"%char -> c = "x"%char \/ c = "X"%char)
  /\ (Py.upper_ascii c = "Y"%char -> c = "y"%char \/ c = "Y"%char)
  /\ (Py.upper_ascii c = "Z"%char -> c = "z"%char \/ c = "Z"%char).
Proof.
  destruct c as [[] [] [] [] [] [] [] []]; vm_compute;
    repeat split; intros H; try discriminate H; auto.
Qed.

Lemma upper_single (s : string) (c : ascii) :
  Py.upper s = String c "" ->
  exists c', s = String c' "" /\ Py.upper_ascii c' = c.
Proof.
  destruct s as [| c' s']; cbn [Py.upper]; intros H; [discriminate H |].
  injection H as Hc Hs. destruct s' as [| d s'']; [| discriminate Hs].
  eauto.
Qed.

(** X16.  The twist axis is looked up by its upper-cased name: the six
    names x, y, z, X, Y, Z are the ones [Matrix.Rotation] is given a
    known axis for, every other [twist_direction] makes it raise. *)
Theorem twist_axis_names (p : Params) (t : R) :
  (exists m, twist p t = Ok m)
  <-> In (twist_direction p) ["x"; "y"; "z"; "X"; "Y"; "Z"]%string.
Proof.
  split.
  - unfold twist, Matrix_Rotation. intros [m H].
    destruct (Py.upper (twist_direction p) =? "X")%string eqn:EX.
    { apply String.eqb_eq in EX. apply upper_single in EX.
      destruct EX as (c & -> & Hc).
      destruct (proj1 (upper_ascii_xyz c) Hc) as [-> | ->]; cbn; tauto. }
    destruct (Py.upper (twist_direction p) =? "Y")%string eqn:EY.
    { apply String.eqb_eq in EY. apply upper_single in EY.
      destruct EY as (c & -> & Hc).
      destruct (proj1 (proj2 (upper_ascii_xyz c)) Hc) as [-> | ->]; cbn;
        tauto. }
    destruct (Py.upper (twist_direction p) =? "Z")%string eqn:EZ.
    { apply String.eqb_eq in EZ. apply upper_single in EZ.
      destruct EZ as (c & -> & Hc).
      destruct (proj2 (proj2 (upper_ascii_xyz c)) Hc) as [-> | ->]; cbn;
        tauto. }
    discriminate H.
  - intros H. unfold twist. apply rotation_known.
    cbn [In] in H.
    destruct H as [<- | [<- | [<- | [<- | [<- | [<- | []]]]]]];
      reflexivity.
Qed.

Lemma twist_axis_names_witness :
  exists m, twist default_params 0 = Ok m.
Proof.
  apply (proj2 (twist_axis_names default_params 0)).
  cbn. tauto.
Defined.



(** ** Texture sets *)

Section TextureFacts.

Variable path_join : string -> string -> string.
Variable SEMINARSKA_DIR : string.

Lemma texture_sets_length :
  List.length (TEXTURE_SETS path_join SEMINARSKA_DIR) = 6%nat.
Proof. reflexivity. Qed.

Lemma pick_specific_in_range (idx : Z) :
  (-5 <= idx <= 6)%Z ->
  let base :=
    nth (Z.to_nat ((idx - 1) mod 6)) (TEXTURE_SETS path_join SEMINARSKA_DIR)
      EmptyString in
  pick_specific_textures path_join SEMINARSKA_DIR idx
  = Ok (base, texture_files path_join base).
Proof.
  intros Hidx.
  assert (Hcases : idx = (-5)%Z \/ idx = (-4)%Z \/ idx = (-3)%Z
                   \/ idx = (-2)%Z \/ idx = (-1)%Z \/ idx = 0%Z
                   \/ idx = 1%Z \/ idx = 2%Z \/ idx = 3%Z \/ idx = 4%Z
                   \/ idx = 5%Z \/ idx = 6%Z) by lia.
  repeat (destruct Hcases as [-> | Hcases]; [reflexivity |]).
  subst idx. reflexivity.
Qed.

Lemma pick_specific_out_of_range (idx : Z) :
  (idx < -5 \/ 6 < idx)%Z ->
  pick_specific_textures path_join SEMINARSKA_DIR idx = Err IndexError.
Proof.
  intros Hidx. unfold pick_specific_textures, index_z.
  rewrite texture_sets_length.
  destruct (idx - 1 <? 0)%Z eqn:Eneg.
  - destruct (idx - 1 + Z.of_nat 6 <? 0)%Z eqn:Elow; [reflexivity |].
    apply Z.ltb_lt in Eneg. apply Z.ltb_ge in Elow. lia.
  - apply Z.ltb_ge in Eneg. unfold Py.index.
    assert (Hnone : nth_error (TEXTURE_SETS path_join SEMINARSKA_DIR)
                      (Z.to_nat (idx - 1)) = None).
    { apply nth_error_None. rewrite texture_sets_length. lia. }
    now rewrite Hnone.
Qed.

(** X18.  [pick_specific_textures] finds a texture set exactly for the
    indices -5 .. 6.  For 1 .. 6 it is the set of that number; 0 and the
    negative indices are not refused but count from the end of the list,
    so that 0 selects set 6; any other index raises [IndexError]. *)
Theorem specific_texture_index (idx : Z) :
  ((-5 <= idx <= 6)%Z ->
   exists base,
     pick_specific_textures path_join SEMINARSKA_DIR idx
     = Ok (base, texture_files path_join base)
     /\ base
        = path_join (TEXTURES_DIR path_join SEMINARSKA_DIR)
            (nth (Z.to_nat ((idx - 1) mod 6))
               ["1"; "2"; "3"; "4"; "5"; "6"]%string EmptyString))
  /\ ((idx < -5 \/ 6 < idx)%Z ->
      pick_specific_textures path_join SEMINARSKA_DIR idx = Err IndexError)
  /\ pick_specific_textures path_join SEMINARSKA_DIR 0
     = pick_specific_textures path_join SEMINARSKA_DIR 6.
Proof.
  split; [| split].
  - intros Hidx. eexists. split; [apply pick_specific_in_range; exact Hidx |].
    unfold TEXTURE_SETS.
    assert (Hlt : (Z.to_nat ((idx - 1) mod 6) < 6)%nat).
    { pose proof (Z.mod_pos_bound (idx - 1) 6). lia. }
    rewrite (nth_indep _ EmptyString
               (path_join (TEXTURES_DIR path_join SEMINARSKA_DIR)
                  EmptyString))
      by (rewrite length_map; exact Hlt).
    apply map_nth.
  - apply pick_specific_out_of_range.
  - reflexivity.
Qed.

End TextureFacts.

Lemma specific_texture_index_witness :
  pick_specific_textures append "/project" (-2)
  = Ok ("/projecttextures4"%string,
        texture_files append "/projecttextures4")
  /\ pick_specific_textures append "/project" 7 = Err IndexError.
Proof.
  destruct (specific_texture_index append "/project" (-2)) as (Hin & _ & _).
  destruct (specific_texture_index append "/project" 7) as (_ & Hout & _).
  split.
  - destruct Hin as (base & Hpick & ->); [lia |]. exact Hpick.
  - apply Hout. right. lia.
Defined.

(** * Properties of the parameter editor *)

(** ** The form *)

Lemma rows_per_col_ceiling (total ncols : Z) :
  (1 <= ncols)%Z -> (1 <= total)%Z ->
  (1 <= rows_per_col total ncols
   /\ total <= rows_per_col total ncols * ncols
   /\ (rows_per_col total ncols - 1) * ncols < total)%Z.
Proof.
  intros Hc Ht. unfold rows_per_col.
  pose proof (Z.div_mod (total + ncols - 1) ncols) as Hdm.
  pose proof (Z.mod_pos_bound (total + ncols - 1) ncols) as Hmod.
  assert (Hge : (1 <= (total + ncols - 1) / ncols)%Z)
    by (apply Z.div_le_lower_bound; lia).
  nia.
Qed.

(** X21.  The form grid of [_build_ui], for any number of parameters and
    of columns: every label and input widget gets a cell of its own, in
    a row above the row of the buttons and in one of the
    [2 * NUM_COLUMNS] grid columns, the widget to the right of its
    label; no two parameters share a cell. *)
Theorem form_grid_layout (total ncols idx idx' : Z) :
  (1 <= ncols)%Z -> (0 <= idx < total)%Z -> (0 <= idx' < total)%Z ->
  (0 <= fst (label_cell total ncols idx) < rows_per_col total ncols)%Z
  /\ (fst (label_cell total ncols idx) < button_row total ncols)%Z
  /\ (0 <= snd (label_cell total ncols idx))%Z
  /\ (snd (widget_cell total ncols idx) < 2 * ncols)%Z
  /\ widget_cell total ncols idx
     = (fst (label_cell total ncols idx),
        snd (label_cell total ncols idx) + 1)%Z
  /\ (label_cell total ncols idx = label_cell total ncols idx' -> idx = idx')
  /\ (widget_cell total ncols idx = widget_cell total ncols idx' ->
      idx = idx')
  /\ label_cell total ncols idx <> widget_cell total ncols idx'.
Proof.
  intros Hc Hi Hi'.
  destruct (@rows_per_col_ceiling total ncols Hc) as (Hrpc & Hfit & _);
    [lia |].
  unfold label_cell, widget_cell, button_row. cbn [fst snd].
  set (rpc := rows_per_col total ncols) in *.
  pose proof (Z.mod_pos_bound idx rpc) as Hm.
  pose proof (Z.mod_pos_bound idx' rpc) as Hm'.
  pose proof (Z.div_mod idx rpc) as Hd.
  pose proof (Z.div_mod idx' rpc) as Hd'.
  assert (Hcol : (0 <= idx / rpc < ncols)%Z).
  { split; [apply Z.div_pos; lia |].
    apply Z.div_lt_upper_bound; [lia | nia]. }
  repeat split; try lia.
  - intros H. injection H as Hrow Hcol'. nia.
  - intros H. injection H as Hrow Hcol'. nia.
  - intros H. injection H as _ Hcol'. lia.
Qed.

Lemma form_grid_layout_witness :
  widget_cell (Z.of_nat (List.length PARAMS)) NUM_COLUMNS 30 = (14, 3)%Z
  /\ button_row (Z.of_nat (List.length PARAMS)) NUM_COLUMNS = 17%Z.
Proof.
  assert (Hc : (1 <= NUM_COLUMNS)%Z) by (unfold NUM_COLUMNS; lia).
  assert (Hi : (0 <= 30 < Z.of_nat (List.length PARAMS))%Z) by (cbn; lia).
  destruct (@form_grid_layout (Z.of_nat (List.length PARAMS)) NUM_COLUMNS
              30 30 Hc Hi Hi) as (_ & _ & _ & _ & Hw & _).
  split; [rewrite Hw |]; reflexivity.
Defined.

Lemma params_keys_nodup : NoDup (map key PARAMS).
Proof.
  cbn [map PARAMS key].
  repeat (constructor; [cbn [In]; intuition discriminate |]).
  constructor.
Qed.

(** X22.  The two tables of the editor agree: [PARAMS] and
    [PARAM_METADATA] list the same 31 keys in the same order, no key
    twice; every default has the type of its parameter and, for a
    combobox, is one of the choices; every numeric default lies within
    its documented range. *)
Theorem editor_tables_agree :
  map key PARAMS = map fst PARAM_METADATA
  /\ List.length PARAMS = 31%nat
  /\ NoDup (map key PARAMS)
  /\ Forall default_well_formed PARAMS
  /\ Forall (fun ps => within_documented_range (key ps) (default ps)) PARAMS.
Proof.
  split; [reflexivity |]. split; [reflexivity |]. split; [| split].
  - exact params_keys_nodup.
  - repeat (constructor; [cbn; tauto |]). constructor.
  - pose proof PI_RGT_0 as HPI.
    repeat (constructor;
            [unfold within_documented_range; cbn; try exact I; lra |]).
    constructor.
Qed.

(** ** Dictionaries and files *)

Lemma dict_get_set_same (d : dict) (k : string) (v : Value) :
  dict_get (dict_set d k v) k = Some v.
Proof.
  induction d as [| [k' v'] d IH]; cbn [dict_set dict_get].
  - now rewrite String.eqb_refl.
  - destruct (k' =? k)%string eqn:E; cbn [dict_get].
    + now rewrite String.eqb_refl.
    + now rewrite E.
Qed.

Lemma dict_get_set_other (d : dict) (k k' : string) (v : Value) :
  k <> k' -> dict_get (dict_set d k v) k' = dict_get d k'.
Proof.
  intros Hne. induction d as [| [k0 v0] d IH]; cbn [dict_set dict_get].
  - apply String.eqb_neq in Hne. now rewrite Hne.
  - destruct (k0 =? k)%string eqn:E; cbn [dict_get].
    + apply String.eqb_eq in E. subst k0.
      apply String.eqb_neq in Hne. now rewrite Hne.
    + destruct (k0 =? k')%string; [reflexivity | exact IH].
Qed.

Lemma read_write_same (fs : Files) (path : string) (data : dict) :
  read_file (write_file fs path data) path = Some data.
Proof.
  induction fs as [| [p d] fs IH]; cbn [write_file read_file].
  - now rewrite String.eqb_refl.
  - destruct (p =? path)%string eqn:E; cbn [read_file].
    + now rewrite String.eqb_refl.
    + now rewrite E.
Qed.

Lemma read_write_other (fs : Files) (path path' : string) (data : dict) :
  path <> path' ->
  read_file (write_file fs path data) path' = read_file fs path'.
Proof.
  intros Hne. induction fs as [| [p d] fs IH]; cbn [write_file read_file].
  - apply String.eqb_neq in Hne. now rewrite Hne.
  - destruct (p =? path)%string eqn:E; cbn [read_file].
    + apply String.eqb_eq in E. subst p.
      apply String.eqb_neq in Hne. now rewrite Hne.
    + destruct (p =? path')%string; [reflexivity | exact IH].
Qed.

Section EditorFacts.

Variable py_int : string -> option Z.
Variable py_float : string -> option R.
Variable str_of_int : Z -> string.
Variable str_of_float : R -> string.
Variable path_join : string -> string -> string.
Variable PARAM_DIR : string.
Variable makedirs_ok : string -> bool.
Variable writable : string -> bool.

Lemma collect_invalid (entries : list (string * (string * PyType)))
    (data : dict) :
  collect py_int py_float entries data = None
  <-> exists k val t,
        In (k, (val, t)) entries /\ convert py_int py_float t val = None.
Proof.
  revert data. induction entries as [| [k [val t]] rest IH]; intros data;
    cbn [collect].
  - split; [discriminate | intros (k & val & t & [] & _)].
  - destruct (convert py_int py_float t val) as [v |] eqn:Ec.
    + rewrite IH. split.
      * intros (k' & val' & t' & Hin & Hc).
        exists k', val', t'. split; [now right | exact Hc].
      * intros (k' & val' & t' & [Heq | Hin] & Hc).
        -- injection Heq as -> -> ->. rewrite Ec in Hc. discriminate Hc.
        -- exists k', val', t'. split; assumption.
    + split; [| reflexivity]. intros _.
      exists k, val, t. split; [now left | exact Ec].
Qed.

(** With distinct keys the dictionary holds, for every key of the form,
    the converted text of its entry, and nothing else beside what it
    held. *)
Lemma collect_get (entries : list (string * (string * PyType))) :
  NoDup (map fst entries) ->
  forall data data',
    collect py_int py_float entries data = Some data' ->
    forall k,
      dict_get data' k
      = match entry_of entries k with
        | Some (val, t) => convert py_int py_float t val
        | None => dict_get data k
        end.
Proof.
  induction entries as [| [k0 [val0 t0]] rest IH]; intros Hnd data data' H k;
    cbn [collect entry_of] in *.
  - now injection H as <-.
  - inversion Hnd as [| ? ? Hnotin Hnd']. subst.
    destruct (convert py_int py_float t0 val0) as [v0 |] eqn:Ec;
      [| discriminate H].
    rewrite (IH Hnd' _ _ H k).
    destruct (k0 =? k)%string eqn:E.
    + apply String.eqb_eq in E. subst k0.
      assert (Hnone : entry_of rest k = None).
      { clear -Hnotin. induction rest as [| [k1 e1] rest IH];
          [reflexivity |].
        cbn [entry_of]. destruct (k1 =? k)%string eqn:E1.
        - apply String.eqb_eq in E1. subst k1. exfalso. apply Hnotin.
          now left.
        - apply IH. intros Hin. apply Hnotin. now right. }
      rewrite Hnone, dict_get_set_same. now rewrite Ec.
    + apply String.eqb_neq in E.
      destruct (entry_of rest k) as [[val t] |]; [reflexivity |].
      now apply dict_get_set_other.
Qed.

(** X23.  [save_json] writes nothing unless every numeric entry
    converts: the outcome is the "Invalid input" dialog exactly when some
    entry of type int or float holds a text that [int] or [float]
    refuses, and then the parameter directory is as it was.  Entries of
    type str never cause it. *)
Theorem save_json_invalid_input
    (entries : list (string * (string * PyType))) (fs : Files) :
  let outcome :=
    save_json py_int py_float str_of_int str_of_float path_join PARAM_DIR
      makedirs_ok writable entries fs in
  (fst outcome = InvalidInput
   <-> exists k val t,
         In (k, (val, t)) entries /\ t <> TStr
         /\ convert py_int py_float t val = None)
  /\ (fst outcome = InvalidInput -> snd outcome = fs).
Proof.
  cbv zeta. unfold save_json.
  destruct (collect py_int py_float entries []) as [data |] eqn:Hc.
  - assert (Hne : collect py_int py_float entries [] <> None)
      by (rewrite Hc; discriminate).
    rewrite collect_invalid in Hne.
    split.
    + split.
      * destruct (makedirs_ok _); cbn [negb fst]; [| discriminate].
        destruct (writable _); cbn [fst]; discriminate.
      * intros (k & val & t & Hin & _ & Hconv). exfalso. apply Hne.
        exists k, val, t. split; assumption.
    + destruct (makedirs_ok _); cbn [negb fst]; [| discriminate].
      destruct (writable _); cbn [fst]; discriminate.
  - cbn [fst snd]. split; [| reflexivity].
    split; [| reflexivity]. intros _.
    apply collect_invalid in Hc. destruct Hc as (k & val & t & Hin & Hconv).
    exists k, val, t. split; [exact Hin |]. split; [| exact Hconv].
    intros ->. discriminate Hconv.
Qed.

(** X24.  When every entry converts, what [save_json] does is decided
    by the file system.  If [os.makedirs] raises, the exception leaves
    [save_json]: no dialog, no file written.  If the directory is there
    and the file can be opened, one file is written,
    [PARAM_DIR/<name>.json]: it holds for each key of the form the
    converted text of its entry, whatever the documented range of the
    key, and no other key; a file of that name that was there is
    replaced, every other file is as it was.  If the file cannot be
    opened the "Save Error" dialog is shown and no file changes. *)
Theorem save_json_writes_entries
    (entries : list (string * (string * PyType))) (fs : Files) :
  NoDup (map fst entries) ->
  (forall k val t,
     In (k, (val, t)) entries -> convert py_int py_float t val <> None) ->
  exists data,
    let stem :=
      match dict_get data "name" with
      | Some v => py_str str_of_int str_of_float v
      | None => "LogParameters"%string
      end in
    let out_path := path_join PARAM_DIR (stem ++ ".json") in
    let run :=
      save_json py_int py_float str_of_int str_of_float path_join
        PARAM_DIR makedirs_ok writable entries fs in
    (forall k,
       dict_get data k
       = match entry_of entries k with
         | Some (val, t) => convert py_int py_float t val
         | None => None
         end)
    /\ (makedirs_ok PARAM_DIR = false -> run = (MakedirsRaised, fs))
    /\ (makedirs_ok PARAM_DIR = true -> writable out_path = true ->
        exists fs',
          run = (Saved out_path, fs')
          /\ read_file fs' out_path = Some data
          /\ forall path, path <> out_path ->
               read_file fs' path = read_file fs path)
    /\ (makedirs_ok PARAM_DIR = true -> writable out_path = false ->
        run = (SaveError, fs)).
Proof.
  intros Hnd Hall.
  destruct (collect py_int py_float entries []) as [data |] eqn:Hc.
  - exists data. cbv zeta. split; [| split; [| split]].
    + intros k. rewrite (@collect_get entries Hnd _ _ Hc k).
      destruct (entry_of entries k) as [[val t] |]; reflexivity.
    + intros Hm. unfold save_json. now rewrite Hc, Hm.
    + intros Hm Hw. unfold save_json. rewrite Hc, Hm, Hw. cbn [negb].
      eexists. split; [reflexivity |].
      split; [apply read_write_same |].
      intros path Hne. apply read_write_other. congruence.
    + intros Hm Hw. unfold save_json. now rewrite Hc, Hm, Hw.
  - exfalso. apply collect_invalid in Hc.
    destruct Hc as (k & val & t & Hin & Hconv).
    exact (Hall k val t Hin Hconv).
Qed.

End EditorFacts.

Lemma save_json_invalid_input_witness :
  save_json sample_int sample_float (fun _ => "0"%string)
    (fun _ => "0.0"%string) append "dir/" (fun _ => true) (fun _ => true) broken_entries []
  = (InvalidInput, []).
Proof.
  destruct (save_json_invalid_input sample_int sample_float
              (fun _ => "0"%string) (fun _ => "0.0"%string) append "dir/"
              (fun _ => true) (fun _ => true) broken_entries []) as [Hiff Hkeep].
  cbv zeta in Hiff, Hkeep.
  assert (Hfst : fst (save_json sample_int sample_float
                        (fun _ => "0"%string) (fun _ => "0.0"%string)
                        append "dir/" (fun _ => true) (fun _ => true)
                        broken_entries [])
                 = InvalidInput).
  { apply Hiff. exists "length"%string, "long"%string, TFloat.
    split; [right; left; reflexivity |]. split; [discriminate | reflexivity]. }
  pose proof (Hkeep Hfst) as Hsnd.
  destruct (save_json _ _ _ _ _ _ _ _ _) as [o f].
  cbn [fst snd] in Hfst, Hsnd. now subst.
Defined.

Lemma save_json_writes_entries_witness :
  exists fs',
    save_json sample_int sample_float (fun _ => "0"%string)
      (fun _ => "0.0"%string) append "dir/" (fun _ => true) (fun _ => true) sample_entries []
    = (Saved "dir/Log.json", fs')
    /\ exists data,
         read_file fs' "dir/Log.json" = Some data
         /\ dict_get data "length" = Some (VFloat 100).
Proof.
  assert (Hnd : NoDup (map fst sample_entries)).
  { cbn. repeat (constructor; [cbn [In]; intuition discriminate |]).
    constructor. }
  assert (Hall : forall k val t,
            In (k, (val, t)) sample_entries ->
            convert sample_int sample_float t val <> None).
  { intros k val t [H | [H | [H | []]]]; injection H as <- <- <-;
      discriminate. }
  destruct (@save_json_writes_entries sample_int sample_float
              (fun _ => "0"%string) (fun _ => "0.0"%string) append "dir/"
              (fun _ => true) (fun _ => true) sample_entries [] Hnd Hall)
    as (data & Hget & _ & Hsave & _).
  cbv zeta in Hget, Hsave.
  assert (Hname : dict_get data "name" = Some (VStr "Log")) by apply Hget.
  rewrite Hname in Hsave. cbn [py_str append] in Hsave.
  destruct (Hsave eq_refl eq_refl) as (fs' & Hrun & Hread & _).
  exists fs'. split; [exact Hrun |].
  exists data. split; [exact Hread | apply Hget].
Defined.

(** ** From the editor to the generator *)

Lemma subscript_all_found (params : dict) (keys : list string) :
  (forall k, In k keys -> dict_get params k <> None) ->
  exists values,
    subscript_all params keys = Found values
    /\ List.length values = List.length keys.
Proof.
  induction keys as [| k keys IH]; intros Hall; cbn [subscript_all].
  - exists []. split; reflexivity.
  - destruct (dict_get params k) as [v |] eqn:Hk;
      [| exfalso; apply (Hall k); [now left | exact Hk]].
    destruct IH as (vs & -> & Hlen);
      [intros k' Hk'; apply Hall; now right |].
    exists (v :: vs). split; [reflexivity | cbn; now rewrite Hlen].
Qed.

Lemma subscript_all_missing (params : dict) (keys : list string)
    (k : string) :
  In k keys -> dict_get params k = None ->
  exists k', In k' keys /\ dict_get params k' = None
             /\ subscript_all params keys = KeyError k'.
Proof.
  induction keys as [| k0 keys IH]; intros Hin Hnone; [destruct Hin |].
  cbn [subscript_all].
  destruct (dict_get params k0) as [v |] eqn:Hk0.
  - destruct Hin as [-> | Hin]; [rewrite Hnone in Hk0; discriminate Hk0 |].
    destruct (IH Hin Hnone) as (k' & Hin' & Hnone' & ->).
    exists k'. split; [now right |]. split; [exact Hnone' | reflexivity].
  - exists k0. split; [now left |]. split; [exact Hk0 | reflexivity].
Qed.

Lemma form_entry (texts : string -> string) (l : list ParamSpec)
    (k : string) :
  In k (map key l) ->
  exists t,
    entry_of (map (fun ps => (key ps, (texts (key ps), typ ps))) l) k
    = Some (texts k, t)
    /\ In (k, (texts k, t))
         (map (fun ps => (key ps, (texts (key ps), typ ps))) l).
Proof.
  induction l as [| ps l IH]; intros Hin; [destruct Hin |].
  cbn [map entry_of].
  destruct (key ps =? k)%string eqn:E.
  - apply String.eqb_eq in E. subst k. exists (typ ps).
    split; [reflexivity | now left].
  - destruct Hin as [Heq | Hin];
      [apply String.eqb_neq in E; contradiction |].
    destruct (IH Hin) as (t & He & Hi). exists t.
    split; [exact He | now right].
Qed.

Lemma form_entry_none (texts : string -> string) (l : list ParamSpec)
    (k : string) :
  ~ In k (map key l) ->
  entry_of (map (fun ps => (key ps, (texts (key ps), typ ps))) l) k = None.
Proof.
  induction l as [| ps l IH]; intros Hnotin; [reflexivity |].
  cbn [map entry_of].
  destruct (key ps =? k)%string eqn:E.
  - apply String.eqb_eq in E. exfalso. apply Hnotin. now left.
  - apply IH. intros Hin. apply Hnotin. now right.
Qed.

Lemma unpack_keys_in_params (k : string) :
  In k unpack_keys -> In k (map key PARAMS).
Proof.
  assert (Hb : forallb (fun k => existsb (String.eqb k) (map key PARAMS))
                 unpack_keys = true) by reflexivity.
  intros Hin. rewrite forallb_forall in Hb. specialize (Hb k Hin).
  apply existsb_exists in Hb. destruct Hb as (k' & Hin' & E).
  apply String.eqb_eq in E. now subst.
Qed.

Section RoundTrip.

Variable py_int : string -> option Z.
Variable py_float : string -> option R.
Variable str_of_int : Z -> string.
Variable str_of_float : R -> string.
Variable path_join : string -> string -> string.
Variable PARAM_DIR : string.
Variable makedirs_ok : string -> bool.
Variable writable : string -> bool.

(** X25.  A file the editor has saved can be unpacked by the generator:
    it is [PARAM_DIR/<name>.json], it holds every one of the 24 keys
    [generate_proc_log] subscripts, so the unpacking block raises no
    [KeyError], and it holds [name] and [texture] as the main loop reads
    them.  It never holds [cap_disp_strength], which the main loop
    therefore always takes at its default. *)
Theorem editor_file_unpacks (texts : string -> string) (fs fs' : Files)
    (out_path : string) :
  save_json py_int py_float str_of_int str_of_float path_join PARAM_DIR
    makedirs_ok writable (form_entries texts) fs = (Saved out_path, fs') ->
  out_path = path_join PARAM_DIR (texts "name" ++ ".json")%string
  /\ exists data,
       read_file fs' out_path = Some data
       /\ (exists values,
             unpack_parameters data = Found values
             /\ List.length values = 24%nat)
       /\ dict_get data "name"%string = Some (VStr (texts "name"%string))
       /\ dict_get data "texture"%string = Some (VStr (texts "texture"%string))
       /\ dict_get data "cap_disp_strength"%string = None.
Proof.
  unfold save_json. intros H.
  destruct (collect py_int py_float (form_entries texts) []) as [data |]
    eqn:Hc; [| discriminate H].
  assert (Hnd : NoDup (map fst (form_entries texts))).
  { unfold form_entries. rewrite map_map. cbn [fst].
    exact params_keys_nodup. }
  pose proof (@collect_get py_int py_float (form_entries texts) Hnd _ _ Hc)
    as Hget.
  assert (Hname : dict_get data "name"%string
                  = Some (VStr (texts "name"%string)))
    by (rewrite Hget; reflexivity).
  rewrite Hname in H. cbn [py_str] in H.
  destruct (makedirs_ok _); cbn [negb] in H; [| discriminate H].
  destruct (writable _); [| discriminate H].
  injection H as <- <-.
  split; [reflexivity |]. exists data.
  split; [apply read_write_same |].
  split; [| split; [exact Hname | split]].
  - apply subscript_all_found. intros k Hin. rewrite Hget.
    destruct (@form_entry texts PARAMS k (@unpack_keys_in_params k Hin))
      as (t & He & Hi).
    unfold form_entries. rewrite He.
    intros Hnone.
    assert (Hbad : collect py_int py_float (form_entries texts) [] = None).
    { apply collect_invalid. exists k, (texts k), t. split; assumption. }
    rewrite Hbad in Hc. discriminate Hc.
  - rewrite Hget. reflexivity.
  - rewrite Hget. unfold form_entries.
    rewrite form_entry_none; [reflexivity |].
    cbn [map PARAMS key In]. intuition discriminate.
Qed.

End RoundTrip.

Lemma editor_file_unpacks_witness :
  exists fs' data values,
    save_json sample_int sample_float (fun _ => "0"%string)
      (fun _ => "0.0"%string) append "dir/" (fun _ => true) (fun _ => true)
      (form_entries sample_texts) []
    = (Saved "dir/Log.json", fs')
    /\ read_file fs' "dir/Log.json" = Some data
    /\ unpack_parameters data = Found values
    /\ List.length values = 24%nat
    /\ dict_get data "cap_disp_strength" = None.
Proof.
  destruct (save_json sample_int sample_float (fun _ => "0"%string)
              (fun _ => "0.0"%string) append "dir/" (fun _ => true) (fun _ => true)
              (form_entries sample_texts) []) as [outcome fs'] eqn:Hrun.
  assert (Hout : outcome = Saved "dir/Log.json")
    by (apply (f_equal fst) in Hrun; cbn in Hrun; now subst).
  subst outcome.
  destruct (@editor_file_unpacks sample_int sample_float
              (fun _ => "0"%string) (fun _ => "0.0"%string) append "dir/"
              (fun _ => true) (fun _ => true) sample_texts [] fs' "dir/Log.json" Hrun)
    as (_ & data & Hread & (values & Hun & Hlen) & _ & _ & Hcap).
  exists fs', data, values. repeat split; assumption.
Defined.

(** ** The unpacking block *)

Lemma subscript_all_first_missing (params : dict) (keys : list string)
    (k : string) :
  subscript_all params keys = KeyError k ->
  exists before after,
    keys = before ++ k :: after
    /\ dict_get params k = None
    /\ forall k', In k' before -> dict_get params k' <> None.
Proof.
  induction keys as [| k0 keys IH]; cbn [subscript_all]; [discriminate |].
  destruct (dict_get params k0) as [v |] eqn:Hk0.
  - destruct (subscript_all params keys) as [vs | k1]; [discriminate |].
    intros H. injection H as ->.
    destruct (IH eq_refl) as (before & after & -> & Hnone & Hbefore).
    exists (k0 :: before), after. split; [reflexivity |].
    split; [exact Hnone |].
    intros k' [<- | Hin]; [rewrite Hk0; discriminate | now apply Hbefore].
  - intros H. injection H as <-.
    exists [], keys. split; [reflexivity |]. split; [exact Hk0 |].
    intros k' [].
Qed.

Lemma subscript_all_agree (params params' : dict) (keys : list string) :
  (forall k, In k keys -> dict_get params k = dict_get params' k) ->
  subscript_all params keys = subscript_all params' keys.
Proof.
  induction keys as [| k0 keys IH]; intros Hagree; [reflexivity |].
  cbn [subscript_all]. rewrite (Hagree k0) by now left.
  rewrite IH; [reflexivity |]. intros k Hin. apply Hagree. now right.
Qed.

(** X26.  The unpacking block of [generate_proc_log] succeeds exactly on
    the dictionaries that hold all of its 24 keys.  Its [KeyError] names
    the first key of the block that is missing, every key before it being
    present; and the block looks at no other key: two dictionaries that
    agree on the 24 keys unpack alike. *)
Theorem unpack_key_error (params : dict) :
  ((exists values, unpack_parameters params = Found values)
   <-> forall k, In k unpack_keys -> dict_get params k <> None)
  /\ (forall k,
        unpack_parameters params = KeyError k ->
        exists before after,
          unpack_keys = before ++ k :: after
          /\ dict_get params k = None
          /\ forall k', In k' before -> dict_get params k' <> None)
  /\ (forall params',
        (forall k, In k unpack_keys ->
                   dict_get params k = dict_get params' k) ->
        unpack_parameters params = unpack_parameters params').
Proof.
  unfold unpack_parameters. split; [| split].
  - split.
    + intros (values & Hfound) k Hin Hnone.
      destruct (@subscript_all_missing params unpack_keys k Hin Hnone)
        as (k' & _ & _ & Herr).
      rewrite Herr in Hfound. discriminate Hfound.
    + intros Hall.
      destruct (@subscript_all_found params unpack_keys Hall)
        as (values & Hfound & _).
      exists values. exact Hfound.
  - intros k. apply subscript_all_first_missing.
  - intros params'. apply subscript_all_agree.
Qed.

Lemma unpack_key_error_witness :
  unpack_parameters [("length"%string, VFloat 5); ("rings"%string, VInt 30)]
  = KeyError "radius_start"
  /\ exists before after,
       unpack_keys = before ++ "radius_start"%string :: after
       /\ before = ["length"%string].
Proof.
  split; [reflexivity |].
  destruct (proj1 (proj2 (unpack_key_error
              [("length"%string, VFloat 5); ("rings"%string, VInt 30)]))
              "radius_start"%string eq_refl)
    as (before & after & Hkeys & _ & Hbefore).
  exists before, after. split; [exact Hkeys |].
  destruct before as [| k0 before]; [discriminate Hkeys |].
  injection Hkeys as <- Hrest.
  destruct before as [| k1 before]; [reflexivity |].
  injection Hrest as <- Hrest. exfalso.
  apply (Hbefore "radius_start"%string); [right; left; reflexivity |].
  reflexivity.
Defined.
